(** * Saga coordinator on top of the Server loop (package gen)

    A shallow embedding of [gen/saga.go], [gen/server.go] and
    [gen/types.go]: the Saga's transaction, step and job maps with the
    transaction objects they share by pointer, the Saga API
    ([StartTransaction], [Next], [SendResult], ...), the message handlers
    ([handleSagaRequest], [handleSagaExit], [HandleInfo], [HandleCall]) and
    one iteration of the Server's [ProcessLoop].

    Calls that leave the Saga (sending, monitoring, spawning, user
    callbacks) are recorded in a trace of effects; what the runtime answers
    (fresh references, the clock, the result of a synchronous call) comes in
    as arguments. *)

From stdpp Require Import base option list gmap strings.
From Stdlib Require Import ZArith.

Local Open Scope Z_scope.
Set Warnings "-register-all".

(** ** Terms of the external term format *)

Module etf.

(** Modelled from the spec: package [etf] is not among the sources.
    "References are opaque 12-byte tuples (creation, id[0..2]); pids are
    (node-name, id, serial, creation)". *)
Record Ref := MkRef { ref_Creation : N; ref_ID : N * N * N }.
Record Pid := MkPid {
  pid_Node : string; pid_ID : N; pid_Serial : N; pid_Creation : N }.

#[global] Instance Ref_eq_dec : EqDecision Ref.
Proof. solve_decision. Defined.
#[global] Instance Pid_eq_dec : EqDecision Pid.
Proof. solve_decision. Defined.

#[global] Instance Ref_countable : Countable Ref.
Proof.
  refine (inj_countable' (λ r, (ref_Creation r, ref_ID r))
                         (λ t, MkRef t.1 t.2) _).
  by intros [].
Defined.
#[global] Instance Pid_countable : Countable Pid.
Proof.
  refine (inj_countable'
            (λ p, (pid_Node p, pid_ID p, pid_Serial p, pid_Creation p))
            (λ t, MkPid t.1.1.1 t.1.1.2 t.1.2 t.2) _).
  by intros [].
Defined.

(** gen.ProcessID of types.go. *)
Record ProcessID := MkProcessID { pid_Name : string; pid_NodeName : string }.

(** A value of Go's [interface{}] as the Saga and the Server inspect it:
    the etf terms they build and take apart, the Go scalars a type
    assertion tells apart, and the Go structs that travel as local
    messages. *)
Inductive Term :=
| Nil                                   (* the nil interface *)
| Atom (a : string)
| TPid (p : Pid)
| TRef (r : Ref)
| Alias (r : Ref)
| Tuple (l : list Term)
| List (l : list Term)
| ListImproper (l : list Term)
| Map (m : list (string * Term))
| Pids (l : list Pid)                   (* []etf.Pid *)
| Str (s : string)
| Int64 (z : Z)
| Uint (z : Z)
| Bool (b : bool)
| TxID (r : Ref)                        (* a SagaTransactionID value *)
| TProcessID (p : ProcessID)
| MessageExit (Pid : Pid) (Reason : string)
| MessageDown (Ref : Ref) (ProcessID : ProcessID) (Pid : Pid) (Reason : string)
| messageSagaJobResult (pid : Pid) (result : Term)
| messageSagaJobInterim (pid : Pid) (interim : Term)
| sagaSetMaxTransactions (max : Z).

(** Modelled from the spec: [Tuple.Element(i)] is taken to index the
    tuple from 1; [None] stands for Go's index-out-of-range panic. *)
Definition Element (i : nat) (t : list Term) : option Term :=
  match i with
  | O => None
  | S j => t !! j
  end.

End etf.
Export etf.

(** ** Machine integers (64-bit [int], [uint], [int64]) *)

Definition two63 : Z := 2 ^ 63.
Definition two64 : Z := 2 ^ 64.

(** The value of an [int64] (or [int]) holding the mathematical [z]. *)
Definition wrap_int64 (z : Z) : Z := (z + two63) mod two64 - two63.
(** The value of a [uint] holding the mathematical [z]. *)
Definition wrap_uint (z : Z) : Z := z mod two64.

(** ** Errors and statuses

    [ServerStatus] and [SagaStatus] are both Go's [error]; a [switch]
    compares the interface values, so two package variables made by
    separate [fmt.Errorf("stop")] calls are different statuses. *)

Inductive error :=
| ErrUnsupportedRequest            (* types.go *)
| ErrServerTerminated              (* types.go *)
| ServerStatusStop                 (* server.go *)
| ServerStatusIgnore               (* server.go *)
| SagaStatusStop                   (* saga.go *)
| sagaStatusUnsupported            (* saga.go *)
| Errorf (msg : string).           (* any other error value *)

(** [nil] is [None]: [ServerStatusOK] and [SagaStatusOK]. *)
Abbreviation status := (option error).
Abbreviation StatusOK := (@None error).

#[global] Instance error_eq_dec : EqDecision error.
Proof. solve_decision. Defined.

Definition Error (e : error) : string :=
  match e with
  | ErrUnsupportedRequest => "Unsupported request"
  | ErrServerTerminated => "Server terminated"
  | ServerStatusStop => "stop"
  | ServerStatusIgnore => "ignore"
  | SagaStatusStop => "stop"
  | sagaStatusUnsupported => "unsupported"
  | Errorf msg => msg
  end.

(** ** The process a behavior runs on (types.go) *)

(** Modelled from the spec: the implementation of the [Process] interface
    is not among the sources. types.go documents "SetTrapExit
    enables/disables the trap on terminate process" and "TrapExit returns
    whether the trap was enabled on this process"; the flag lives in the
    process, which every copy of a [ProcessState] points to. *)
Record Process := MkProcess { Self : Pid; trap : bool }.

Definition SetTrapExit (t : bool) (p : Process) : Process :=
  {| Self := Self p; trap := t |}.
Definition TrapExit (p : Process) : bool := trap p.

Record ProcessMailboxMessage := { mb_From : Pid; mb_Message : Term }.
Record ProcessGracefulExitRequest := { ex_From : Pid; ex_Reason : string }.

(** ** The Server loop (server.go) *)

Module Server.

Record ServerFrom := { from_Pid : Pid; from_Ref : Ref; ReplyByAlias : bool }.

(** What the behavior's callbacks return; what they do to the process
    state is the business of the behavior (see [Saga] below). *)
Record ServerBehavior := {
  HandleCast : Term → status;
  HandleCall : ServerFrom → Term → Term * status;
  HandleDirect : Term → Term * status;
  HandleInfo : Term → status;
}.

Record ServerProcess := {
  process : Process;
  reductions : Z;                 (* uint64 *)
  currentFunction : string;
}.

(** What [select] received. *)
Inductive Event :=
| GracefulExit (ex : ProcessGracefulExitRequest)
| Stop (reason : string)
| Mailbox (msg : ProcessMailboxMessage)
| ContextDone
| Direct (message : Term).

(** The goroutines the loop starts; each takes [lockState] around its
    callback. *)
Inductive Task :=
| GenCall (m : list Term)
| GenCast (m : list Term)
| Info (message : Term).

Inductive Action :=
| Terminate (reason : string)             (* gsp.behavior.Terminate *)
| CallHandleDirect (message : Term)       (* gsp.behavior.HandleDirect *)
| DirectReply (message : Term) (err : status)
| PutSyncReply (ref : Ref) (t : Term)
| Go (t : Task)
| CallHandleCall (from : ServerFrom) (message : Term)
| CallHandleCast (message : Term)
| CallHandleInfo (message : Term)
| Send (to : Term) (message : Term)
| PushStop (reason : string).             (* stop <- reason *)

(** How one iteration ends. *)
Inductive Next :=
| Return (reason : string)
| Continue (gsp : ServerProcess)
| Panic.

Section loop.
Context (behavior : ServerBehavior).

(** The Server process [ProcessLoop] sets up before its loop, once the
    guard on the behavior has let it through (server.go 92-100); the
    guard itself is in [ProcessLoop_entry] below. *)
Definition ProcessLoop_start (ps : Process) : ServerProcess :=
  {| process := ps; reductions := 0; currentFunction := "Server:loop" |}.

(** The type switch on the selected message (server.go 159-351). *)
Definition dispatch (message : Term) : option (list Action) :=
  match message with
  | Tuple m =>
      match Element 1 m with
      | None => None
      | Some (Atom mtag) =>
          if decide (mtag = "$gen_call") then Some [Go (GenCall m)]
          else if decide (mtag = "$gen_cast") then Some [Go (GenCast m)]
          else Some [Go (Info message)]
      | Some (TRef ref) =>
          if decide (length m = 2%nat) then
            match Element 2 m with
            | Some t => Some [PutSyncReply ref t]
            | None => None
            end
          else Some [Go (Info message)]
      | Some _ => Some [Go (Info message)]
      end
  | _ => Some [Go (Info message)]
  end.

(** One iteration of the [for] loop of [ProcessLoop] (server.go
    104-352): the [select], then the dispatch of the message. *)
Definition ProcessLoop_step (gsp : ServerProcess) (ev : Event)
  : list Action * Next :=
  let received (message : Term) :=
    let gsp' := {| process := process gsp;
                   reductions := (reductions gsp + 1) mod two64;
                   currentFunction := currentFunction gsp |} in
    match dispatch message with
    | Some acts => (acts, Continue gsp')
    | None => ([], Panic)
    end in
  match ev with
  | GracefulExit ex =>
      if negb (TrapExit (process gsp)) then
        ([Terminate (ex_Reason ex)], Return (ex_Reason ex))
      else received (MessageExit (ex_From ex) (ex_Reason ex))
  | Stop reason => ([Terminate reason], Return reason)
  | Mailbox msg => received (mb_Message msg)
  | ContextDone => ([Terminate "kill"], Return "kill")
  | Direct message =>
      let '(reply, err) := HandleDirect behavior message in
      match err with
      | Some e => ([CallHandleDirect message; DirectReply Nil (Some e)],
                   Continue gsp)
      | None => ([CallHandleDirect message; DirectReply reply None],
                 Continue gsp)
      end
  end.

(** The loop over the events its [select] receives, in order; it is
    still running, [Continue], when the events run out before it
    returns. *)
Fixpoint ProcessLoop (gsp : ServerProcess) (evs : list Event)
  : list Action * Next :=
  match evs with
  | [] => ([], Continue gsp)
  | ev :: evs' =>
      match ProcessLoop_step gsp ev with
      | (acts, Continue gsp') =>
          let '(acts', r) := ProcessLoop gsp' evs' in (acts ++ acts', r)
      | (acts, r) => (acts, r)
      end
  end.

(** What a status does once the callback of a cast or info returned. *)
Definition after_status (s : status) : list Action :=
  match s with
  | None => []
  | Some ServerStatusIgnore => []
  | Some ServerStatusStop => [PushStop "normal"]
  | Some e => [PushStop (Error e)]
  end.

(** Reading the [from] of a "$gen_call" (server.go 172-215). *)
Definition parse_from (m : list Term) : option ServerFrom :=
  if decide (length m = 3%nat) then
    match Element 2 m with
    | Some (Tuple fromTuple) =>
        if decide (length fromTuple = 2%nat) then
          match Element 1 fromTuple, Element 2 fromTuple with
          | Some (TPid pid), Some (TRef v) =>
              Some {| from_Pid := pid; from_Ref := v; ReplyByAlias := false |}
          | Some (TPid pid), Some (List v) =>
              if decide (length v = 2%nat) then
                match Element 1 v, Element 2 v with
                | Some (Atom alias), Some (TRef r) =>
                    if decide (alias = "alias") then
                      Some {| from_Pid := pid; from_Ref := r;
                              ReplyByAlias := true |}
                    else None
                | _, _ => None
                end
              else None
          | _, _ => None
          end
        else None
    | _ => None
    end
  else None.

(** The body of a goroutine (server.go 168-252, 255-274, 277-295). *)
Definition run_task (t : Task) : list Action :=
  match t with
  | GenCall m =>
      match parse_from m, Element 3 m with
      | Some from, Some payload =>
          let '(reply, s) := HandleCall behavior from payload in
          CallHandleCall from payload ::
          match s with
          | None =>
              let fromTag := if ReplyByAlias from
                             then ListImproper [Atom "alias"; TRef (from_Ref from)]
                             else TRef (from_Ref from) in
              let to := if ReplyByAlias from
                        then Alias (from_Ref from)
                        else TPid (from_Pid from) in
              match reply with
              | Nil => [Send to (Tuple [fromTag; Atom "nil"])]
              | _ => [Send to (Tuple [fromTag; reply])]
              end
          | Some ServerStatusIgnore => []
          | Some ServerStatusStop => [PushStop "normal"]
          | Some e => [PushStop (Error e)]
          end
      | _, _ => []
      end
  | GenCast m =>
      match Element 2 m with
      | Some payload =>
          CallHandleCast payload :: after_status (HandleCast behavior payload)
      | None => [PushStop "panic"]      (* recovered by panicHandler *)
      end
  | Info message =>
      CallHandleInfo message :: after_status (HandleInfo behavior message)
  end.

End loop.

(** [ProcessLoop] from its entry (server.go 87-353): the guard on the
    behavior (88-91), which returns at once and calls nothing, then the
    set-up and the loop. [None] is a process whose behavior is no
    [ServerBehavior]. *)
Definition ProcessLoop_entry (behavior : option ServerBehavior) (ps : Process)
    (evs : list Event) : list Action * Next :=
  match behavior with
  | None => ([], Return "ProcessLoop: not a ServerBehavior")
  | Some behavior => ProcessLoop behavior (ProcessLoop_start ps) evs
  end.

(** [ProcessInit] (server.go 69-85). [Init] is the [Init] of the
    behavior, with the process as it left it and the error it returned;
    [None] is a process whose behavior is no [ServerBehavior]. The result
    is the process state the node starts [ProcessLoop] on. *)
Definition ProcessInit (Init : option (Process → list Term → Process * status))
    (p : Process) (args : list Term) : option Process * status :=
  match Init with
  | None => (None, Some (Errorf "ProcessInit: not a ServerBehavior"))
  | Some Init =>
      match Init p args with
      | (_, Some err) => (None, Some err)
      | (p', None) => (Some p', None)
      end
  end.

End Server.

(** ** The select of the older GenServer loop (package ergo) *)

Module GenServer.

Inductive Selected :=
| Return (reason : string)
| Received (fromPid : Term) (message : Term)
| HandledDirect.

Inductive Event :=
| GracefulExit (reason : string)
| Stop (reason : string)
| MailBox (fromPid message : Term)
| ContextDone
| Direct.

(** The [select] of [GenServer.Loop]: the [Terminate] calls made and
    what the iteration goes on with. *)
Definition Loop_select (ev : Event) : list string * Selected :=
  match ev with
  | GracefulExit reason => ([reason], Return reason)
  | Stop reason => ([reason], Return reason)
  | MailBox fromPid message => ([], Received fromPid message)
  | ContextDone => ([], Return "kill")
  | Direct => ([], HandledDirect)
  end.

(** How the loop stands after the events it was given. *)
Inductive Outcome :=
| Returned (reason : string)
| Running
| Panicked.

(** Whether an iteration that received a message goes on to the next
    one. The sender is asserted to be a pid and, of a tuple, the first
    element is read, both in the loop itself, where no panic is
    recovered; the callbacks run in goroutines of their own, which call no
    [Terminate] (they put their reason on the stop channel). *)
Definition Loop_received (fromPid message : Term) : bool :=
  match fromPid with
  | TPid _ =>
      match message with
      | Tuple m =>
          match Element 1 m with
          | Some _ => true
          | None => false
          end
      | _ => true
      end
  | _ => false
  end.

(** The [for] loop of [GenServer.Loop] over the events its [select]
    receives, in order: the [Terminate] calls it made, and how it
    stands. *)
Fixpoint Loop (evs : list Event) : list string * Outcome :=
  match evs with
  | [] => ([], Running)
  | ev :: evs' =>
      match Loop_select ev with
      | (calls, Return reason) => (calls, Returned reason)
      | (calls, Received fromPid message) =>
          if Loop_received fromPid message then
            let '(calls', r) := Loop evs' in (calls ++ calls', r)
          else (calls, Panicked)
      | (calls, HandledDirect) =>
          let '(calls', r) := Loop evs' in (calls ++ calls', r)
      end
  end.

End GenServer.

(** ** The Saga (saga.go) *)

Module Saga.

(** [SagaTransactionID], [SagaStepID] and [SagaJobID] are all [etf.Ref]. *)
Abbreviation SagaTransactionID := Ref.
Abbreviation SagaStepID := Ref.
Abbreviation SagaJobID := Ref.

(** The zero value [etf.Ref{}]. *)
Definition zeroRef : Ref := MkRef 0 (0, 0, 0)%N.

Definition defaultHopLimit : Z := 65535.       (* math.MaxUint16 *)
Definition defaultLifespan : Z := 60.

Record SagaTransactionOptions := {
  HopLimit : Z;                                (* uint *)
  Lifespan : Z;                                (* uint *)
  TwoPhaseCommit : bool;
}.

(** An implementation of the [SagaWorkerBehavior] interface; the Saga
    only tests it against nil and hands it to [Spawn]. *)
Inductive SagaWorkerBehavior := worker (name : string).

Record SagaOptions := {
  MaxTransactions : Z;                         (* uint *)
  Worker : option SagaWorkerBehavior;
}.

Record SagaStep := {
  step_Saga : Term;
  step_Value : Term;
  step_Timeout : Z;
  step_done : bool;
}.

Record SagaTransaction := {
  tx_id : SagaTransactionID;
  tx_options : SagaTransactionOptions;
  tx_origin : SagaStepID;
  tx_monitor : Ref;
  tx_steps : gmap SagaStepID SagaStep;
  tx_jobs : gmap Pid bool;
  tx_arrival : Z;                              (* int64 *)
  tx_parents : list Pid;
}.

Record SagaJobOptions := { job_Timeout : Z }.

Record SagaJob := {
  job_ID : SagaJobID;
  job_TXID : SagaTransactionID;
  job_Value : Term;
  job_options : SagaJobOptions;
  job_saga : Pid;
  job_commit : bool;
  job_worker : Pid;
  job_done : bool;
}.

(** The state of a Saga process. [txs] and [steps] hold pointers to
    transaction objects: [heap] is the store they point into, a pointer is
    an index of it. The same object is reached from [txs] under its
    transaction id and from [steps] under each of its step ids, and stays
    reachable from [steps] after [SendResult] took it out of [txs].

    [jobs] is nil until Init makes it for a Saga with a worker; a nil map
    reads like the empty one, and the only write to it, in [StartJob], is
    behind the test of [Worker] that Init made it under. *)
Record SagaProcess := {
  self : Pid;
  options : SagaOptions;
  heap : list SagaTransaction;
  txs : gmap SagaTransactionID nat;
  steps : gmap SagaStepID nat;
  jobs : gmap Pid SagaJob;
}.

Record messageSaga := {
  Request : string;                            (* etf.Atom *)
  ms_Pid : Pid;
  Command : Term;
}.

Record messageSagaStep := {
  Origin : Ref;
  TransactionID : Ref;
  Value : Term;
  Parents : list Pid;
  Options : gmap string Term;
}.

Record messageSagaResult := {
  res_TransactionID : Ref;
  res_Origin : Ref;
  Result : Term;
}.

(** [etf.TermIntoStruct] at the three structs the Saga decodes into; the
    function belongs to package [etf], which is not among the sources, so
    the handlers take it as it comes. *)
Record Decoder := {
  into_messageSaga : Term → option messageSaga;
  into_messageSagaStep : Term → option messageSagaStep;
  into_messageSagaResult : Term → option messageSagaResult;
}.

(** A callback of [SagaBehavior], with the arguments it is invoked on. *)
Inductive Callback :=
| TxNew (id : SagaTransactionID) (value : Term)
| TxResult (id : SagaTransactionID) (from : SagaStepID) (result : Term)
| TxCancel (id : SagaTransactionID) (reason : string)
| TxDone (id : SagaTransactionID)
| TxInterim (id : SagaTransactionID) (from : SagaStepID) (interim : Term)
| JobResult (id : SagaJobID) (result : Term)
| JobInterim (id : SagaJobID) (interim : Term)
| JobFailed (id : SagaJobID) (reason : string)
| SagaCall (from : Server.ServerFrom) (message : Term)
| SagaCast (message : Term)
| SagaInfo (message : Term)
| SagaDirect (message : Term).

(** What a Saga does to the world outside its own state. *)
Inductive Effect :=
| Send (to : Term) (message : Term)
| Call (to : Term) (message : Term)
| CastJobStart (to : Pid) (job : SagaJob)
| MonitorProcess (process : Term)
| Spawn (behavior : SagaWorkerBehavior)
| Link (pid : Pid)
| Kill (worker : Pid)
| Invoke (cb : Callback).

(** The user's behavior: what each callback returns, given the Saga it is
    invoked on. What a callback does to the Saga it does through the API
    below, so those are steps of their own (see [exec]). *)
Record SagaBehavior := {
  HandleTxNew : SagaProcess → SagaTransactionID → Term → status;
  HandleTxResult : SagaProcess → SagaTransactionID → SagaStepID → Term → status;
  HandleTxCancel : SagaProcess → SagaTransactionID → string → status;
  HandleTxDone : SagaProcess → SagaTransactionID → status;
  HandleTxInterim : SagaProcess → SagaTransactionID → SagaStepID → Term → status;
  HandleJobResult : SagaProcess → SagaJobID → Term → status;
  HandleJobInterim : SagaProcess → SagaJobID → Term → status;
  HandleJobFailed : SagaProcess → SagaJobID → string → status;
  HandleSagaCall : SagaProcess → Server.ServerFrom → Term → Term * status;
  HandleSagaCast : SagaProcess → Term → status;
  HandleSagaInfo : SagaProcess → Term → status;
  HandleSagaDirect : SagaProcess → Term → Term * status;
}.

(** A result, or the panic of a nil-pointer dereference. *)
Inductive Res (A : Type) :=
| Ret (a : A)
| Panic.
Arguments Ret {A} a.
Arguments Panic {A}.

(** State, effects in order, result. *)
Abbreviation Out A := (SagaProcess * list Effect * Res A)%type.

(** *** Updates of the state *)

Definition set_heap (h : list SagaTransaction) (sp : SagaProcess) : SagaProcess :=
  {| self := self sp; options := options sp; heap := h;
     txs := txs sp; steps := steps sp; jobs := jobs sp |}.
Definition set_txs (m : gmap SagaTransactionID nat) (sp : SagaProcess) : SagaProcess :=
  {| self := self sp; options := options sp; heap := heap sp;
     txs := m; steps := steps sp; jobs := jobs sp |}.
Definition set_steps (m : gmap SagaStepID nat) (sp : SagaProcess) : SagaProcess :=
  {| self := self sp; options := options sp; heap := heap sp;
     txs := txs sp; steps := m; jobs := jobs sp |}.
Definition set_jobs (m : gmap Pid SagaJob) (sp : SagaProcess) : SagaProcess :=
  {| self := self sp; options := options sp; heap := heap sp;
     txs := txs sp; steps := steps sp; jobs := m |}.
Definition set_options (o : SagaOptions) (sp : SagaProcess) : SagaProcess :=
  {| self := self sp; options := o; heap := heap sp;
     txs := txs sp; steps := steps sp; jobs := jobs sp |}.

Definition set_tx_steps (m : gmap SagaStepID SagaStep) (tx : SagaTransaction)
  : SagaTransaction :=
  {| tx_id := tx_id tx; tx_options := tx_options tx; tx_origin := tx_origin tx;
     tx_monitor := tx_monitor tx; tx_steps := m; tx_jobs := tx_jobs tx;
     tx_arrival := tx_arrival tx; tx_parents := tx_parents tx |}.
Definition set_tx_jobs (m : gmap Pid bool) (tx : SagaTransaction)
  : SagaTransaction :=
  {| tx_id := tx_id tx; tx_options := tx_options tx; tx_origin := tx_origin tx;
     tx_monitor := tx_monitor tx; tx_steps := tx_steps tx; tx_jobs := m;
     tx_arrival := tx_arrival tx; tx_parents := tx_parents tx |}.
Definition set_tx_monitor (r : Ref) (tx : SagaTransaction) : SagaTransaction :=
  {| tx_id := tx_id tx; tx_options := tx_options tx; tx_origin := tx_origin tx;
     tx_monitor := r; tx_steps := tx_steps tx; tx_jobs := tx_jobs tx;
     tx_arrival := tx_arrival tx; tx_parents := tx_parents tx |}.
Definition set_step_done (d : bool) (s : SagaStep) : SagaStep :=
  {| step_Saga := step_Saga s; step_Value := step_Value s;
     step_Timeout := step_Timeout s; step_done := d |}.
Definition set_job_done (d : bool) (j : SagaJob) : SagaJob :=
  {| job_ID := job_ID j; job_TXID := job_TXID j; job_Value := job_Value j;
     job_options := job_options j; job_saga := job_saga j;
     job_commit := job_commit j; job_worker := job_worker j; job_done := d |}.

(** [&SagaTransaction{...}]: a new object, and the pointer to it. *)
Definition alloc (tx : SagaTransaction) (sp : SagaProcess) : SagaProcess * nat :=
  (set_heap (heap sp ++ [tx]) sp, length (heap sp)).

(** [len(m)] of a map, as an [int]. *)
Definition len `{Countable K} {V} (m : gmap K V) : Z := Z.of_nat (size m).

(** *** SagaProcess methods *)

(** The "$saga_cancel" tuple the admission gates reply with. *)
Definition cancel_reply (sp : SagaProcess) (m : messageSagaStep) (reason : string)
  : Term :=
  Tuple [Atom "$saga_cancel"; TPid (self sp);
         Tuple [TRef (Origin m); TRef (TransactionID m); Str reason]].

(** The "$saga_cancel" tuple [CancelTransaction] posts. *)
Definition cancel_post (sp : SagaProcess) (tx : SagaTransaction) (reason : string)
  : Term :=
  Tuple [Atom "$saga_cancel"; TPid (self sp);
         Tuple [TxID (tx_id tx); TRef (tx_origin tx); Str reason]].

Definition CancelTransaction (id : SagaTransactionID) (reason : string)
    (sp : SagaProcess) : Out unit :=
  match txs sp !! id with
  | None => (sp, [], Ret ())
  | Some p =>
      match heap sp !! p with
      | None => (sp, [], Panic)
      | Some tx =>
          (sp, [Send (TPid (self sp)) (cancel_post sp tx reason)], Ret ())
      end
  end.

(** [int64(tx.options.Lifespan) - (time.Now().Unix() - tx.arrival)]. *)
Definition step_Lifespan (now : Z) (tx : SagaTransaction) : Z :=
  wrap_int64 (wrap_int64 (Lifespan (tx_options tx))
              - wrap_int64 (now - tx_arrival tx)).

Definition saga_next (sp : SagaProcess) (ref : Ref) (tx : SagaTransaction)
    (step : SagaStep) (lifespan : Z) : Term :=
  Tuple [Atom "$saga_next"; TPid (self sp);
         Tuple [TRef ref; TRef (tx_id tx); step_Value step;
                Pids (tx_parents tx);
                Map [("HopLimit", Uint (HopLimit (tx_options tx)));
                     ("Lifespan", Int64 lifespan);
                     ("TwoPhaseCommit", Bool (TwoPhaseCommit (tx_options tx)))]]].

(** [Next]; [now] is what [time.Now().Unix()] reads and [ref] the
    reference [MonitorProcess] returns. *)
Definition Next (now : Z) (ref : Ref) (id : SagaTransactionID) (step : SagaStep)
    (sp : SagaProcess) : Out (SagaStepID * status) :=
  match txs sp !! id with
  | None => (sp, [], Ret (zeroRef, Some (Errorf "unknown transaction")))
  | Some p =>
      match heap sp !! p with
      | None => (sp, [], Panic)
      | Some tx =>
          if len (tx_steps tx) >? wrap_int64 (HopLimit (tx_options tx)) then
            (sp, [], Ret (zeroRef, Some (Errorf "exceeded hop limit")))
          else if step_Lifespan now tx <? 1 then
            match CancelTransaction id "exceeded lifespan" sp with
            | (sp', eff, Ret _) =>
                (sp', eff,
                 Ret (zeroRef,
                      Some (Errorf "exceeded lifespan. transaction canceled")))
            | (sp', eff, Panic) => (sp', eff, Panic)
            end
          else
            let message := saga_next sp ref tx step (step_Lifespan now tx) in
            let tx' := set_tx_steps (<[ref := step]> (tx_steps tx)) tx in
            (set_steps (<[ref := p]> (steps sp))
               (set_heap (<[p := tx']> (heap sp)) sp),
             [MonitorProcess (step_Saga step); Send (step_Saga step) message],
             Ret (ref, None))
      end
  end.

(** [StartTransaction]; [id] is the reference [MakeRef] returns, [now]
    the clock at the creation, [now'] and [ref] what [Next] reads. *)
Definition StartTransaction (id : Ref) (now now' : Z) (ref : Ref)
    (name : string) (opts : SagaTransactionOptions) (value : Term)
    (sp : SagaProcess) : Out SagaTransactionID :=
  let opts1 :=
    {| HopLimit := if decide (HopLimit opts = 0) then defaultHopLimit
                   else HopLimit opts;
       Lifespan := if decide (Lifespan opts = 0) then defaultLifespan
                   else Lifespan opts;
       TwoPhaseCommit := TwoPhaseCommit opts |} in
  let tx := {| tx_id := id; tx_options := opts1; tx_origin := zeroRef;
               tx_monitor := zeroRef; tx_steps := ∅; tx_jobs := ∅;
               tx_arrival := now; tx_parents := [] |} in
  let '(sp1, p) := alloc tx sp in
  let sp2 := set_txs (<[id := p]> (txs sp1)) sp1 in
  let step := {| step_Saga := TPid (self sp); step_Value := value;
                 step_Timeout := 0; step_done := false |} in
  match Next now' ref id step sp2 with
  | (sp3, eff, Ret _) => (sp3, eff, Ret id)
  | (sp3, eff, Panic) => (sp3, eff, Panic)
  end.

(** [StartJob]; [spawned] is what [Spawn] returns (the worker's pid or
    an error), [ref] the reference [MakeRef] returns and [cast] the error
    of the [Cast] to the worker. *)
Definition StartJob (spawned : Pid + error) (ref : Ref) (cast : status)
    (id : SagaTransactionID) (opts : SagaJobOptions) (value : Term)
    (sp : SagaProcess) : Out (SagaJobID * status) :=
  match Worker (options sp) with
  | None => (sp, [], Ret (zeroRef, Some (Errorf "This saga has no worker")))
  | Some w =>
      match txs sp !! id with
      | None => (sp, [], Ret (zeroRef, Some (Errorf "unknown transaction")))
      | Some p =>
          match spawned with
          | inr err => (sp, [Spawn w], Ret (zeroRef, Some err))
          | inl pid =>
              match heap sp !! p with
              | None => (sp, [Spawn w; Link pid], Panic)
              | Some tx =>
                  let job :=
                    {| job_ID := ref; job_TXID := id; job_Value := value;
                       job_options := {| job_Timeout := 0 |};
                       job_saga := self sp;
                       job_commit := TwoPhaseCommit (tx_options tx);
                       job_worker := pid; job_done := false |} in
                  match cast with
                  | Some err =>
                      (sp, [Spawn w; Link pid; CastJobStart pid job; Kill pid],
                       Ret (zeroRef, Some err))
                  | None =>
                      let tx' := set_tx_jobs (<[pid := true]> (tx_jobs tx)) tx in
                      (set_heap (<[p := tx']> (heap sp))
                         (set_jobs (<[pid := job]> (jobs sp)) sp),
                       [Spawn w; Link pid; CastJobStart pid job],
                       Ret (ref, None))
                  end
              end
          end
      end
  end.

Definition CancelJob (job : SagaJobID) (sp : SagaProcess) : Out status :=
  (sp, [], Ret None).

Definition saga_reply (tag : string) (sp : SagaProcess) (tx : SagaTransaction)
    (value : Term) : Term :=
  Tuple [Atom tag; TPid (self sp);
         Tuple [TRef (tx_id tx); TRef (tx_origin tx); value]].

(** [SendResult]; [called] is the error of the [Call] to the parent. *)
Definition SendResult (called : status) (id : SagaTransactionID) (result : Term)
    (sp : SagaProcess) : Out status :=
  match txs sp !! id with
  | None => (sp, [], Ret (Some (Errorf "unknown transaction")))
  | Some p =>
      match heap sp !! p with
      | None => (sp, [], Panic)
      | Some tx =>
          match tx_parents tx with
          | [] => (sp, [], Ret (Some (Errorf "no parent saga")))
          | parent :: _ =>
              let message := saga_reply "$saga_result" sp tx result in
              match called with
              | Some err => (sp, [Call (TPid parent) message], Ret (Some err))
              | None =>
                  (* do not remove if 2PC is enabled *)
                  if TwoPhaseCommit (tx_options tx) then
                    (sp, [Call (TPid parent) message], Ret None)
                  else
                    (set_txs (delete id (txs sp)) sp,
                     [Call (TPid parent) message], Ret None)
              end
          end
      end
  end.

Definition SendInterim (called : status) (id : SagaTransactionID) (interim : Term)
    (sp : SagaProcess) : Out status :=
  match txs sp !! id with
  | None => (sp, [], Ret (Some (Errorf "unknown transaction")))
  | Some p =>
      match heap sp !! p with
      | None => (sp, [], Panic)
      | Some tx =>
          match tx_parents tx with
          | [] => (sp, [], Ret (Some (Errorf "no parent saga")))
          | parent :: _ =>
              let message := saga_reply "$saga_interim" sp tx interim in
              match called with
              | Some err => (sp, [Call (TPid parent) message], Ret (Some err))
              | None => (sp, [Call (TPid parent) message], Ret None)
              end
          end
      end
  end.

(** The second loop of [checkTxDone]: the jobs of the workers, in the
    order the first [range] listed them. *)
Fixpoint jobs_done (sp : SagaProcess) (pids : list Pid) : Res bool :=
  match pids with
  | [] => Ret true
  | pid :: pids' =>
      match jobs sp !! pid with
      | None => Panic
      | Some job => if job_done job then jobs_done sp pids' else Ret false
      end
  end.

(** [checkTxDone], the completion predicate. Go ranges over a map in no
    fixed order: [map_to_list] stands for the order it took, which shows
    only in whether a missing job is met before an unfinished one. *)
Definition checkTxDone (sp : SagaProcess) (tx : SagaTransaction) : Res bool :=
  if negb (TwoPhaseCommit (tx_options tx)) then
    if len (tx_steps tx) >? 0 then Ret false
    else if len (tx_jobs tx) >? 0 then Ret false
    else Ret true
  else if negb (forallb (λ kv, step_done kv.2) (map_to_list (tx_steps tx)))
  then Ret false
  else if decide (len (tx_jobs tx) = 0) then Ret true
  else jobs_done sp ((map_to_list (tx_jobs tx)).*1).

(** [len(tx.parents) > 0]. *)
Definition len_parents_pos (tx : SagaTransaction) : bool :=
  Z.of_nat (length (tx_parents tx)) >? 0.

(** The options a "$saga_next" carries, over the defaults. *)
Definition txOptions_of (opts : gmap string Term) : SagaTransactionOptions :=
  {| HopLimit := match opts !! "HopLimit" with
                 | Some (Int64 hoplimit) => wrap_uint hoplimit
                 | _ => defaultHopLimit
                 end;
     Lifespan := match opts !! "Lifespan" with
                 | Some (Int64 lifespan) => wrap_uint lifespan
                 | _ => defaultLifespan
                 end;
     TwoPhaseCommit := match opts !! "TwoPhaseCommit" with
                       | Some (Bool b) => b
                       | _ => false
                       end |}.

Section handlers.
Context (etf_decode : Decoder) (behavior : SagaBehavior).

(** [handleSagaRequest]; [now] is what [time.Now().Unix()] reads and
    [ref] the reference [MonitorProcess] returns. *)
Definition handleSagaRequest (now : Z) (ref : Ref) (m : messageSaga)
    (sp : SagaProcess) : Out status :=
  if decide (Request m = "$saga_next") then
    match into_messageSagaStep etf_decode (Command m) with
    | None => (sp, [], Ret (Some ErrUnsupportedRequest))
    | Some stepMessage =>
        (* Check if exceed the number of transaction on this saga *)
        if (MaxTransactions (options sp) >? 0)
           && (len (txs sp) + 1 >? wrap_int64 (MaxTransactions (options sp)))
        then
          (sp, [Send (TPid (ms_Pid m))
                     (cancel_reply sp stepMessage "exceed_tx_limit")],
           Ret None)
        else
          (* Check for the loop *)
          let transactionID := TransactionID stepMessage in
          match txs sp !! transactionID with
          | None =>
              (* came from remote saga *)
              let tx :=
                {| tx_id := transactionID;
                   tx_options := txOptions_of (Options stepMessage);
                   tx_origin := Origin stepMessage;
                   tx_monitor := ref;
                   tx_steps := ∅; tx_jobs := ∅; tx_arrival := 0;
                   tx_parents := ms_Pid m :: Parents stepMessage |} in
              let '(sp1, p) := alloc tx sp in
              let sp2 := set_txs (<[transactionID := p]> (txs sp1)) sp1 in
              (sp2,
               [MonitorProcess (TPid (ms_Pid m));
                Invoke (TxNew transactionID (Value stepMessage))],
               Ret (HandleTxNew behavior sp2 transactionID (Value stepMessage)))
          | Some p =>
              match heap sp !! p with
              | None => (sp, [], Panic)
              | Some tx =>
                  if len_parents_pos tx then
                    (sp, [Send (TPid (ms_Pid m))
                               (cancel_reply sp stepMessage "loop_detected")],
                     Ret None)
                  else
                    (* the transaction object made here is stored nowhere *)
                    (sp,
                     [MonitorProcess (TPid (ms_Pid m));
                      Invoke (TxNew transactionID (Value stepMessage))],
                     Ret (HandleTxNew behavior sp transactionID
                            (Value stepMessage)))
              end
          end
    end
  else if decide (Request m = "$saga_result") then
    match into_messageSagaResult etf_decode (Command m) with
    | None => (sp, [], Ret (Some ErrUnsupportedRequest))
    | Some result =>
        let step_id := res_Origin result in
        match steps sp !! step_id with
        | None => (sp, [], Ret None)          (* ignore unknown result *)
        | Some p =>
            let sp1 := set_steps (delete step_id (steps sp)) sp in
            match heap sp !! p with
            | None => (sp1, [], Panic)
            | Some tx =>
                if decide (tx_id tx ≠ res_TransactionID result) then
                  (sp1, [],
                   Ret (Some (Errorf "transaction id mismatch in saga result")))
                else if negb (TwoPhaseCommit (tx_options tx)) then
                  let tx' := set_tx_steps (delete step_id (tx_steps tx)) tx in
                  let sp2 := set_heap (<[p := tx']> (heap sp1)) sp1 in
                  (sp2, [Invoke (TxResult (tx_id tx) step_id (Result result))],
                   Ret None)
                else
                  match tx_steps tx !! step_id with
                  | None => (sp1, [], Panic)
                  | Some step =>
                      let tx' :=
                        set_tx_steps
                          (<[step_id := set_step_done true step]> (tx_steps tx))
                          tx in
                      let sp2 := set_heap (<[p := tx']> (heap sp1)) sp1 in
                      (sp2,
                       [Invoke (TxResult (tx_id tx) step_id (Result result))],
                       Ret None)
                  end
            end
        end
    end
  else if decide (Request m = "$saga_interim") then
    match into_messageSagaResult etf_decode (Command m) with
    | None => (sp, [], Ret (Some ErrUnsupportedRequest))
    | Some result =>
        let step_id := res_Origin result in
        match steps sp !! step_id with
        | None => (sp, [], Ret None)          (* ignore unknown result *)
        | Some p =>
            match heap sp !! p with
            | None => (sp, [], Panic)
            | Some tx =>
                (sp, [Invoke (TxInterim (tx_id tx) step_id (Result result))],
                 Ret None)
            end
        end
    end
  else (sp, [], Ret (Some sagaStatusUnsupported)).

Definition handleSagaExit (Pid : Pid) (Reason : string) (sp : SagaProcess)
  : Out status :=
  match jobs sp !! Pid with
  | None =>
      (* must be already handled as finished and was removed from there *)
      (sp, [], Ret None)
  | Some job =>
      if decide (Reason ≠ "normal") then
        (sp, [Invoke (JobFailed (job_ID job) Reason)],
         Ret (HandleJobFailed behavior sp (job_ID job) Reason))
      else
        (sp, [Invoke (JobFailed (job_ID job) "no result")],
         Ret (HandleJobFailed behavior sp (job_ID job) "no result"))
  end.

Definition handleSagaDown (sp : SagaProcess) : Out status := (sp, [], Ret None).

(** *** Server callbacks *)

(** The [switch status] that ends [HandleCall]. *)
Definition call_status (s : status) : status :=
  match s with
  | None => None
  | Some SagaStatusStop => Some ServerStatusStop
  | Some e => Some e
  end.

Definition HandleCall (now : Z) (ref : Ref) (from : Server.ServerFrom)
    (message : Term) (sp : SagaProcess) : Out (Term * status) :=
  match message with
  | messageSagaJobResult pid result =>
      match jobs sp !! pid with
      | None => (sp, [], Ret (Nil, None))
      | Some job =>
          match txs sp !! job_TXID job with
          | None =>
              (* might be already canceled. just ignore it *)
              (set_jobs (delete pid (jobs sp)) sp, [], Ret (Nil, None))
          | Some p =>
              match heap sp !! p with
              | None => (sp, [], Panic)
              | Some tx =>
                  let sp1 :=
                    if negb (TwoPhaseCommit (tx_options tx)) then
                      let tx' := set_tx_jobs (delete pid (tx_jobs tx)) tx in
                      set_heap (<[p := tx']> (heap sp))
                        (set_jobs (delete pid (jobs sp)) sp)
                    else
                      set_jobs (<[pid := set_job_done true job]> (jobs sp)) sp in
                  (sp1, [Invoke (JobResult (job_ID job) result)],
                   Ret (Nil,
                        call_status
                          (HandleJobResult behavior sp1 (job_ID job) result)))
              end
          end
      end
  | messageSagaJobInterim pid interim =>
      match jobs sp !! pid with
      | None => (sp, [], Ret (Nil, None))
      | Some job =>
          (sp, [Invoke (JobInterim (job_ID job) interim)],
           Ret (Nil,
                call_status (HandleJobInterim behavior sp (job_ID job) interim)))
      end
  | _ =>
      match into_messageSaga etf_decode message with
      | Some mSaga =>
          (* handle Interim and Result messages comes from the "next" sagas *)
          match handleSagaRequest now ref mSaga sp with
          | (sp', eff, Ret s) => (sp', eff, Ret (Nil, call_status s))
          | (sp', eff, Panic) => (sp', eff, Panic)
          end
      | None =>
          let '(value, s) := HandleSagaCall behavior sp from message in
          (sp, [Invoke (SagaCall from message)], Ret (value, call_status s))
      end
  end.

Definition HandleDirect (message : Term) (sp : SagaProcess)
  : Out (Term * status) :=
  match message with
  | sagaSetMaxTransactions max =>
      (set_options {| MaxTransactions := max;
                      Worker := Worker (options sp) |} sp,
       [], Ret (Nil, None))
  | _ =>
      (sp, [Invoke (SagaDirect message)],
       Ret (HandleSagaDirect behavior sp message))
  end.

Definition HandleCast (message : Term) (sp : SagaProcess) : Out status :=
  (sp, [Invoke (SagaCast message)], Ret (HandleSagaCast behavior sp message)).

Definition HandleInfo (now : Z) (ref : Ref) (message : Term) (sp : SagaProcess)
  : Out status :=
  match message with
  | MessageExit Pid Reason =>
      (* handle worker exit message *)
      handleSagaExit Pid Reason sp
  | MessageDown _ _ _ _ =>
      (* handle saga's down message *)
      handleSagaDown sp
  | _ =>
      match into_messageSaga etf_decode message with
      | None =>
          (sp, [Invoke (SagaInfo message)],
           Ret (HandleSagaInfo behavior sp message))
      | Some mSaga =>
          match handleSagaRequest now ref mSaga sp with
          | (sp', eff, Ret None) => (sp', eff, Ret None)
          | (sp', eff, Ret (Some SagaStatusStop)) =>
              (sp', eff, Ret (Some ServerStatusStop))
          | (sp', eff, Ret (Some sagaStatusUnsupported)) =>
              (sp', eff ++ [Invoke (SagaInfo message)],
               Ret (HandleSagaInfo behavior sp' message))
          | (sp', eff, Ret (Some e)) => (sp', eff, Ret (Some e))
          | (sp', eff, Panic) => (sp', eff, Panic)
          end
      end
  end.

End handlers.

(** [Init]. [InitSaga] is the user's: it is given the new Saga and,
    through it, the process; it hands back both as it left them, with the
    options and the error it returns. [None] for the behavior is a
    process whose behavior is not a [SagaBehavior]. *)
Definition InitSaga_t : Type :=
  SagaProcess → Process → list Term → SagaProcess * Process * (SagaOptions * status).

Definition Init (InitSaga : option InitSaga_t) (process : Process)
    (args : list Term) : Process * option SagaProcess * status :=
  match InitSaga with
  | None => (process, None, Some (Errorf "Saga: not a SagaBehavior"))
  | Some InitSaga =>
      let sagaProcess :=
        {| self := Self process;
           options := {| MaxTransactions := 0; Worker := None |};
           heap := []; txs := ∅; steps := ∅; jobs := ∅ |} in
      match InitSaga sagaProcess process args with
      | (sagaProcess1, process1, (_, Some err)) => (process1, None, Some err)
      | (sagaProcess1, process1, (opts, None)) =>
          let sagaProcess2 := set_options opts sagaProcess1 in
          let sagaProcess3 :=
            match Worker opts with
            | Some _ => set_jobs ∅ sagaProcess2
            | None => sagaProcess2
            end in
          (SetTrapExit true process1, Some sagaProcess3, None)
      end
  end.

(** *** The steps of a Saga

    Everything that runs on a Saga's state: the API its callbacks call and
    the Server callbacks the loop calls, each with what the runtime
    answered. *)
Inductive Op :=
| OpStartTransaction (id : Ref) (now now' : Z) (ref : Ref) (name : string)
    (opts : SagaTransactionOptions) (value : Term)
| OpCancelTransaction (id : SagaTransactionID) (reason : string)
| OpNext (now : Z) (ref : Ref) (id : SagaTransactionID) (step : SagaStep)
| OpStartJob (spawned : Pid + error) (ref : Ref) (cast : status)
    (id : SagaTransactionID) (opts : SagaJobOptions) (value : Term)
| OpCancelJob (job : SagaJobID)
| OpSendResult (called : status) (id : SagaTransactionID) (result : Term)
| OpSendInterim (called : status) (id : SagaTransactionID) (interim : Term)
| OpHandleCall (now : Z) (ref : Ref) (from : Server.ServerFrom) (message : Term)
| OpHandleDirect (message : Term)
| OpHandleCast (message : Term)
| OpHandleInfo (now : Z) (ref : Ref) (message : Term).

Definition exec (etf_decode : Decoder) (behavior : SagaBehavior) (op : Op)
    (sp : SagaProcess) : SagaProcess * list Effect :=
  match op with
  | OpStartTransaction id now now' ref name opts value =>
      (StartTransaction id now now' ref name opts value sp).1
  | OpCancelTransaction id reason => (CancelTransaction id reason sp).1
  | OpNext now ref id step => (Next now ref id step sp).1
  | OpStartJob spawned ref cast id opts value =>
      (StartJob spawned ref cast id opts value sp).1
  | OpCancelJob job => (CancelJob job sp).1
  | OpSendResult called id result => (SendResult called id result sp).1
  | OpSendInterim called id interim => (SendInterim called id interim sp).1
  | OpHandleCall now ref from message =>
      (HandleCall etf_decode behavior now ref from message sp).1
  | OpHandleDirect message => (HandleDirect behavior message sp).1
  | OpHandleCast message => (HandleCast behavior message sp).1
  | OpHandleInfo now ref message =>
      (HandleInfo etf_decode behavior now ref message sp).1
  end.

(** A run: the steps taken one after the other. *)
Fixpoint run (etf_decode : Decoder) (behavior : SagaBehavior) (ops : list Op)
    (sp : SagaProcess) : SagaProcess :=
  match ops with
  | [] => sp
  | op :: ops' => run etf_decode behavior ops' (exec etf_decode behavior op sp).1
  end.

End Saga.


(** ** A Saga as the behavior of a Server

    The goroutines [ProcessLoop] starts for a message, with the Saga's
    callbacks in the place of [gsp.behavior]: what the callback does to
    the Saga, and what its status makes the goroutine do. A panic of the
    callback is recovered by [panicHandler], which puts "panic" on the
    stop channel (server.go 150-157). *)

Module SagaServer.

(** The [switch status] after [HandleCall] (server.go 224-251). *)
Definition call_reply (from : Server.ServerFrom) (reply : Term) (s : status)
  : list Server.Action :=
  match s with
  | None =>
      let fromTag := if Server.ReplyByAlias from
                     then ListImproper [Atom "alias"; TRef (Server.from_Ref from)]
                     else TRef (Server.from_Ref from) in
      let to := if Server.ReplyByAlias from
                then Alias (Server.from_Ref from)
                else TPid (Server.from_Pid from) in
      match reply with
      | Nil => [Server.Send to (Tuple [fromTag; Atom "nil"])]
      | _ => [Server.Send to (Tuple [fromTag; reply])]
      end
  | Some ServerStatusIgnore => []
  | Some ServerStatusStop => [Server.PushStop "normal"]
  | Some e => [Server.PushStop (Error e)]
  end.

Section tasks.
Context (etf_decode : Saga.Decoder) (behavior : Saga.SagaBehavior).

(** The goroutine of a message that is no call and no cast
    (server.go 277-295, 307-326, 331-350). *)
Definition info_task (now : Z) (ref : Ref) (message : Term)
    (sp : Saga.SagaProcess)
  : Saga.SagaProcess * list Saga.Effect * list Server.Action :=
  match Saga.HandleInfo etf_decode behavior now ref message sp with
  | (sp', eff, Saga.Ret s) => (sp', eff, Server.after_status s)
  | (sp', eff, Saga.Panic) => (sp', eff, [Server.PushStop "panic"])
  end.

(** The goroutine of a "$gen_call" whose [from] was read
    (server.go 217-251). *)
Definition call_task (now : Z) (ref : Ref) (from : Server.ServerFrom)
    (message : Term) (sp : Saga.SagaProcess)
  : Saga.SagaProcess * list Saga.Effect * list Server.Action :=
  match Saga.HandleCall etf_decode behavior now ref from message sp with
  | (sp', eff, Saga.Ret (reply, s)) => (sp', eff, call_reply from reply s)
  | (sp', eff, Saga.Panic) => (sp', eff, [Server.PushStop "panic"])
  end.

(** The goroutine of a "$gen_cast" (server.go 255-274). *)
Definition cast_task (message : Term) (sp : Saga.SagaProcess)
  : Saga.SagaProcess * list Saga.Effect * list Server.Action :=
  match Saga.HandleCast behavior message sp with
  | (sp', eff, Saga.Ret s) => (sp', eff, Server.after_status s)
  | (sp', eff, Saga.Panic) => (sp', eff, [Server.PushStop "panic"])
  end.

End tasks.

End SagaServer.

(** ** The earlier revision of the Saga (second part of saga.go)

    The file keeps, after the current code, the revision it grew from:
    transactions are stored by value under their name, and the admission
    of a "$saga_next" has four gates. The callbacks' results are
    discarded by this revision, so only their invocation is recorded. *)

Module SagaLegacy.

Record SagaTransactionOptions := {
  Name : string;
  HopLimit : Z;                                (* uint *)
  Lifespan : Z;                                (* uint *)
  TwoPhaseCommit : bool;
}.

Record SagaOptions := {
  MaxTransactions : Z;                         (* uint *)
  Worker : option Saga.SagaWorkerBehavior;
}.

(** The unexported [timer] and [next] of the struct are never read or
    written by this revision. *)
Record SagaTransaction := {
  tx_ID : string;
  tx_StartTime : Z;                            (* int64 *)
  tx_Options : SagaTransactionOptions;
  tx_Ref : Ref;
  tx_Parents : list Pid;
}.

Record SagaNext := {
  next_Next : Term;
  next_Value : Term;
  next_Timeout : Z;
}.

(** [state.Process.Self()], and the two fields the handlers use. *)
Record SagaProcess := {
  self : Pid;
  Options : SagaOptions;
  txs : gmap string SagaTransaction;
}.

Record sagaMessageNext := {
  next_Transaction : SagaTransaction;
  msg_Value : Term;
}.

Record sagaMessageResult := {
  res_Transaction : SagaTransaction;
  res_From : Pid;
  res_Result : Term;
}.

Record sagaMessageCancel := {
  cancel_Ref : Ref;
  cancel_ID : string;
  cancel_Reason : string;
}.

(** [etf.TermIntoStruct] at the three structs of this revision. *)
Record Decoder := {
  into_sagaMessageNext : Term → option sagaMessageNext;
  into_sagaMessageCancel : Term → option sagaMessageCancel;
  into_sagaMessageResult : Term → option sagaMessageResult;
}.

Inductive Effect :=
| Send (to : Pid) (message : Term)
| HandleCancel (tx : SagaTransaction) (reason : string)
| HandleInterim (tx : SagaTransaction) (next : SagaNext) (interim : Term)
| HandleResult (tx : SagaTransaction) (next : SagaNext) (result : Term).

Definition set_txs (m : gmap string SagaTransaction) (state : SagaProcess)
  : SagaProcess :=
  {| self := self state; Options := Options state; txs := m |}.

(** The "$saga_cancel" tuple the gates reply with. *)
Definition cancel (state : SagaProcess) (tx : SagaTransaction) (reason : string)
  : Term :=
  Tuple [Atom "$saga_cancel"; TPid (self state);
         Tuple [TRef (tx_Ref tx); Str (tx_ID tx); Str reason]].

(** [SagaNext{}]. *)
Definition zeroNext : SagaNext :=
  {| next_Next := Nil; next_Value := Nil; next_Timeout := 0 |}.

Section handlers.
Context (etf_decode : Decoder).

(** [handleSagaRequest] of the earlier revision; [now] is what
    [time.Now().Unix()] reads. *)
Definition handleSagaRequest (now : Z) (m : Saga.messageSaga)
    (state : SagaProcess) : SagaProcess * list Effect * status :=
  if decide (Saga.Request m = "$saga_next") then
    match into_sagaMessageNext etf_decode (Saga.Command m) with
    | None => (state, [], Some ErrUnsupportedRequest)
    | Some nextMessage =>
        let tx := next_Transaction nextMessage in
        (* Check for the loop *)
        match txs state !! tx_ID tx with
        | Some _ =>
            (state, [Send (Saga.ms_Pid m) (cancel state tx "loop_detected")], None)
        | None =>
            (* Check if exceed the number of transaction on this saga *)
            if Saga.len (txs state) + 1
               >? wrap_int64 (MaxTransactions (Options state)) then
              (state, [Send (Saga.ms_Pid m) (cancel state tx "exceed_max_limit")],
               None)
            else
              (* Check if exceed hop limit *)
              let hop := Z.of_nat (length (tx_Parents tx)) in
              let hoplimit := HopLimit (tx_Options tx) in
              if (hoplimit >? 0) && (hop + 1 >? wrap_int64 hoplimit) then
                (state,
                 [Send (Saga.ms_Pid m) (cancel state tx "exceed_hop_limit")],
                 None)
              else
                (* Check if lifespan is limited and transaction is too long *)
                let lifespan := Lifespan (tx_Options tx) in
                let l := wrap_int64 (now - tx_StartTime tx) in
                if (lifespan >? 0) && (l >? wrap_int64 lifespan) then
                  (state,
                   [Send (Saga.ms_Pid m) (cancel state tx "exceed_lifespan")],
                   None)
                else
                  (* everything looks good. go further *)
                  (set_txs (<[tx_ID tx := tx]> (txs state)) state, [], None)
        end
    end
  else if decide (Saga.Request m = "$saga_cancel") then
    match into_sagaMessageCancel etf_decode (Saga.Command m) with
    | None => (state, [], Some ErrUnsupportedRequest)
    | Some c =>
        match txs state !! cancel_ID c with
        | None => (state, [], None)
        | Some tx => (state, [HandleCancel tx (cancel_Reason c)], None)
        end
    end
  else if decide (Saga.Request m = "$saga_interim") then
    match into_sagaMessageResult etf_decode (Saga.Command m) with
    | None => (state, [], Some ErrUnsupportedRequest)
    | Some result =>
        (state,
         [HandleInterim (res_Transaction result) zeroNext (res_Result result)],
         None)
    end
  else if decide (Saga.Request m = "$saga_result") then
    match into_sagaMessageResult etf_decode (Saga.Command m) with
    | None => (state, [], Some ErrUnsupportedRequest)
    | Some result =>
        (state,
         [HandleResult (res_Transaction result) zeroNext (res_Result result)],
         None)
    end
  else (state, [], Some ErrUnsupportedRequest).

Definition HandleDirect (message : Term) (st : SagaProcess)
  : SagaProcess * (Term * status) :=
  match message with
  | sagaSetMaxTransactions max =>
      ({| self := self st;
          Options := {| MaxTransactions := max;
                        Worker := Worker (Options st) |};
          txs := txs st |}, (Nil, None))
  | _ => (st, (Nil, Some ErrUnsupportedRequest))
  end.

(** What reaches the state of a Saga of this revision. *)
Inductive Op :=
| OpRequest (now : Z) (m : Saga.messageSaga)
| OpDirect (message : Term).

Definition exec (op : Op) (state : SagaProcess) : SagaProcess :=
  match op with
  | OpRequest now m => (handleSagaRequest now m state).1.1
  | OpDirect message => (HandleDirect message state).1
  end.

Fixpoint run (ops : list Op) (state : SagaProcess) : SagaProcess :=
  match ops with
  | [] => state
  | op :: ops' => run ops' (exec op state)
  end.

End handlers.

End SagaLegacy.
(** * Notions the properties are stated with *)

(** The capacity gate of the admission lets the message through. *)
Definition capacity_ok (sp : Saga.SagaProcess) : Prop :=
  ¬ (Saga.MaxTransactions (Saga.options sp) > 0
     ∧ Saga.len (Saga.txs sp) + 1 > wrap_int64 (Saga.MaxTransactions (Saga.options sp))).


(** * Concrete Sagas

    Two nodes' worth of values to run the model on: Saga [pidA]
    originates transaction [refT] and sends it to Saga [pidB]. *)

Definition pidA : Pid := MkPid "a@localhost" 1 0 1.
Definition pidB : Pid := MkPid "b@localhost" 2 0 1.
Definition pidW : Pid := MkPid "b@localhost" 3 0 1.
Definition refT : Ref := MkRef 1 (1, 0, 0)%N.
Definition refS : Ref := MkRef 1 (2, 0, 0)%N.
Definition refS' : Ref := MkRef 1 (3, 0, 0)%N.
Definition refM : Ref := MkRef 1 (4, 0, 0)%N.
Definition refJ : Ref := MkRef 1 (5, 0, 0)%N.

(** Modelled from the spec: [etf.TermIntoStruct] is not among the
    sources; this one reads the wire tuples of the spec's section 4.3.1
    ("{saga_next, SenderPid, {StepRef, TxRef, Value, Parents,
    OptionsMap}}", "{saga_result, SenderPid, {TxRef, StepRef, Value}}")
    field by field into the structs of saga.go. *)
Definition decode : Saga.Decoder :=
  {| Saga.into_messageSaga t :=
       match t with
       | Tuple [Atom request; TPid pid; command] =>
           Some {| Saga.Request := request; Saga.ms_Pid := pid;
                   Saga.Command := command |}
       | _ => None
       end;
     Saga.into_messageSagaStep t :=
       match t with
       | Tuple [TRef origin; TRef txid; value; Pids parents; Map opts] =>
           Some {| Saga.Origin := origin; Saga.TransactionID := txid;
                   Saga.Value := value; Saga.Parents := parents;
                   Saga.Options := list_to_map opts |}
       | _ => None
       end;
     Saga.into_messageSagaResult t :=
       match t with
       | Tuple [TRef txid; TRef origin; value] =>
           Some {| Saga.res_TransactionID := txid; Saga.res_Origin := origin;
                   Saga.Result := value |}
       | _ => None
       end |}.

(** A behavior whose callbacks all return nil. *)
Definition quiet : Saga.SagaBehavior :=
  {| Saga.HandleTxNew _ _ _ := None;
     Saga.HandleTxResult _ _ _ _ := None;
     Saga.HandleTxCancel _ _ _ := None;
     Saga.HandleTxDone _ _ := None;
     Saga.HandleTxInterim _ _ _ _ := None;
     Saga.HandleJobResult _ _ _ := None;
     Saga.HandleJobInterim _ _ _ := None;
     Saga.HandleJobFailed _ _ _ := None;
     Saga.HandleSagaCall _ _ _ := (Atom "ok", None);
     Saga.HandleSagaCast _ _ := None;
     Saga.HandleSagaInfo _ _ := None;
     Saga.HandleSagaDirect _ _ := (Nil, None) |}.

(** [InitSaga] of a Saga with a worker and the given limit. *)
Definition initSaga (max : Z) : Saga.InitSaga_t :=
  λ sp process _,
    (sp, process,
     ({| Saga.MaxTransactions := max;
         Saga.Worker := Some (Saga.worker "worker") |}, None)).

(** The Saga [Init] makes on process [pid]. *)
Definition saga_of (pid : Pid) (max : Z) : Saga.SagaProcess :=
  match Saga.Init (Some (initSaga max)) (MkProcess pid false) [] with
  | (_, Some sp, _) => sp
  | (_, None, _) =>
      {| Saga.self := pid;
         Saga.options := {| Saga.MaxTransactions := 0; Saga.Worker := None |};
         Saga.heap := []; Saga.txs := ∅; Saga.steps := ∅; Saga.jobs := ∅ |}
  end.

Definition txOptions (hoplimit lifespan : Z) : Saga.SagaTransactionOptions :=
  {| Saga.HopLimit := hoplimit; Saga.Lifespan := lifespan;
     Saga.TwoPhaseCommit := false |}.

(** Saga A after [StartTransaction] at time 100: it holds [refT] with no
    parents and one step, to itself. *)
Definition sagaA : Saga.SagaProcess :=
  (Saga.StartTransaction refT 100 100 refS "t" (txOptions 2 60) (Str "x")
     (saga_of pidA 0)).1.1.

(** The "$saga_next" of [refT] as [sender] sends it under step [origin],
    after the given parents. *)
Definition next_message (sender : Pid) (origin : Ref) (parents : list Pid)
    (hoplimit : Z) : Term :=
  Tuple [Atom "$saga_next"; TPid sender;
         Tuple [TRef origin; TRef refT; Str "x"; Pids parents;
                Map [("HopLimit", Int64 hoplimit); ("Lifespan", Int64 60);
                     ("TwoPhaseCommit", Bool false)]]].

(** Saga B after it admitted [refT] from A. *)
Definition sagaB : Saga.SagaProcess :=
  Saga.run decode quiet
    [Saga.OpHandleInfo 100 refM (next_message pidA refS [] 2)] (saga_of pidB 0).

(** Saga B after it also started a job of [refT] on worker [pidW]. *)
Definition sagaBjob : Saga.SagaProcess :=
  Saga.run decode quiet
    [Saga.OpStartJob (inl pidW) refJ None refT {| Saga.job_Timeout := 0 |}
       (Str "work")] sagaB.

Definition jobW : Saga.SagaJob :=
  {| Saga.job_ID := refJ; Saga.job_TXID := refT; Saga.job_Value := Str "work";
     Saga.job_options := {| Saga.job_Timeout := 0 |}; Saga.job_saga := pidB;
     Saga.job_commit := false; Saga.job_worker := pidW;
     Saga.job_done := false |}.

(** The transaction objects of [sagaA] and [sagaB]. *)
Definition txA : Saga.SagaTransaction :=
  {| Saga.tx_id := refT; Saga.tx_options := txOptions 2 60;
     Saga.tx_origin := Saga.zeroRef; Saga.tx_monitor := Saga.zeroRef;
     Saga.tx_steps :=
       {[ refS := {| Saga.step_Saga := TPid pidA; Saga.step_Value := Str "x";
                     Saga.step_Timeout := 0; Saga.step_done := false |} ]};
     Saga.tx_jobs := ∅; Saga.tx_arrival := 100; Saga.tx_parents := [] |}.

Definition txB : Saga.SagaTransaction :=
  {| Saga.tx_id := refT; Saga.tx_options := txOptions 2 60;
     Saga.tx_origin := refS; Saga.tx_monitor := refM;
     Saga.tx_steps := ∅; Saga.tx_jobs := ∅; Saga.tx_arrival := 0;
     Saga.tx_parents := [pidA] |}.

Definition stepC : Saga.SagaStep :=
  {| Saga.step_Saga := TPid pidB; Saga.step_Value := Str "y";
     Saga.step_Timeout := 0; Saga.step_done := false |}.

(** A Server behavior whose callbacks all return nil. *)
Definition quietServer : Server.ServerBehavior :=
  {| Server.HandleCast _ := None;
     Server.HandleCall _ _ := (Atom "ok", None);
     Server.HandleDirect _ := (Atom "ok", None);
     Server.HandleInfo _ := None |}.

(** A message and a direct request, as the loop of process B may receive
    them before its context is cancelled. *)
Definition some_events : list Server.Event :=
  [Server.Mailbox {| mb_From := pidA; mb_Message := Atom "hello" |};
   Server.Direct (sagaSetMaxTransactions 3)].

Definition pidC : Pid := MkPid "c@localhost" 4 0 1.
Definition pidD : Pid := MkPid "d@localhost" 5 0 1.

(** An effect that reaches another process: anything but the call of a
    callback of the user. *)
Definition outward (e : Saga.Effect) : bool :=
  match e with
  | Saga.Invoke _ => false
  | _ => true
  end.

(** Saga D, on the chain A, B, C, D of a transaction with hop limit 2,
    receives the "$saga_next" of C: the incoming parents are [B; A]. *)
Definition admission_on_D : Saga.Out status :=
  Saga.HandleInfo decode quiet 100 refM
    (next_message pidC refS [pidB; pidA] 2) (saga_of pidD 0).

(** Saga B after it sent [refT] on to C under step [refS']. *)
Definition sagaBC : Saga.SagaProcess :=
  Saga.run decode quiet [Saga.OpNext 10 refS' refT stepC] sagaB.

(** The pointers of the two maps are sound: a transaction id leads to an
    object of the store, and a step id leads to an object that has that
    step among its steps (the spec's invariant "for every (step-id → tx)
    in the Saga step index, tx.steps contains step-id"). *)
Definition sound (h : list Saga.SagaTransaction) (t s : gmap Ref nat) : Prop :=
  (∀ id p, t !! id = Some p → is_Some (h !! p))
  ∧ (∀ st p, s !! st = Some p →
       ∃ tx, h !! p = Some tx ∧ is_Some (Saga.tx_steps tx !! st)).

Definition wf (sp : Saga.SagaProcess) : Prop :=
  sound (Saga.heap sp) (Saga.txs sp) (Saga.steps sp).

(** No transaction id of the first Saga is missing in the second. *)
Definition keeps_txs (sp sp' : Saga.SagaProcess) : Prop :=
  ∀ id, is_Some (Saga.txs sp !! id) → is_Some (Saga.txs sp' !! id).

(** The "$saga_result" C sends back to B for step [refS']. *)
Definition result_from_C : Saga.messageSaga :=
  {| Saga.Request := "$saga_result"; Saga.ms_Pid := pidC;
     Saga.Command := Tuple [TRef refT; TRef refS'; Str "y-ok"] |}.

(** An [InitSaga] that disables trap-exit on its process. *)
Definition initSaga_untrap : Saga.InitSaga_t :=
  λ sp process _,
    (sp, SetTrapExit false process,
     ({| Saga.MaxTransactions := 0; Saga.Worker := None |}, None)).

(** The "$saga_next" of C to D, as [HandleInfo] decodes it. *)
Definition next_from_C : Saga.messageSaga :=
  {| Saga.Request := "$saga_next"; Saga.ms_Pid := pidC;
     Saga.Command :=
       Tuple [TRef refS; TRef refT; Str "x"; Pids [pidB; pidA];
              Map [("HopLimit", Int64 2); ("Lifespan", Int64 60);
                   ("TwoPhaseCommit", Bool false)]] |}.

Definition step_from_C : Saga.messageSagaStep :=
  {| Saga.Origin := refS; Saga.TransactionID := refT;
     Saga.Value := Str "x"; Saga.Parents := [pidB; pidA];
     Saga.Options :=
       list_to_map [("HopLimit", Int64 2); ("Lifespan", Int64 60);
                    ("TwoPhaseCommit", Bool false)] |}.

(** Saga B with [refT] admitted under hop limit 0 and one step recorded
    for it: the steps outnumber the limit. *)
Definition txB0 : Saga.SagaTransaction :=
  {| Saga.tx_id := refT; Saga.tx_options := txOptions 0 60;
     Saga.tx_origin := refS; Saga.tx_monitor := refM;
     Saga.tx_steps := ∅; Saga.tx_jobs := ∅; Saga.tx_arrival := 0;
     Saga.tx_parents := [pidA] |}.

Definition sagaB_full : Saga.SagaProcess :=
  Saga.run decode quiet
    [Saga.OpHandleInfo 100 refM (next_message pidA refS [] 0);
     Saga.OpNext 10 refS' refT stepC] (saga_of pidB 0).

(** * More notions the properties are stated with *)

(** The action is a call of the behavior's [Terminate]. *)
Definition is_Terminate (a : Server.Action) : bool :=
  match a with
  | Server.Terminate _ => true
  | _ => false
  end.

(** No worker of the first Saga's job map is missing in the second. *)
Definition keeps_jobs (sp sp' : Saga.SagaProcess) : Prop :=
  ∀ pid, is_Some (Saga.jobs sp !! pid) → is_Some (Saga.jobs sp' !! pid).

(** Every transaction of the map is stored under its own id. *)
Definition keyed (h : list Saga.SagaTransaction) (t : gmap Ref nat) : Prop :=
  ∀ id p tx, t !! id = Some p → h !! p = Some tx → Saga.tx_id tx = id.

Definition keyed_sp (sp : Saga.SagaProcess) : Prop :=
  keyed (Saga.heap sp) (Saga.txs sp).

(** The decoder reads the tuples the Sagas send each other back field by
    field, the option map entry by entry, as the structs of saga.go name
    them. *)
Definition reads_back (D : Saga.Decoder) : Prop :=
  (∀ request pid command,
     Saga.into_messageSaga D (Tuple [Atom request; TPid pid; command])
     = Some {| Saga.Request := request; Saga.ms_Pid := pid;
               Saga.Command := command |})
  ∧ (∀ origin txid value parents opts,
       Saga.into_messageSagaStep D
         (Tuple [TRef origin; TRef txid; value; Pids parents; Map opts])
       = Some {| Saga.Origin := origin; Saga.TransactionID := txid;
                 Saga.Value := value; Saga.Parents := parents;
                 Saga.Options := list_to_map opts |})
  ∧ (∀ txid origin value,
       Saga.into_messageSagaResult D (Tuple [TRef txid; TRef origin; value])
       = Some {| Saga.res_TransactionID := txid; Saga.res_Origin := origin;
                 Saga.Result := value |}).

(** The [from] of a call the worker [pidW] makes. *)
Definition fromW : Server.ServerFrom :=
  {| Server.from_Pid := pidW; Server.from_Ref := refJ;
     Server.ReplyByAlias := false |}.

(** The step Saga B sends on to Saga C. *)
Definition stepToC : Saga.SagaStep :=
  {| Saga.step_Saga := TPid pidC; Saga.step_Value := Str "y";
     Saga.step_Timeout := 0; Saga.step_done := false |}.

(** The result is the panic of a nil dereference. *)
Definition is_Panic {A} (r : Saga.Res A) : bool :=
  match r with
  | Saga.Panic => true
  | Saga.Ret _ => false
  end.

(** The step panics on the Saga. *)
Definition panics (D : Saga.Decoder) (B : Saga.SagaBehavior) (op : Saga.Op)
    (sp : Saga.SagaProcess) : bool :=
  match op with
  | Saga.OpStartTransaction id now now' ref name opts value =>
      is_Panic (Saga.StartTransaction id now now' ref name opts value sp).2
  | Saga.OpCancelTransaction id reason =>
      is_Panic (Saga.CancelTransaction id reason sp).2
  | Saga.OpNext now ref id step => is_Panic (Saga.Next now ref id step sp).2
  | Saga.OpStartJob spawned ref cast id opts value =>
      is_Panic (Saga.StartJob spawned ref cast id opts value sp).2
  | Saga.OpCancelJob job => is_Panic (Saga.CancelJob job sp).2
  | Saga.OpSendResult called id result =>
      is_Panic (Saga.SendResult called id result sp).2
  | Saga.OpSendInterim called id interim =>
      is_Panic (Saga.SendInterim called id interim sp).2
  | Saga.OpHandleCall now ref from message =>
      is_Panic (Saga.HandleCall D B now ref from message sp).2
  | Saga.OpHandleDirect message => is_Panic (Saga.HandleDirect B message sp).2
  | Saga.OpHandleCast message => is_Panic (Saga.HandleCast B message sp).2
  | Saga.OpHandleInfo now ref message =>
      is_Panic (Saga.HandleInfo D B now ref message sp).2
  end.

(** The event makes the loop count a reduction: a mailbox message, or a
    graceful exit (which a loop that goes on has trapped). *)
Definition counted (ev : Server.Event) : bool :=
  match ev with
  | Server.Mailbox _ | Server.GracefulExit _ => true
  | _ => false
  end.

Definition is_Direct (ev : Server.Event) : bool :=
  match ev with
  | Server.Direct _ => true
  | _ => false
  end.

(** The tuple of a "$gen_call" that carries the given from. *)
Definition call_shape (from : Server.ServerFrom) (tag payload : Term)
  : list Term :=
  [tag;
   Tuple [TPid (Server.from_Pid from);
          if Server.ReplyByAlias from
          then List [Atom "alias"; TRef (Server.from_Ref from)]
          else TRef (Server.from_Ref from)];
   payload].

(** The transaction passes the hop-limit gate of the earlier revision. *)
Definition within_hop_limit (tx : SagaLegacy.SagaTransaction) : Prop :=
  SagaLegacy.HopLimit (SagaLegacy.tx_Options tx) ≤ 0
  ∨ Z.of_nat (length (SagaLegacy.tx_Parents tx)) + 1
    ≤ wrap_int64 (SagaLegacy.HopLimit (SagaLegacy.tx_Options tx)).

(** ** Concrete Sagas of the earlier revision *)

(** Modelled from the spec: [etf.TermIntoStruct] is not among the
    sources; this one reads a struct from a tuple field by field, in the
    order of the struct's exported fields, as for the wire tuples of the
    spec's section 4.3.1. *)
Definition decodeLegacy : SagaLegacy.Decoder :=
  let transaction t :=
    match t with
    | Tuple [Str id; Int64 start;
             Tuple [Str name; Uint hoplimit; Uint lifespan; Bool commit];
             TRef ref; Pids parents] =>
        Some {| SagaLegacy.tx_ID := id; SagaLegacy.tx_StartTime := start;
                SagaLegacy.tx_Options :=
                  {| SagaLegacy.Name := name; SagaLegacy.HopLimit := hoplimit;
                     SagaLegacy.Lifespan := lifespan;
                     SagaLegacy.TwoPhaseCommit := commit |};
                SagaLegacy.tx_Ref := ref; SagaLegacy.tx_Parents := parents |}
    | _ => None
    end in
  {| SagaLegacy.into_sagaMessageNext t :=
       match t with
       | Tuple [tx; value] =>
           match transaction tx with
           | Some tx => Some {| SagaLegacy.next_Transaction := tx;
                                SagaLegacy.msg_Value := value |}
           | None => None
           end
       | _ => None
       end;
     SagaLegacy.into_sagaMessageCancel t :=
       match t with
       | Tuple [TRef ref; Str id; Str reason] =>
           Some {| SagaLegacy.cancel_Ref := ref; SagaLegacy.cancel_ID := id;
                   SagaLegacy.cancel_Reason := reason |}
       | _ => None
       end;
     SagaLegacy.into_sagaMessageResult t :=
       match t with
       | Tuple [tx; TPid from; result] =>
           match transaction tx with
           | Some tx => Some {| SagaLegacy.res_Transaction := tx;
                                SagaLegacy.res_From := from;
                                SagaLegacy.res_Result := result |}
           | None => None
           end
       | _ => None
       end |}.

(** A transaction named [name] that started at time 100 with hop limit 2
    and lifespan 60 and went through the given parents. *)
Definition txL (name : string) (parents : list Pid) : SagaLegacy.SagaTransaction :=
  {| SagaLegacy.tx_ID := name; SagaLegacy.tx_StartTime := 100;
     SagaLegacy.tx_Options :=
       {| SagaLegacy.Name := name; SagaLegacy.HopLimit := 2;
          SagaLegacy.Lifespan := 60; SagaLegacy.TwoPhaseCommit := false |};
     SagaLegacy.tx_Ref := refM; SagaLegacy.tx_Parents := parents |}.

(** The "$saga_next" of [txL name parents] as A sends it. *)
Definition legacy_next (name : string) (parents : list Pid) : Saga.messageSaga :=
  {| Saga.Request := "$saga_next"; Saga.ms_Pid := pidA;
     Saga.Command :=
       Tuple [Tuple [Str name; Int64 100;
                     Tuple [Str name; Uint 2; Uint 60; Bool false];
                     TRef refM; Pids parents];
              Str "x"] |}.

(** Saga B of the earlier revision, with the given limit. *)
Definition sagaL (max : Z) : SagaLegacy.SagaProcess :=
  {| SagaLegacy.self := pidB;
     SagaLegacy.Options := {| SagaLegacy.MaxTransactions := max;
                              SagaLegacy.Worker := None |};
     SagaLegacy.txs := ∅ |}.

(** Saga A after it started a transaction with two-phase commit, and the
    transaction object it holds. *)
Definition sagaA2pc : Saga.SagaProcess :=
  (Saga.StartTransaction refT 100 100 refS "t"
     {| Saga.HopLimit := 2; Saga.Lifespan := 60; Saga.TwoPhaseCommit := true |}
     (Str "x") (saga_of pidA 0)).1.1.

Definition txA2pc : Saga.SagaTransaction :=
  {| Saga.tx_id := refT;
     Saga.tx_options := {| Saga.HopLimit := 2; Saga.Lifespan := 60;
                           Saga.TwoPhaseCommit := true |};
     Saga.tx_origin := Saga.zeroRef; Saga.tx_monitor := Saga.zeroRef;
     Saga.tx_steps :=
       {[ refS := {| Saga.step_Saga := TPid pidA; Saga.step_Value := Str "x";
                     Saga.step_Timeout := 0; Saga.step_done := false |} ]};
     Saga.tx_jobs := ∅; Saga.tx_arrival := 100; Saga.tx_parents := [] |}.
(** * Properties *)

(** ** The Server loop *)

Section server_facts.
Context (behavior : Server.ServerBehavior).
Import Server.

Lemma ProcessLoop_app gsp pre evs acts gsp' :
  ProcessLoop behavior gsp pre = (acts, Continue gsp') →
  ProcessLoop behavior gsp (pre ++ evs)
  = (acts ++ (ProcessLoop behavior gsp' evs).1,
     (ProcessLoop behavior gsp' evs).2).
Proof.
  revert gsp acts. induction pre as [|ev pre IH]; intros gsp acts Hrun.
  - simpl in Hrun. injection Hrun as <- <-. simpl.
    by destruct (ProcessLoop behavior gsp evs).
  - simpl in *.
    destruct (ProcessLoop_step behavior gsp ev) as [acts0 [reason|gsp0|]];
      try discriminate.
    destruct (ProcessLoop behavior gsp0 pre) as [acts1 r1] eqn:Hpre.
    injection Hrun as <- ->.
    rewrite (IH _ _ Hpre). simpl. by rewrite app_assoc.
Qed.

(** The loop never touches the process it runs on: an iteration that
    goes on leaves the trap-exit flag as it found it. *)
Lemma ProcessLoop_step_process gsp ev acts gsp' :
  ProcessLoop_step behavior gsp ev = (acts, Continue gsp') →
  process gsp' = process gsp.
Proof.
  unfold ProcessLoop_step. intros Hstep.
  destruct ev as [ex|reason|msg| |message]; try discriminate.
  - destruct (negb _); [discriminate|].
    destruct (dispatch _); by simplify_eq.
  - destruct (dispatch _); by simplify_eq.
  - destruct (HandleDirect behavior message) as [reply [e|]]; by simplify_eq.
Qed.

Lemma ProcessLoop_process gsp evs acts gsp' :
  ProcessLoop behavior gsp evs = (acts, Continue gsp') →
  process gsp' = process gsp.
Proof.
  revert gsp acts. induction evs as [|ev evs IH]; intros gsp acts Hrun.
  - simpl in Hrun. by simplify_eq.
  - simpl in Hrun.
    destruct (ProcessLoop_step behavior gsp ev) as [acts0 [reason|gsp0|]] eqn:Hstep;
      try discriminate.
    destruct (ProcessLoop behavior gsp0 evs) as [acts1 r1] eqn:Hevs.
    simplify_eq. rewrite (IH _ _ Hevs).
    by eapply ProcessLoop_step_process.
Qed.

End server_facts.

(** ** The older GenServer loop (package ergo) *)

Section genserver_facts.
Import GenServer.

(** A loop that has not returned has called no [Terminate]. *)
Lemma Loop_running evs : (Loop evs).2 = Running → (Loop evs).1 = [].
Proof.
  induction evs as [|ev evs IH]; [done|]. simpl.
  destruct ev as [reason|reason|fromPid message| |]; simpl; try done.
  - destruct (Loop_received fromPid message); [|done].
    destruct (Loop evs) as [calls r]. simpl in *. intros Hr. by rewrite IH.
  - destruct (Loop evs) as [calls r]. simpl in *. intros Hr. by rewrite IH.
Qed.

Lemma Loop_app pre evs : (Loop pre).2 = Running → Loop (pre ++ evs) = Loop evs.
Proof.
  induction pre as [|ev pre IH]; [done|]. simpl.
  destruct ev as [reason|reason|fromPid message| |]; simpl; try done.
  - destruct (Loop_received fromPid message); [|done].
    destruct (Loop pre) as [calls r]. simpl in *. intros Hr.
    rewrite (IH Hr). by destruct (Loop evs).
  - destruct (Loop pre) as [calls r]. simpl in *. intros Hr.
    rewrite (IH Hr). by destruct (Loop evs).
Qed.

(** X5: when the older GenServer loop calls Terminate. A loop that
    returned did so on the first context cancellation, stop or graceful
    exit it received while running. If that was a stop or a graceful
    exit, it called Terminate exactly once, with the reason it returns;
    if it was the cancellation of the context, it returns "kill" and has
    never called Terminate. *)
Theorem GenServer_Terminate_unless_killed evs reason :
  (Loop evs).2 = Returned reason →
  ∃ pre ev rest,
    evs = pre ++ ev :: rest
    ∧ (Loop pre).2 = Running
    ∧ ((ev = ContextDone ∧ reason = "kill" ∧ (Loop evs).1 = [])
       ∨ ((ev = Stop reason ∨ ev = GracefulExit reason)
          ∧ (Loop evs).1 = [reason])).
Proof.
  induction evs as [|ev evs IH]; [done|]. simpl.
  destruct ev as [r|r|fromPid message| |]; simpl.
  - intros [= <-]. exists [], (GracefulExit r), evs.
    split; [done|]. split; [done|]. right. split; [by right|done].
  - intros [= <-]. exists [], (Stop r), evs.
    split; [done|]. split; [done|]. right. split; [by left|done].
  - destruct (Loop_received fromPid message) eqn:Hrec; [|done].
    destruct (Loop evs) as [calls r] eqn:Hloop. simpl in *. intros Hr.
    destruct (IH Hr) as (pre & ev & rest & -> & Hpre & Hcase).
    exists (MailBox fromPid message :: pre), ev, rest.
    split; [done|]. split; [|done].
    simpl. rewrite Hrec. by destruct (Loop pre).
  - intros [= <-]. exists [], ContextDone, evs.
    split; [done|]. split; [done|]. by left.
  - destruct (Loop evs) as [calls r] eqn:Hloop. simpl in *. intros Hr.
    destruct (IH Hr) as (pre & ev & rest & -> & Hpre & Hcase).
    exists (Direct :: pre), ev, rest.
    split; [done|]. split; [|done].
    simpl. by destruct (Loop pre).
Qed.

End genserver_facts.

(** C8: when the context of a Server process (package gen) is cancelled,
    the loop calls the behavior's Terminate with "kill" and then returns
    "kill": whatever the loop went through before, the cancellation adds
    one call of Terminate to what it did and ends it with that reason;
    nothing after it is looked at. The older GenServer loop (package
    ergo) returns "kill" on the cancellation as well, but has then never
    called Terminate. *)
Theorem context_done_terminates_then_kill
    (behavior : Server.ServerBehavior) gsp pre rest acts gsp' gpre grest :
  Server.ProcessLoop behavior gsp pre = (acts, Server.Continue gsp') →
  (GenServer.Loop gpre).2 = GenServer.Running →
  Server.ProcessLoop_step behavior gsp' Server.ContextDone
  = ([Server.Terminate "kill"], Server.Return "kill")
  ∧ Server.ProcessLoop behavior gsp (pre ++ Server.ContextDone :: rest)
    = (acts ++ [Server.Terminate "kill"], Server.Return "kill")
  ∧ GenServer.Loop (gpre ++ GenServer.ContextDone :: grest)
    = ([], GenServer.Returned "kill").
Proof.
  intros Hrun Hgrun. split; [reflexivity|]. split.
  - by rewrite (ProcessLoop_app _ _ _ (Server.ContextDone :: rest) _ _ Hrun).
  - by rewrite (Loop_app _ _ Hgrun).
Qed.

(** ** The Saga *)

Section saga_facts.
Context (D : Saga.Decoder) (B : Saga.SagaBehavior).
Import Saga.

(** In range, the wrap-around of an [int64] is not seen. *)
Lemma wrap_int64_id z : - two63 ≤ z < two63 → wrap_int64 z = z.
Proof.
  intros Hz. unfold wrap_int64.
  change two64 with (2 * two63) in *.
  change two63 with 9223372036854775808 in *.
  rewrite Z.mod_small; lia.
Qed.

(** The remaining lifespan as the spec writes it, for a lifespan and
    clock readings far from the ends of the 64-bit range. *)
Lemma step_Lifespan_exact now tx :
  0 ≤ Lifespan (tx_options tx) < 2 ^ 62 →
  0 ≤ tx_arrival tx < 2 ^ 62 →
  0 ≤ now < 2 ^ 62 →
  step_Lifespan now tx = Lifespan (tx_options tx) - (now - tx_arrival tx).
Proof.
  intros HL Ha Hn. unfold step_Lifespan.
  change (2 ^ 62) with 4611686018427387904 in *.
  rewrite (wrap_int64_id (now - tx_arrival tx)),
    (wrap_int64_id (Lifespan (tx_options tx))), wrap_int64_id;
    change two63 with 9223372036854775808; lia.
Qed.

(** C7: an exit message of a worker whose job is still in the job map, with
    a reason other than "normal", makes the Saga invoke HandleJobFailed
    with that job's id and the exit reason, and nothing else; what the
    callback returns is the status HandleInfo hands to the loop. *)
Theorem exit_of_worker_invokes_HandleJobFailed now ref Pid Reason sp job :
  jobs sp !! Pid = Some job →
  Reason ≠ "normal" →
  HandleInfo D B now ref (MessageExit Pid Reason) sp
  = (sp, [Invoke (JobFailed (job_ID job) Reason)],
     Ret (HandleJobFailed B sp (job_ID job) Reason)).
Proof.
  intros Hjob Hreason. unfold HandleInfo, handleSagaExit.
  rewrite Hjob. by destruct (decide (Reason ≠ "normal")).
Qed.

(** C9: for a transaction with no parents (one this Saga originated),
    SendResult and SendInterim both return the error "no parent saga",
    send nothing and leave the Saga as it was (its transaction, step and
    job maps with it); for an id that is not in the transaction map the
    error is "unknown transaction". *)
Theorem no_parent_saga called id id' value sp p tx :
  txs sp !! id = Some p →
  heap sp !! p = Some tx →
  tx_parents tx = [] →
  txs sp !! id' = None →
  SendResult called id value sp = (sp, [], Ret (Some (Errorf "no parent saga")))
  ∧ SendInterim called id value sp
    = (sp, [], Ret (Some (Errorf "no parent saga")))
  ∧ SendResult called id' value sp
    = (sp, [], Ret (Some (Errorf "unknown transaction")))
  ∧ SendInterim called id' value sp
    = (sp, [], Ret (Some (Errorf "unknown transaction"))).
Proof.
  intros Htx Hheap Hparents Hunknown. unfold SendResult, SendInterim.
  rewrite Htx, Hheap, Hparents, Hunknown. done.
Qed.

(** C6 (amended): for a call of Next on a transaction of the map whose
    number of steps does not exceed its hop limit, the remaining lifespan
    is computed as lifespan - (now - arrival) in int64; when it is below 1
    second (0 or less), Next posts a saga_cancel with reason "exceeded
    lifespan" to the Saga itself and returns an error, sends no saga_next
    and records no step; from 1 second on it monitors the target, sends
    saga_next with the remaining lifespan and records the step. *)
Theorem Next_checks_remaining_lifespan now ref id step sp p tx :
  txs sp !! id = Some p →
  heap sp !! p = Some tx →
  len (tx_steps tx) ≤ wrap_int64 (HopLimit (tx_options tx)) →
  Next now ref id step sp
  = if decide (step_Lifespan now tx < 1) then
      (sp, [Send (TPid (self sp)) (cancel_post sp tx "exceeded lifespan")],
       Ret (zeroRef, Some (Errorf "exceeded lifespan. transaction canceled")))
    else
      (set_steps (<[ref := p]> (steps sp))
         (set_heap (<[p := set_tx_steps (<[ref := step]> (tx_steps tx)) tx]>
                      (heap sp)) sp),
       [MonitorProcess (step_Saga step);
        Send (step_Saga step) (saga_next sp ref tx step (step_Lifespan now tx))],
       Ret (ref, None)).
Proof.
  intros Htx Hheap Hhop. unfold Next, CancelTransaction.
  rewrite Htx, Hheap.
  destruct (len (tx_steps tx) >? _) eqn:Hgt; [lia|].
  destruct (decide (step_Lifespan now tx < 1)) as [Hlt|Hge].
  - by rewrite (proj2 (Z.ltb_lt _ _) Hlt).
  - by rewrite (proj2 (Z.ltb_ge _ _)) by lia.
Qed.

Lemma capacity_ok_gate sp :
  capacity_ok sp →
  (MaxTransactions (options sp) >? 0)
  && (len (txs sp) + 1 >? wrap_int64 (MaxTransactions (options sp))) = false.
Proof.
  unfold capacity_ok. intros Hok.
  destruct (_ >? 0) eqn:H1; [|done].
  destruct (_ + 1 >? _) eqn:H2; [|done].
  exfalso. apply Hok. lia.
Qed.


(** A request that is none of "$saga_next", "$saga_result" and
    "$saga_interim" is left to the caller as unsupported. *)
Lemma handleSagaRequest_other now ref m sp :
  Request m ≠ "$saga_next" →
  Request m ≠ "$saga_result" →
  Request m ≠ "$saga_interim" →
  handleSagaRequest D B now ref m sp = (sp, [], Ret (Some sagaStatusUnsupported)).
Proof.
  intros H1 H2 H3. unfold handleSagaRequest.
  by rewrite !decide_False by done.
Qed.

(** C2 (amended): CancelTransaction, for a transaction of the map, posts a
    saga_cancel with the transaction's id, its origin and the reason to the
    Saga itself and changes nothing in the Saga. The reception of that
    message changes nothing either: the transaction stays in the map, the
    steps stay in the step index, and nothing is sent, so no cancel goes
    to the step targets and none of them is demonitored. *)
Theorem cancel_is_posted_and_changes_nothing now ref id reason sp p tx m :
  txs sp !! id = Some p →
  heap sp !! p = Some tx →
  into_messageSaga D (cancel_post sp tx reason) = Some m →
  Request m = "$saga_cancel" →
  CancelTransaction id reason sp
  = (sp, [Send (TPid (self sp)) (cancel_post sp tx reason)], Ret ())
  ∧ (HandleInfo D B now ref (cancel_post sp tx reason) sp).1.1 = sp
  ∧ filter (λ e, outward e = true)
      (HandleInfo D B now ref (cancel_post sp tx reason) sp).1.2 = [].
Proof.
  intros Htx Hheap Hdec Hreq. split.
  - unfold CancelTransaction. by rewrite Htx, Hheap.
  - unfold HandleInfo, cancel_post in *. rewrite Hdec.
    rewrite handleSagaRequest_other by (rewrite Hreq; discriminate).
    done.
Qed.

(** An admission that passes the capacity gate, for a transaction id that
    is not in the map, stores the transaction with the sender put before
    the incoming parents, monitors the sender and invokes HandleTxNew:
    the hop limit and the number of parents are not looked at. *)
Lemma admission_stores now ref m stepMessage sp :
  Request m = "$saga_next" →
  into_messageSagaStep D (Command m) = Some stepMessage →
  txs sp !! TransactionID stepMessage = None →
  capacity_ok sp →
  ∃ sp' tx,
    handleSagaRequest D B now ref m sp
    = (sp', [MonitorProcess (TPid (ms_Pid m));
             Invoke (TxNew (TransactionID stepMessage) (Value stepMessage))],
       Ret (HandleTxNew B sp' (TransactionID stepMessage) (Value stepMessage)))
    ∧ txs sp' !! TransactionID stepMessage = Some (length (heap sp))
    ∧ heap sp' !! length (heap sp) = Some tx
    ∧ tx_parents tx = ms_Pid m :: Parents stepMessage
    ∧ tx_options tx = txOptions_of (Options stepMessage).
Proof.
  intros Hreq Hdec Htx Hcap. unfold handleSagaRequest.
  rewrite Hreq. simpl. rewrite Hdec, (capacity_ok_gate _ Hcap), Htx. simpl.
  eexists _, _. split; [reflexivity|]. simpl.
  split; [by rewrite lookup_insert_eq|].
  split; [by apply list_lookup_middle|done].
Qed.

(** The only cancels the admission replies with are those of the capacity
    gate and of the loop gate. *)
Lemma admission_never_replies_exceed_hop_limit now ref m sp to stepMessage :
  Send to (cancel_reply sp stepMessage "exceed_hop_limit")
  ∉ (handleSagaRequest D B now ref m sp).1.2.
Proof.
  unfold handleSagaRequest, alloc, cancel_reply.
  repeat case_match; simplify_eq; simpl;
    rewrite ?elem_of_cons, ?elem_of_nil; intuition discriminate.
Qed.

(** The hop limit as the code has it: [Next] refuses once the steps the
    Saga recorded for the transaction outnumber it. *)
Lemma Next_hop_limit now ref id step sp p tx :
  txs sp !! id = Some p →
  heap sp !! p = Some tx →
  len (tx_steps tx) > wrap_int64 (HopLimit (tx_options tx)) →
  Next now ref id step sp
  = (sp, [], Ret (zeroRef, Some (Errorf "exceeded hop limit"))).
Proof.
  intros Htx Hheap Hgt. unfold Next. rewrite Htx, Hheap.
  by rewrite (proj2 (Z.gtb_lt _ _)) by lia.
Qed.

(** C1 (amended): the admission of a saga_next makes no hop-limit check. A
    message that passes the capacity gate, for a transaction id that is
    not in the map, is admitted whatever its hop limit and the number of
    its parents: the transaction is stored with the sender put before the
    incoming parents and with the options of the message, the sender is
    monitored and HandleTxNew is invoked; and no admission ever replies
    saga_cancel "exceed_hop_limit". The hop limit is checked by Next
    instead: once the steps recorded for the transaction outnumber it,
    Next returns the error "exceeded hop limit", sends nothing and records
    nothing. *)
Theorem hop_limit_is_checked_by_Next_not_at_admission now ref m stepMessage sp :
  Request m = "$saga_next" →
  into_messageSagaStep D (Command m) = Some stepMessage →
  txs sp !! TransactionID stepMessage = None →
  capacity_ok sp →
  (∃ sp' tx,
     handleSagaRequest D B now ref m sp
     = (sp', [MonitorProcess (TPid (ms_Pid m));
              Invoke (TxNew (TransactionID stepMessage) (Value stepMessage))],
        Ret (HandleTxNew B sp' (TransactionID stepMessage) (Value stepMessage)))
     ∧ txs sp' !! TransactionID stepMessage = Some (length (heap sp))
     ∧ heap sp' !! length (heap sp) = Some tx
     ∧ tx_parents tx = ms_Pid m :: Parents stepMessage
     ∧ tx_options tx = txOptions_of (Options stepMessage))
  ∧ (∀ now0 ref0 m0 sp0 to stepMessage0,
       Send to (cancel_reply sp0 stepMessage0 "exceed_hop_limit")
       ∉ (handleSagaRequest D B now0 ref0 m0 sp0).1.2)
  ∧ (∀ now1 ref1 id step sp1 p tx1,
       txs sp1 !! id = Some p →
       heap sp1 !! p = Some tx1 →
       len (tx_steps tx1) > wrap_int64 (HopLimit (tx_options tx1)) →
       Next now1 ref1 id step sp1
       = (sp1, [], Ret (zeroRef, Some (Errorf "exceeded hop limit")))).
Proof.
  intros Hreq Hdec Htx Hcap. split; [by apply admission_stores|]. split.
  - intros. apply admission_never_replies_exceed_hop_limit.
  - intros. by eapply Next_hop_limit.
Qed.

End saga_facts.

(** ** Soundness of the pointers, on every run *)

Section saga_invariant.
Context (D : Saga.Decoder) (B : Saga.SagaBehavior).
Import Saga.

Lemma sound_alloc h t s tx : sound h t s → sound (h ++ [tx]) t s.
Proof.
  intros [Ht Hs]. split.
  - intros id p Hp. destruct (Ht _ _ Hp) as [tx' Htx'].
    exists tx'. by apply lookup_app_l_Some.
  - intros st p Hp. destruct (Hs _ _ Hp) as (tx' & Htx' & Hst).
    exists tx'. split; [by apply lookup_app_l_Some|done].
Qed.

Lemma sound_txs_insert h t s id p :
  sound h t s → is_Some (h !! p) → sound h (<[id := p]> t) s.
Proof.
  intros [Ht Hs] Hp. split; [|done].
  intros id' p' [[_ <-]|[_ Hin]]%lookup_insert_Some; eauto.
Qed.

Lemma sound_txs_delete h t s id : sound h t s → sound h (delete id t) s.
Proof.
  intros [Ht Hs]. split; [|done].
  intros id' p' [_ Hin]%lookup_delete_Some. eauto.
Qed.

Lemma sound_steps_delete h t s st : sound h t s → sound h t (delete st s).
Proof.
  intros [Ht Hs]. split; [done|].
  intros st' p' [_ Hin]%lookup_delete_Some. eauto.
Qed.

(** Writing an object back through its pointer, provided the steps the
    index knows of it are still there. *)
Lemma sound_store h t s p tx tx' :
  sound h t s →
  h !! p = Some tx →
  (∀ st, s !! st = Some p → is_Some (tx_steps tx' !! st)) →
  sound (<[p := tx']> h) t s.
Proof.
  intros [Ht Hs] Hp Hsteps. split.
  - intros id q Hq. apply list_lookup_insert_is_Some. eauto.
  - intros st q Hq. destruct (decide (p = q)) as [<-|Hne].
    + exists tx'. split; [|by apply Hsteps].
      apply list_lookup_insert_eq. by eapply lookup_lt_Some.
    + destruct (Hs _ _ Hq) as (tx0 & Htx0 & Hst).
      exists tx0. by rewrite list_lookup_insert_ne.
Qed.

Lemma sound_store_same_steps h t s p tx tx' :
  sound h t s →
  h !! p = Some tx →
  (∀ st, is_Some (tx_steps tx !! st) → is_Some (tx_steps tx' !! st)) →
  sound (<[p := tx']> h) t s.
Proof.
  intros Hsound Hp Hsame. eapply sound_store; [done..|].
  intros st Hst. apply Hsame.
  destruct Hsound as [_ Hs]. destruct (Hs _ _ Hst) as (tx0 & Htx0 & ?).
  by simplify_eq.
Qed.

(** [Next]'s two writes: the step into the object and into the index. *)
Lemma sound_add_step h t s p tx ref step :
  sound h t s →
  h !! p = Some tx →
  sound (<[p := set_tx_steps (<[ref := step]> (tx_steps tx)) tx]> h) t
        (<[ref := p]> s).
Proof.
  intros Hsound Hp.
  assert (sound (<[p := set_tx_steps (<[ref := step]> (tx_steps tx)) tx]> h) t s)
    as [Ht Hs].
  { eapply sound_store_same_steps; [done..|].
    intros st Hst. simpl. apply lookup_insert_is_Some'. by right. }
  split; [done|].
  intros st q [[<- <-]|[_ Hin]]%lookup_insert_Some; [|eauto].
  eexists. split.
  - apply list_lookup_insert_eq. by eapply lookup_lt_Some.
  - simpl. by rewrite lookup_insert_eq.
Qed.

Lemma wf_CancelTransaction id reason sp :
  wf sp → wf (CancelTransaction id reason sp).1.1.
Proof. unfold CancelTransaction. intros Hwf. by repeat case_match. Qed.

Lemma wf_Next now ref id step sp : wf sp → wf (Next now ref id step sp).1.1.
Proof.
  unfold Next, wf. intros Hwf.
  repeat case_match; simplify_eq; simpl; try done.
  - match goal with
    | H : CancelTransaction _ _ _ = _ |- _ =>
        pose proof (wf_CancelTransaction id "exceeded lifespan" sp Hwf) as Hc;
        rewrite H in Hc
    end. done.
  - match goal with
    | H : CancelTransaction _ _ _ = _ |- _ =>
        pose proof (wf_CancelTransaction id "exceeded lifespan" sp Hwf) as Hc;
        rewrite H in Hc
    end. done.
  - by apply sound_add_step.
Qed.

Lemma wf_StartTransaction id now now' ref name opts value sp :
  wf sp → wf (StartTransaction id now now' ref name opts value sp).1.1.
Proof.
  unfold StartTransaction, alloc. intros Hwf. simpl.
  match goal with
  | |- context [Next now' ref id ?step ?sp2] =>
      assert (wf sp2) as Hwf2;
      [|pose proof (wf_Next now' ref id step sp2 Hwf2);
        by destruct (Next now' ref id step sp2) as [[??] []]]
  end.
  unfold wf. simpl. apply sound_txs_insert; [by apply sound_alloc|].
  apply lookup_lt_is_Some. rewrite length_app. simpl. lia.
Qed.

Lemma wf_StartJob spawned ref cast id opts value sp :
  wf sp → wf (StartJob spawned ref cast id opts value sp).1.1.
Proof.
  unfold StartJob, wf. intros Hwf.
  repeat case_match; simplify_eq; simpl; try done.
  by eapply sound_store_same_steps.
Qed.

Lemma wf_SendResult called id result sp :
  wf sp → wf (SendResult called id result sp).1.1.
Proof.
  unfold SendResult, wf. intros Hwf.
  repeat case_match; simplify_eq; simpl; try done.
  by apply sound_txs_delete.
Qed.

Lemma wf_SendInterim called id interim sp :
  wf sp → wf (SendInterim called id interim sp).1.1.
Proof.
  unfold SendInterim, wf. intros Hwf.
  by repeat case_match.
Qed.

Lemma wf_handleSagaRequest now ref m sp :
  wf sp → wf (handleSagaRequest D B now ref m sp).1.1.
Proof.
  unfold handleSagaRequest, alloc, wf. intros Hwf.
  repeat case_match; simplify_eq; simpl; try done.
  all: try (by apply sound_steps_delete).
  - apply sound_txs_insert; [by apply sound_alloc|].
    apply lookup_lt_is_Some. rewrite length_app. simpl. lia.
  - eapply sound_store; [by apply sound_steps_delete|done|].
    intros st [Hne Hst]%lookup_delete_Some. simpl.
    apply lookup_delete_is_Some. split; [done|].
    destruct Hwf as [_ Hs]. destruct (Hs _ _ Hst) as (tx0 & ? & ?).
    by simplify_eq.
  - eapply sound_store_same_steps; [by apply sound_steps_delete|done|].
    intros st Hst. simpl. apply lookup_insert_is_Some'. by right.
Qed.

Lemma wf_HandleCall now ref from message sp :
  wf sp → wf (HandleCall D B now ref from message sp).1.1.
Proof.
  unfold HandleCall, wf. intros Hwf.
  pose proof (λ m, wf_handleSagaRequest now ref m sp Hwf) as Hreq.
  repeat case_match; simplify_eq; simpl; try done;
    try (match goal with
         | H : handleSagaRequest _ _ _ _ ?m _ = _ |- _ =>
             specialize (Hreq m); by rewrite H in Hreq
         end).
  by eapply sound_store_same_steps.
Qed.

Lemma wf_HandleDirect message sp :
  wf sp → wf (HandleDirect B message sp).1.1.
Proof. unfold HandleDirect. intros Hwf. by repeat case_match. Qed.

Lemma wf_HandleInfo now ref message sp :
  wf sp → wf (HandleInfo D B now ref message sp).1.1.
Proof.
  unfold HandleInfo, handleSagaExit, handleSagaDown, wf. intros Hwf.
  pose proof (λ m, wf_handleSagaRequest now ref m sp Hwf) as Hreq.
  repeat case_match; simplify_eq; simpl; try done;
    match goal with
    | H : handleSagaRequest _ _ _ _ ?m _ = _ |- _ =>
        specialize (Hreq m); by rewrite H in Hreq
    end.
Qed.

(** Every step of a Saga keeps its pointers sound. *)
Lemma wf_exec op sp : wf sp → wf (exec D B op sp).1.
Proof.
  intros Hwf. destruct op; simpl.
  - by apply wf_StartTransaction.
  - by apply wf_CancelTransaction.
  - by apply wf_Next.
  - by apply wf_StartJob.
  - done.
  - by apply wf_SendResult.
  - by apply wf_SendInterim.
  - by apply wf_HandleCall.
  - by apply wf_HandleDirect.
  - done.
  - by apply wf_HandleInfo.
Qed.

Lemma wf_run ops sp : wf sp → wf (run D B ops sp).
Proof.
  revert sp. induction ops as [|op ops IH]; intros sp Hwf; [done|].
  simpl. apply IH. by apply wf_exec.
Qed.

(** The Saga [Init] hands to the loop is sound, provided [InitSaga] left
    it so (as it does when it only uses the API above). *)
Lemma wf_Init InitSaga process args process' sp :
  (∀ sp0 p0 a, wf sp0 → wf (InitSaga sp0 p0 a).1.1) →
  Init (Some InitSaga) process args = (process', Some sp, None) →
  wf sp.
Proof.
  intros Huser. unfold Init.
  match goal with
  | |- context [InitSaga ?sp0 process args] =>
      pose proof (Huser sp0 process args) as Hwf;
      destruct (InitSaga sp0 process args) as [[sp1 p1] [opts [e|]]]
  end; [discriminate|].
  intros [= <- <-]. simpl in Hwf.
  assert (wf sp1) as Hwf1.
  { apply Hwf. split; intros ?? Hin; simpl in Hin;
      by rewrite lookup_empty in Hin. }
  by destruct (Worker opts).
Qed.

End saga_invariant.

(** ** Results from the next Sagas, and the end of a transaction *)

Section saga_results.
Context (D : Saga.Decoder) (B : Saga.SagaBehavior).
Import Saga.

(** C5: on a saga_result the Saga looks the transaction up in the step
    index under the step id of the message. A step id that is not there is
    ignored. Otherwise the transaction id of the message is held against
    the transaction's: when they differ the error "transaction id mismatch
    in saga result" is returned and no callback runs; when they agree the
    step is deleted from the transaction (two-phase commit disabled) or
    marked done (enabled), the other steps staying as they were, and
    HandleTxResult is invoked with the transaction id, the step id and the
    value. *)
Theorem saga_result_settles_the_step now ref m result sp :
  wf sp →
  Request m = "$saga_result" →
  into_messageSagaResult D (Command m) = Some result →
  match steps sp !! res_Origin result with
  | None => handleSagaRequest D B now ref m sp = (sp, [], Ret None)
  | Some p =>
      ∃ tx, heap sp !! p = Some tx ∧
        if decide (tx_id tx = res_TransactionID result) then
          ∃ sp' tx',
            handleSagaRequest D B now ref m sp
            = (sp',
               [Invoke (TxResult (tx_id tx) (res_Origin result) (Result result))],
               Ret None)
            ∧ heap sp' !! p = Some tx'
            ∧ (if TwoPhaseCommit (tx_options tx)
               then step_done <$> tx_steps tx' !! res_Origin result = Some true
               else tx_steps tx' !! res_Origin result = None)
            ∧ (∀ st, st ≠ res_Origin result →
                 tx_steps tx' !! st = tx_steps tx !! st)
            ∧ steps sp' = delete (res_Origin result) (steps sp)
            ∧ txs sp' = txs sp
        else
          ∃ sp',
            handleSagaRequest D B now ref m sp
            = (sp', [],
               Ret (Some (Errorf "transaction id mismatch in saga result")))
            ∧ heap sp' = heap sp
            ∧ txs sp' = txs sp
  end.
Proof.
  intros [_ Hsteps] Hreq Hdec. unfold handleSagaRequest.
  rewrite Hreq, decide_False, decide_True by done. rewrite Hdec.
  destruct (steps sp !! res_Origin result) as [p|] eqn:Hstep; [|done].
  destruct (Hsteps _ _ Hstep) as (tx & Htx & [step Hin]).
  exists tx. split; [done|]. rewrite Htx.
  assert (p < length (heap sp))%nat as Hlt by by eapply lookup_lt_Some.
  destruct (decide (tx_id tx = res_TransactionID result)) as [Heq|Hne].
  - rewrite decide_False by (by intros []).
    destruct (TwoPhaseCommit (tx_options tx)) eqn:H2pc; simpl.
    + rewrite Hin. eexists _, _. split; [done|]. simpl.
      split; [by apply list_lookup_insert_eq|]. simpl.
      split; [by rewrite lookup_insert_eq|].
      split; [|done].
      intros st Hst. by rewrite lookup_insert_ne.
    + eexists _, _. split; [done|]. simpl.
      split; [by apply list_lookup_insert_eq|]. simpl.
      split; [by rewrite lookup_delete_eq|].
      split; [|done].
      intros st Hst. by rewrite lookup_delete_ne.
  - rewrite decide_True by done. by eexists.
Qed.

Lemma keeps_txs_refl sp : keeps_txs sp sp.
Proof. by intros id. Qed.

Lemma keeps_txs_insert sp id p : keeps_txs sp (set_txs (<[id := p]> (txs sp)) sp).
Proof.
  intros id' Hid'. simpl. apply lookup_insert_is_Some'. by right.
Qed.

Lemma keeps_txs_CancelTransaction id reason sp :
  keeps_txs sp (CancelTransaction id reason sp).1.1.
Proof.
  unfold CancelTransaction. repeat case_match; apply keeps_txs_refl.
Qed.

Lemma keeps_txs_Next now ref id step sp :
  keeps_txs sp (Next now ref id step sp).1.1.
Proof.
  unfold Next.
  pose proof (keeps_txs_CancelTransaction id "exceeded lifespan" sp) as Hc.
  repeat case_match; simplify_eq; simpl;
    try apply keeps_txs_refl; try exact Hc.
  by intros id'.
Qed.

Lemma keeps_txs_StartTransaction id now now' ref name opts value sp :
  keeps_txs sp (StartTransaction id now now' ref name opts value sp).1.1.
Proof.
  unfold StartTransaction, alloc. simpl.
  match goal with
  | |- context [Next now' ref id ?step ?sp2] =>
      pose proof (keeps_txs_Next now' ref id step sp2) as Hn;
      destruct (Next now' ref id step sp2) as [[sp3 eff] []]
  end; simpl in *; intros id' Hid'; apply Hn; simpl;
    apply lookup_insert_is_Some'; by right.
Qed.

Lemma keeps_txs_StartJob spawned ref cast id opts value sp :
  keeps_txs sp (StartJob spawned ref cast id opts value sp).1.1.
Proof.
  unfold StartJob. repeat case_match; simplify_eq; simpl; by intros id'.
Qed.

Lemma keeps_txs_SendInterim called id interim sp :
  keeps_txs sp (SendInterim called id interim sp).1.1.
Proof.
  unfold SendInterim. repeat case_match; apply keeps_txs_refl.
Qed.

Lemma keeps_txs_handleSagaRequest now ref m sp :
  keeps_txs sp (handleSagaRequest D B now ref m sp).1.1.
Proof.
  unfold handleSagaRequest, alloc.
  repeat case_match; simplify_eq; simpl; try (by intros id').
  intros id' Hid'. simpl. apply lookup_insert_is_Some'. by right.
Qed.

Lemma keeps_txs_HandleCall now ref from message sp :
  keeps_txs sp (HandleCall D B now ref from message sp).1.1.
Proof.
  unfold HandleCall.
  pose proof (λ m, keeps_txs_handleSagaRequest now ref m sp) as Hreq.
  repeat case_match; simplify_eq; simpl; try (by intros id');
    match goal with
    | H : handleSagaRequest _ _ _ _ ?m _ = _ |- _ =>
        specialize (Hreq m); by rewrite H in Hreq
    end.
Qed.

Lemma keeps_txs_HandleDirect message sp :
  keeps_txs sp (HandleDirect B message sp).1.1.
Proof. unfold HandleDirect. repeat case_match; by intros id'. Qed.

Lemma keeps_txs_HandleInfo now ref message sp :
  keeps_txs sp (HandleInfo D B now ref message sp).1.1.
Proof.
  unfold HandleInfo, handleSagaExit, handleSagaDown.
  pose proof (λ m, keeps_txs_handleSagaRequest now ref m sp) as Hreq.
  repeat case_match; simplify_eq; simpl; try (by intros id');
    match goal with
    | H : handleSagaRequest _ _ _ _ ?m _ = _ |- _ =>
        specialize (Hreq m); by rewrite H in Hreq
    end.
Qed.

(** What it takes for [SendResult] to take an id out of the map. *)
Lemma SendResult_removes called id result sp id' :
  is_Some (txs sp !! id') →
  txs (SendResult called id result sp).1.1 !! id' = None →
  id' = id ∧ called = None
  ∧ ∃ p tx parent parents,
      txs sp !! id = Some p ∧ heap sp !! p = Some tx
      ∧ tx_parents tx = parent :: parents
      ∧ TwoPhaseCommit (tx_options tx) = false
      ∧ (SendResult called id result sp).1.2
        = [Call (TPid parent) (saga_reply "$saga_result" sp tx result)].
Proof.
  intros [q Hq]. unfold SendResult.
  repeat case_match; simplify_eq; simpl; try congruence.
  intros [->|?]%lookup_delete_None; [|congruence].
  do 2 (split; [done|]). by eexists _, _, _, _.
Qed.

(** C3 (amended): a step of a Saga takes a transaction out of the
    transaction map only if it is a SendResult for that transaction whose
    call to the parent succeeded, the transaction having a parent and
    two-phase commit disabled. No other step removes a transaction: not
    the reception of a message, a cancel included, and not a SendResult of
    a transaction with two-phase commit enabled. *)
Theorem removed_only_by_SendResult op sp id :
  is_Some (txs sp !! id) →
  txs (exec D B op sp).1 !! id = None →
  ∃ result p tx parent parents,
    op = OpSendResult None id result
    ∧ txs sp !! id = Some p ∧ heap sp !! p = Some tx
    ∧ tx_parents tx = parent :: parents
    ∧ TwoPhaseCommit (tx_options tx) = false
    ∧ (exec D B op sp).2
      = [Call (TPid parent) (saga_reply "$saga_result" sp tx result)].
Proof.
  intros Hin Hout.
  assert (∀ sp', keeps_txs sp sp' → txs sp' !! id = None → False) as Hkeeps.
  { intros sp' Hk Hnone. destruct (Hk id Hin) as [q Hq]. congruence. }
  destruct op; simpl in Hout;
    try (exfalso; eapply Hkeeps; [|exact Hout];
         first [ apply keeps_txs_StartTransaction
               | apply keeps_txs_CancelTransaction
               | apply keeps_txs_Next
               | apply keeps_txs_StartJob
               | apply keeps_txs_refl
               | apply keeps_txs_SendInterim
               | apply keeps_txs_HandleCall
               | apply keeps_txs_HandleDirect
               | apply keeps_txs_HandleInfo ]).
  destruct (SendResult_removes _ _ _ _ _ Hin Hout)
    as (-> & -> & p & tx & parent & parents & ? & ? & ? & ? & ?).
  by eexists _, _, _, _, _.
Qed.

End saga_results.

(** ** A Saga under the Server loop *)

(** C10: [Init] of a Saga enables trap-exit. Whenever InitSaga returns
    no error, [Init] returns none either and hands on the process with
    the trap-exit flag on, whatever the flag was before and whatever
    InitSaga did to it, and that is the process [ProcessInit] gives the
    loop. So in the loop that starts on it, at any point it has reached
    without returning, a graceful-exit signal does not end the loop: the
    iteration goes on, having started the task that calls HandleInfo with
    the MessageExit made of the signal's sender and reason. *)
Theorem saga_traps_graceful_exit (InitSaga : Saga.InitSaga_t)
    (behavior : Server.ServerBehavior) process args sp1 process1 opts
    pre acts gsp' ex :
  InitSaga
    {| Saga.self := Self process;
       Saga.options := {| Saga.MaxTransactions := 0; Saga.Worker := None |};
       Saga.heap := []; Saga.txs := ∅; Saga.steps := ∅; Saga.jobs := ∅ |}
    process args
  = (sp1, process1, (opts, None)) →
  Server.ProcessLoop behavior
    (Server.ProcessLoop_start (Saga.Init (Some InitSaga) process args).1.1) pre
  = (acts, Server.Continue gsp') →
  (Saga.Init (Some InitSaga) process args).1.1 = SetTrapExit true process1
  ∧ (Saga.Init (Some InitSaga) process args).2 = None
  ∧ Server.ProcessInit
      (Some (λ p a, ((Saga.Init (Some InitSaga) p a).1.1,
                     (Saga.Init (Some InitSaga) p a).2))) process args
    = (Some (SetTrapExit true process1), None)
  ∧ TrapExit (Saga.Init (Some InitSaga) process args).1.1 = true
  ∧ (∃ gsp'',
       Server.ProcessLoop_step behavior gsp' (Server.GracefulExit ex)
       = ([Server.Go (Server.Info (MessageExit (ex_From ex) (ex_Reason ex)))],
          Server.Continue gsp''))
  ∧ Server.run_task behavior
      (Server.Info (MessageExit (ex_From ex) (ex_Reason ex)))
    = Server.CallHandleInfo (MessageExit (ex_From ex) (ex_Reason ex))
      :: Server.after_status
           (Server.HandleInfo behavior (MessageExit (ex_From ex) (ex_Reason ex))).
Proof.
  intros Huser Hrun.
  assert (Saga.Init (Some InitSaga) process args
          = (SetTrapExit true process1,
             Some (match Saga.Worker opts with
                   | Some _ => Saga.set_jobs ∅ (Saga.set_options opts sp1)
                   | None => Saga.set_options opts sp1
                   end), None)) as Hinit.
  { unfold Saga.Init. by rewrite Huser. }
  rewrite Hinit in Hrun. unfold Server.ProcessInit. rewrite Hinit. simpl in *.
  split; [done|]. split; [done|]. split; [done|]. split; [done|].
  split; [|done].
  apply ProcessLoop_process in Hrun. simpl in Hrun.
  unfold Server.ProcessLoop_step. rewrite Hrun. simpl. by eexists.
Qed.

(** ** Further properties of the Saga *)

Section saga_more.
Context (D : Saga.Decoder) (B : Saga.SagaBehavior).
Import Saga.

(** X1: for every step id of a Saga's step index, the transaction it
    leads to has that step among its steps, and every transaction id of
    the map leads to a transaction object; this holds of the Saga Init
    makes (when InitSaga leaves it so) and after every run of steps on
    it. *)
Theorem step_index_sound_on_every_run InitSaga process args process' sp ops :
  (∀ sp0 p0 a, wf sp0 → wf (InitSaga sp0 p0 a).1.1) →
  Init (Some InitSaga) process args = (process', Some sp, None) →
  wf (run D B ops sp).
Proof.
  intros Huser Hinit. apply wf_run. by eapply wf_Init.
Qed.

(** X2: SendInterim never changes the Saga: whatever the transaction and
    whatever the call to the parent returns, the transaction, step and
    job maps are as before, so an interim result removes no transaction. *)
Theorem SendInterim_changes_nothing called id interim sp :
  (SendInterim called id interim sp).1.1 = sp.
Proof.
  unfold SendInterim.
  destruct (txs sp !! id) as [p|]; [|done].
  destruct (heap sp !! p) as [tx|]; [|done].
  destruct (tx_parents tx) as [|parent parents]; [done|].
  by destruct called.
Qed.

(** X3: the capacity gate. With MaxTransactions above 0 and as many
    transactions in the map already, a saga_next is answered with
    saga_cancel "exceed_tx_limit" to the sender, the Saga stays as it was
    and HandleTxNew is not invoked; with MaxTransactions 0 the gate lets
    every message through. *)
Theorem capacity_gate now ref m stepMessage sp :
  Request m = "$saga_next" →
  into_messageSagaStep D (Command m) = Some stepMessage →
  MaxTransactions (options sp) > 0 →
  len (txs sp) + 1 > wrap_int64 (MaxTransactions (options sp)) →
  handleSagaRequest D B now ref m sp
  = (sp, [Send (TPid (ms_Pid m)) (cancel_reply sp stepMessage "exceed_tx_limit")],
     Ret None)
  ∧ ∀ sp0, MaxTransactions (options sp0) = 0 → capacity_ok sp0.
Proof.
  intros Hreq Hdec Hmax Hfull. split.
  - unfold handleSagaRequest. rewrite Hreq. simpl. rewrite Hdec.
    by rewrite (proj2 (Z.gtb_lt _ _)), (proj2 (Z.gtb_lt _ _)) by lia.
  - intros sp0 Hzero [Hpos _]. lia.
Qed.

(** X4: an admitted transaction has exactly one parent more than the
    message carried: the sender, put first; its options are those of the
    message, over the defaults (hop limit 65535, lifespan 60 seconds). *)
Theorem admitted_parents_grow_by_one now ref m stepMessage sp :
  Request m = "$saga_next" →
  into_messageSagaStep D (Command m) = Some stepMessage →
  txs sp !! TransactionID stepMessage = None →
  capacity_ok sp →
  ∃ p tx,
    txs (handleSagaRequest D B now ref m sp).1.1 !! TransactionID stepMessage
    = Some p
    ∧ heap (handleSagaRequest D B now ref m sp).1.1 !! p = Some tx
    ∧ tx_parents tx = ms_Pid m :: Parents stepMessage
    ∧ length (tx_parents tx) = S (length (Parents stepMessage))
    ∧ tx_options tx = txOptions_of (Options stepMessage)
    ∧ txOptions_of ∅
      = {| HopLimit := 65535; Lifespan := 60; TwoPhaseCommit := false |}.
Proof.
  intros Hreq Hdec Htx Hcap.
  destruct (admission_stores D B now ref m stepMessage sp Hreq Hdec Htx Hcap)
    as (sp' & tx & -> & Hp & Hheap & Hparents & Hopts).
  exists (length (heap sp)), tx. simpl.
  do 3 (split; [done|]). split; [by rewrite Hparents|]. done.
Qed.

End saga_more.

(** * More properties *)

(** ** The Server loop *)

Section server_more.
Context (behavior : Server.ServerBehavior).
Import Server.

Lemma dispatch_no_Terminate message acts :
  dispatch message = Some acts → Forall (λ a, is_Terminate a = false) acts.
Proof.
  unfold dispatch. intros Hd.
  repeat case_match; simplify_eq; by repeat constructor.
Qed.

(** An iteration that returns has called [Terminate] with the reason it
    returns and done nothing else; one that does not return has not
    called it. *)
Lemma ProcessLoop_step_Terminate gsp ev :
  match (ProcessLoop_step behavior gsp ev).2 with
  | Return reason => (ProcessLoop_step behavior gsp ev).1 = [Terminate reason]
  | _ => Forall (λ a, is_Terminate a = false) (ProcessLoop_step behavior gsp ev).1
  end.
Proof.
  unfold ProcessLoop_step.
  destruct ev as [ex|reason|msg| |message]; try done.
  - destruct (negb _); [done|]. simpl. by repeat constructor.
  - destruct (dispatch _) as [acts|] eqn:Hd; simpl; [|done].
    by eapply dispatch_no_Terminate.
  - destruct (HandleDirect behavior message) as [reply [e|]]; simpl;
      by repeat constructor.
Qed.

(** The loop, from any state of its process: it calls [Terminate] at
    most once, and exactly when it returns. *)
Lemma ProcessLoop_Terminate gsp evs :
  match (ProcessLoop behavior gsp evs).2 with
  | Return reason =>
      ∃ acts0,
        (ProcessLoop behavior gsp evs).1 = acts0 ++ [Terminate reason]
        ∧ Forall (λ a, is_Terminate a = false) acts0
  | _ => Forall (λ a, is_Terminate a = false) (ProcessLoop behavior gsp evs).1
  end.
Proof.
  revert gsp. induction evs as [|ev evs IH]; intros gsp; simpl; [done|].
  pose proof (ProcessLoop_step_Terminate gsp ev) as Hstep.
  destruct (ProcessLoop_step behavior gsp ev) as [acts [reason|gsp'|]];
    simpl in *.
  - exists []. by rewrite Hstep.
  - specialize (IH gsp').
    destruct (ProcessLoop behavior gsp' evs) as [acts' [reason| |]]; simpl in *.
    + destruct IH as (acts0 & -> & Hno).
      exists (acts ++ acts0). split; [by rewrite app_assoc|].
      by apply Forall_app.
    + by apply Forall_app.
    + by apply Forall_app.
  - done.
Qed.

(** The goroutine of a "$gen_call", as [run_task] has it, is the call of
    HandleCall followed by [call_reply]. *)
Lemma run_task_GenCall m from payload :
  parse_from m = Some from →
  Element 3 m = Some payload →
  run_task behavior (GenCall m)
  = CallHandleCall from payload
    :: SagaServer.call_reply from (HandleCall behavior from payload).1
         (HandleCall behavior from payload).2.
Proof.
  intros Hfrom Hpayload. unfold run_task. rewrite Hfrom, Hpayload.
  by destruct (HandleCall behavior from payload) as [reply [e|]].
Qed.

End server_more.

(** X6: when ProcessLoop calls Terminate. On a process whose behavior is
    no ServerBehavior it returns "ProcessLoop: not a ServerBehavior" at
    once and calls nothing, Terminate included. Otherwise, whatever the
    loop receives, it calls the behavior's Terminate at most once, and
    exactly when it returns: a loop that returned a reason called
    Terminate with that very reason as the last thing it did and never
    before; a loop that is still running, or died of a panic of its own,
    never called it. *)
Theorem Terminate_once_and_last (behavior : option Server.ServerBehavior) ps evs :
  match behavior with
  | None =>
      Server.ProcessLoop_entry behavior ps evs
      = ([], Server.Return "ProcessLoop: not a ServerBehavior")
  | Some _ =>
      match (Server.ProcessLoop_entry behavior ps evs).2 with
      | Server.Return reason =>
          ∃ acts0,
            (Server.ProcessLoop_entry behavior ps evs).1
            = acts0 ++ [Server.Terminate reason]
            ∧ Forall (λ a, is_Terminate a = false) acts0
      | _ =>
          Forall (λ a, is_Terminate a = false)
            (Server.ProcessLoop_entry behavior ps evs).1
      end
  end.
Proof.
  destruct behavior as [b|]; [|done].
  apply (ProcessLoop_Terminate b (Server.ProcessLoop_start ps) evs).
Qed.

(** ** Jobs *)

Section saga_jobs.
Context (D : Saga.Decoder) (B : Saga.SagaBehavior).
Import Saga.

Lemma keeps_jobs_refl sp : keeps_jobs sp sp.
Proof. by intros ?. Qed.

Lemma keeps_jobs_CancelTransaction id reason sp :
  keeps_jobs sp (CancelTransaction id reason sp).1.1.
Proof.
  unfold CancelTransaction. repeat case_match; apply keeps_jobs_refl.
Qed.

Lemma keeps_jobs_Next now ref id step sp :
  keeps_jobs sp (Next now ref id step sp).1.1.
Proof.
  unfold Next.
  pose proof (keeps_jobs_CancelTransaction id "exceeded lifespan" sp) as Hc.
  repeat case_match; simplify_eq; simpl;
    try apply keeps_jobs_refl; try exact Hc.
  by intros ?.
Qed.

Lemma keeps_jobs_StartTransaction id now now' ref name opts value sp :
  keeps_jobs sp (StartTransaction id now now' ref name opts value sp).1.1.
Proof.
  unfold StartTransaction, alloc. simpl.
  match goal with
  | |- context [Next now' ref id ?step ?sp2] =>
      pose proof (keeps_jobs_Next now' ref id step sp2) as Hn;
      destruct (Next now' ref id step sp2) as [[sp3 eff] []]
  end; simpl in *; intros pid Hpid; by apply Hn.
Qed.

Lemma keeps_jobs_StartJob spawned ref cast id opts value sp :
  keeps_jobs sp (StartJob spawned ref cast id opts value sp).1.1.
Proof.
  unfold StartJob. repeat case_match; simplify_eq; simpl; try (by intros ?).
  intros pid' Hpid'. simpl. apply lookup_insert_is_Some'. by right.
Qed.

Lemma keeps_jobs_SendResult called id result sp :
  keeps_jobs sp (SendResult called id result sp).1.1.
Proof.
  unfold SendResult. repeat case_match; simplify_eq; simpl; by intros ?.
Qed.

Lemma keeps_jobs_SendInterim called id interim sp :
  keeps_jobs sp (SendInterim called id interim sp).1.1.
Proof.
  unfold SendInterim. repeat case_match; apply keeps_jobs_refl.
Qed.

Lemma keeps_jobs_handleSagaRequest now ref m sp :
  keeps_jobs sp (handleSagaRequest D B now ref m sp).1.1.
Proof.
  unfold handleSagaRequest, alloc.
  repeat case_match; simplify_eq; simpl; by intros ?.
Qed.

Lemma keeps_jobs_HandleDirect message sp :
  keeps_jobs sp (HandleDirect B message sp).1.1.
Proof. unfold HandleDirect. repeat case_match; by intros ?. Qed.

Lemma keeps_jobs_HandleInfo now ref message sp :
  keeps_jobs sp (HandleInfo D B now ref message sp).1.1.
Proof.
  unfold HandleInfo, handleSagaExit, handleSagaDown.
  pose proof (λ m, keeps_jobs_handleSagaRequest now ref m sp) as Hreq.
  repeat case_match; simplify_eq; simpl; try (by intros ?);
    match goal with
    | H : handleSagaRequest _ _ _ _ ?m _ = _ |- _ =>
        specialize (Hreq m); by rewrite H in Hreq
    end.
Qed.

(** What it takes for [HandleCall] to take a worker out of the job map. *)
Lemma HandleCall_removes now ref from message sp pid :
  is_Some (jobs sp !! pid) →
  jobs (HandleCall D B now ref from message sp).1.1 !! pid = None →
  ∃ result job,
    message = messageSagaJobResult pid result
    ∧ jobs sp !! pid = Some job
    ∧ (txs sp !! job_TXID job = None
       ∨ ∃ p tx, txs sp !! job_TXID job = Some p ∧ heap sp !! p = Some tx
                 ∧ TwoPhaseCommit (tx_options tx) = false).
Proof.
  intros [job0 Hjob0]. unfold HandleCall.
  pose proof (λ m, keeps_jobs_handleSagaRequest now ref m sp) as Hreq.
  assert (∀ m (q : Prop),
            jobs (handleSagaRequest D B now ref m sp).1.1 !! pid = None → q)
    as Hno.
  { intros m q Hnone. destruct (Hreq m pid) as [j Hj]; [by eexists|].
    congruence. }
  repeat case_match; simplify_eq; simpl; try congruence;
    try (match goal with
         | H : handleSagaRequest _ _ _ _ ?m _ = _ |- _ =>
             intros Hnone; apply (Hno m); by rewrite H
         end).
  all: try (intros [->|?]%lookup_delete_None; [|congruence];
            eexists _, _; split; [done|]; split; [done|];
            first [ by left
                  | right; eexists _, _; split; [done|]; split; [done|];
                    by destruct (TwoPhaseCommit _) ]).
  intros [? ?]%lookup_insert_None. congruence.
Qed.

(** X7: a worker leaves a Saga's job map only when the result of its job
    is received (HandleCall on the worker's result message), and then only
    if the job's transaction has two-phase commit disabled or is no longer
    in the transaction map. No other step removes a job; in particular the
    exit message of a worker leaves its job registered. *)
Theorem job_removed_only_by_its_result op sp pid :
  is_Some (jobs sp !! pid) →
  jobs (exec D B op sp).1 !! pid = None →
  ∃ now ref from result job,
    op = OpHandleCall now ref from (messageSagaJobResult pid result)
    ∧ jobs sp !! pid = Some job
    ∧ (txs sp !! job_TXID job = None
       ∨ ∃ p tx, txs sp !! job_TXID job = Some p ∧ heap sp !! p = Some tx
                 ∧ TwoPhaseCommit (tx_options tx) = false).
Proof.
  intros Hin Hout.
  assert (∀ sp', keeps_jobs sp sp' → jobs sp' !! pid = None → False) as Hkeeps.
  { intros sp' Hk Hnone. destruct (Hk pid Hin) as [q Hq]. congruence. }
  destruct op; simpl in Hout;
    try (exfalso; eapply Hkeeps; [|exact Hout];
         first [ apply keeps_jobs_StartTransaction
               | apply keeps_jobs_CancelTransaction
               | apply keeps_jobs_Next
               | apply keeps_jobs_StartJob
               | apply keeps_jobs_refl
               | apply keeps_jobs_SendResult
               | apply keeps_jobs_SendInterim
               | apply keeps_jobs_HandleDirect
               | apply keeps_jobs_HandleInfo ]).
  destruct (HandleCall_removes _ _ _ _ _ _ Hin Hout)
    as (result & job & -> & ? & ?).
  by eexists _, _, _, _, _.
Qed.

(** X8: StartJob changes the Saga only when it succeeds. Whenever it
    returns an error (no worker configured, unknown transaction, spawn
    failed, cast failed) the Saga is as before and the job id returned is
    the zero reference; and when it is the cast that failed, the worker
    that had been spawned and linked is killed. *)
Theorem StartJob_error_changes_nothing spawned ref cast id opts value sp jid e :
  (StartJob spawned ref cast id opts value sp).2 = Ret (jid, Some e) →
  (StartJob spawned ref cast id opts value sp).1.1 = sp
  ∧ jid = zeroRef
  ∧ (∀ pid w, spawned = inl pid → Worker (options sp) = Some w →
              is_Some (txs sp !! id) →
              ∃ job, (StartJob spawned ref cast id opts value sp).1.2
                     = [Spawn w; Link pid; CastJobStart pid job; Kill pid]).
Proof.
  unfold StartJob. intros Hret.
  repeat case_match; simplify_eq; simpl in *; simplify_eq;
    (split; [done|]); (split; [done|]);
    intros pid w0 ? ? [q Hq]; simplify_eq; by eexists.
Qed.

End saga_jobs.

(** ** Transactions under their own id *)

Section saga_keyed.
Context (D : Saga.Decoder) (B : Saga.SagaBehavior).
Import Saga.

Lemma keyed_alloc_insert h t s id tx :
  sound h t s → keyed h t → tx_id tx = id →
  keyed (h ++ [tx]) (<[id := length h]> t).
Proof.
  intros [Ht _] Hk Hid id' p tx' [[<- <-]|[Hne Hin]]%lookup_insert_Some Hp.
  - rewrite list_lookup_middle in Hp by done. by simplify_eq.
  - destruct (Ht _ _ Hin) as [tx0 Htx0].
    rewrite (lookup_app_l_Some _ _ _ _ Htx0) in Hp. simplify_eq. eauto.
Qed.

Lemma keyed_store h t p tx tx' :
  keyed h t → h !! p = Some tx → tx_id tx' = tx_id tx →
  keyed (<[p := tx']> h) t.
Proof.
  intros Hk Hp Hid id q tx0 Hq Htx0.
  destruct (decide (p = q)) as [<-|Hne].
  - rewrite list_lookup_insert_eq in Htx0 by (by eapply lookup_lt_Some).
    simplify_eq. rewrite Hid. eauto.
  - rewrite list_lookup_insert_ne in Htx0 by done. eauto.
Qed.

Lemma keyed_delete h t id : keyed h t → keyed h (delete id t).
Proof.
  intros Hk id' p tx [_ Hin]%lookup_delete_Some Hp. eauto.
Qed.

Lemma keyed_CancelTransaction id reason sp :
  keyed_sp sp → keyed_sp (CancelTransaction id reason sp).1.1.
Proof. unfold CancelTransaction. intros Hk. by repeat case_match. Qed.

Lemma keyed_Next now ref id step sp :
  keyed_sp sp → keyed_sp (Next now ref id step sp).1.1.
Proof.
  unfold Next, keyed_sp. intros Hk.
  pose proof (keyed_CancelTransaction id "exceeded lifespan" sp Hk) as Hc.
  repeat case_match; simplify_eq; simpl; try done.
  by eapply keyed_store.
Qed.

Lemma keyed_StartTransaction id now now' ref name opts value sp :
  wf sp → keyed_sp sp →
  keyed_sp (StartTransaction id now now' ref name opts value sp).1.1.
Proof.
  unfold StartTransaction, alloc. intros Hwf Hk. simpl.
  match goal with
  | |- context [Next now' ref id ?step ?sp2] =>
      assert (keyed_sp sp2) as Hk2;
      [|pose proof (keyed_Next now' ref id step sp2 Hk2);
        by destruct (Next now' ref id step sp2) as [[??] []]]
  end.
  unfold keyed_sp. simpl. by eapply keyed_alloc_insert.
Qed.

Lemma keyed_StartJob spawned ref cast id opts value sp :
  keyed_sp sp → keyed_sp (StartJob spawned ref cast id opts value sp).1.1.
Proof.
  unfold StartJob, keyed_sp. intros Hk.
  repeat case_match; simplify_eq; simpl; try done.
  by eapply keyed_store.
Qed.

Lemma keyed_SendResult called id result sp :
  keyed_sp sp → keyed_sp (SendResult called id result sp).1.1.
Proof.
  unfold SendResult, keyed_sp. intros Hk.
  repeat case_match; simplify_eq; simpl; try done.
  by apply keyed_delete.
Qed.

Lemma keyed_SendInterim called id interim sp :
  keyed_sp sp → keyed_sp (SendInterim called id interim sp).1.1.
Proof. unfold SendInterim. intros Hk. by repeat case_match. Qed.

Lemma keyed_handleSagaRequest now ref m sp :
  wf sp → keyed_sp sp → keyed_sp (handleSagaRequest D B now ref m sp).1.1.
Proof.
  unfold handleSagaRequest, alloc, keyed_sp. intros Hwf Hk.
  repeat case_match; simplify_eq; simpl; try done.
  all: try (by eapply keyed_store).
  by eapply keyed_alloc_insert.
Qed.

Lemma keyed_HandleCall now ref from message sp :
  wf sp → keyed_sp sp → keyed_sp (HandleCall D B now ref from message sp).1.1.
Proof.
  unfold HandleCall, keyed_sp. intros Hwf Hk.
  pose proof (λ m, keyed_handleSagaRequest now ref m sp Hwf Hk) as Hreq.
  repeat case_match; simplify_eq; simpl; try done;
    try (match goal with
         | H : handleSagaRequest _ _ _ _ ?m _ = _ |- _ =>
             specialize (Hreq m); by rewrite H in Hreq
         end).
  by eapply keyed_store.
Qed.

Lemma keyed_HandleDirect message sp :
  keyed_sp sp → keyed_sp (HandleDirect B message sp).1.1.
Proof. unfold HandleDirect. intros Hk. by repeat case_match. Qed.

Lemma keyed_HandleInfo now ref message sp :
  wf sp → keyed_sp sp → keyed_sp (HandleInfo D B now ref message sp).1.1.
Proof.
  unfold HandleInfo, handleSagaExit, handleSagaDown, keyed_sp. intros Hwf Hk.
  pose proof (λ m, keyed_handleSagaRequest now ref m sp Hwf Hk) as Hreq.
  repeat case_match; simplify_eq; simpl; try done;
    match goal with
    | H : handleSagaRequest _ _ _ _ ?m _ = _ |- _ =>
        specialize (Hreq m); by rewrite H in Hreq
    end.
Qed.

Lemma keyed_exec op sp : wf sp → keyed_sp sp → keyed_sp (exec D B op sp).1.
Proof.
  intros Hwf Hk. destruct op; simpl.
  - by apply keyed_StartTransaction.
  - by apply keyed_CancelTransaction.
  - by apply keyed_Next.
  - by apply keyed_StartJob.
  - done.
  - by apply keyed_SendResult.
  - by apply keyed_SendInterim.
  - by apply keyed_HandleCall.
  - by apply keyed_HandleDirect.
  - done.
  - by apply keyed_HandleInfo.
Qed.

(** X11: on every run of a Saga whose pointers are sound, each
    transaction of the transaction map is stored under its own id: the id
    field of the object a key leads to is that key. So the id a
    saga_result is held against is the one the transaction was admitted
    or started under. *)
Theorem transactions_keyed_by_their_id ops sp id p tx :
  wf sp →
  (∀ id0 p0 tx0, txs sp !! id0 = Some p0 → heap sp !! p0 = Some tx0 →
                 tx_id tx0 = id0) →
  txs (run D B ops sp) !! id = Some p →
  heap (run D B ops sp) !! p = Some tx →
  tx_id tx = id.
Proof.
  intros Hwf Hk. change (keyed_sp sp) in Hk.
  assert (keyed_sp (run D B ops sp)) as Hrun; [|by apply Hrun].
  revert sp Hwf Hk. induction ops as [|op ops IH]; intros sp Hwf Hk; [done|].
  simpl. apply IH; [by apply wf_exec|by apply keyed_exec].
Qed.

End saga_keyed.

(** ** From one Saga to the next, and back *)

Section saga_hops.
Context (D : Saga.Decoder).
Import Saga.

Lemma reads_back_decode : reads_back decode.
Proof. by repeat split. Qed.

(** [Next] when both of its tests pass. *)
Lemma Next_sends now ref id step sp p tx :
  txs sp !! id = Some p →
  heap sp !! p = Some tx →
  len (tx_steps tx) ≤ wrap_int64 (HopLimit (tx_options tx)) →
  1 ≤ step_Lifespan now tx →
  Next now ref id step sp
  = (set_steps (<[ref := p]> (steps sp))
       (set_heap (<[p := set_tx_steps (<[ref := step]> (tx_steps tx)) tx]>
                    (heap sp)) sp),
     [MonitorProcess (step_Saga step);
      Send (step_Saga step) (saga_next sp ref tx step (step_Lifespan now tx))],
     Ret (ref, None)).
Proof.
  intros Htx Hheap Hhop Hlife. unfold Next. rewrite Htx, Hheap.
  destruct (len (tx_steps tx) >? _) eqn:Hgt; [lia|].
  by rewrite (proj2 (Z.ltb_ge _ _)) by lia.
Qed.

(** X12: StartTransaction always registers the transaction and returns
    its id, whether or not the first Next goes through: after it the
    transaction map has the new id, leading to a transaction with that
    id, no parents, the arrival time read at the start, and the options
    given with a hop limit of 0 replaced by 65535 and a lifespan of 0
    replaced by 60. *)
Theorem StartTransaction_registers id now now' ref name opts value sp :
  (StartTransaction id now now' ref name opts value sp).2 = Ret id
  ∧ ∃ tx,
      txs (StartTransaction id now now' ref name opts value sp).1.1 !! id
      = Some (length (heap sp))
      ∧ heap (StartTransaction id now now' ref name opts value sp).1.1
        !! length (heap sp) = Some tx
      ∧ tx_id tx = id ∧ tx_parents tx = [] ∧ tx_arrival tx = now
      ∧ HopLimit (tx_options tx)
        = (if decide (HopLimit opts = 0) then 65535 else HopLimit opts)
      ∧ Lifespan (tx_options tx)
        = (if decide (Lifespan opts = 0) then 60 else Lifespan opts)
      ∧ TwoPhaseCommit (tx_options tx) = TwoPhaseCommit opts.
Proof.
  unfold StartTransaction, alloc, Next, CancelTransaction. simpl.
  rewrite lookup_insert_eq, list_lookup_middle by done. simpl.
  destruct (len _ >? _); [|destruct (step_Lifespan _ _ <? 1)]; simpl;
    (split; [done|]); eexists;
    (split; [by rewrite lookup_insert_eq|]);
    (split; [first [ by apply list_lookup_middle
                   | apply list_lookup_insert_eq; rewrite length_app; simpl; lia ]
            |done]).
Qed.

Lemma txOptions_of_Lifespan_range opts :
  0 ≤ Lifespan (txOptions_of opts) < two64.
Proof.
  unfold txOptions_of, defaultLifespan. simpl.
  change two64 with 18446744073709551616.
  repeat case_match; try lia.
  unfold wrap_uint. change two64 with 18446744073709551616.
  apply Z.mod_pos_bound. lia.
Qed.

(** What the admission stores, field by field. *)
Lemma admission_stores_tx B now ref m stepMessage sp :
  Request m = "$saga_next" →
  into_messageSagaStep D (Command m) = Some stepMessage →
  txs sp !! TransactionID stepMessage = None →
  capacity_ok sp →
  let tx := {| tx_id := TransactionID stepMessage;
               tx_options := txOptions_of (Options stepMessage);
               tx_origin := Origin stepMessage;
               tx_monitor := ref;
               tx_steps := ∅; tx_jobs := ∅; tx_arrival := 0;
               tx_parents := ms_Pid m :: Parents stepMessage |} in
  let sp' := set_txs (<[TransactionID stepMessage := length (heap sp)]> (txs sp))
               (set_heap (heap sp ++ [tx]) sp) in
  handleSagaRequest D B now ref m sp
  = (sp', [MonitorProcess (TPid (ms_Pid m));
           Invoke (TxNew (TransactionID stepMessage) (Value stepMessage))],
     Ret (HandleTxNew B sp' (TransactionID stepMessage) (Value stepMessage))).
Proof.
  intros Hreq Hdec Htx Hcap. unfold handleSagaRequest.
  rewrite Hreq. simpl. by rewrite Hdec, (capacity_ok_gate _ Hcap), Htx.
Qed.

(** X13: a transaction admitted from a saga_next gets no arrival time
    (the field keeps its zero value), so its remaining lifespan is
    counted from the epoch: at any clock reading that is not below the
    lifespan it was admitted with, Next on it fails. The Saga sends no
    saga_next and records no step; all it may do is post the saga_cancel
    "exceeded lifespan" to itself. *)
Theorem admitted_transaction_cannot_be_forwarded
    B now ref m stepMessage sp now' ref' step :
  Request m = "$saga_next" →
  into_messageSagaStep D (Command m) = Some stepMessage →
  txs sp !! TransactionID stepMessage = None →
  capacity_ok sp →
  Lifespan (txOptions_of (Options stepMessage)) ≤ now' →
  now' < 2 ^ 62 →
  ∃ tx e eff,
    heap (handleSagaRequest D B now ref m sp).1.1 !! length (heap sp) = Some tx
    ∧ tx_arrival tx = 0
    ∧ Next now' ref' (TransactionID stepMessage) step
        (handleSagaRequest D B now ref m sp).1.1
      = ((handleSagaRequest D B now ref m sp).1.1, eff, Ret (zeroRef, Some e))
    ∧ (eff = []
       ∨ eff = [Send (TPid (self sp))
                  (cancel_post sp tx "exceeded lifespan")]).
Proof.
  intros Hreq Hdec Htx Hcap Hlife Hnow.
  rewrite (admission_stores_tx B now ref m stepMessage sp Hreq Hdec Htx Hcap).
  simpl. eexists. unfold Next, CancelTransaction. simpl.
  rewrite lookup_insert_eq, list_lookup_middle by done. simpl.
  destruct (len _ >? _).
  - eexists _, _. split; [done|]. split; [done|]. split; [done|]. by left.
  - assert ((step_Lifespan now'
               {| tx_id := TransactionID stepMessage;
                  tx_options := txOptions_of (Options stepMessage);
                  tx_origin := Origin stepMessage; tx_monitor := ref;
                  tx_steps := ∅; tx_jobs := ∅; tx_arrival := 0;
                  tx_parents := ms_Pid m :: Parents stepMessage |} <? 1) = true)
      as ->.
    { apply Z.ltb_lt. unfold step_Lifespan. cbn [tx_options tx_arrival].
      pose proof (txOptions_of_Lifespan_range (Options stepMessage)) as Hr.
      set (L := Lifespan (txOptions_of (Options stepMessage))) in *.
      change (2 ^ 62) with 4611686018427387904 in *.
      change two64 with 18446744073709551616 in *.
      rewrite Z.sub_0_r.
      rewrite (wrap_int64_id now')
        by (change two63 with 9223372036854775808; lia).
      rewrite (wrap_int64_id L)
        by (change two63 with 9223372036854775808; lia).
      rewrite wrap_int64_id by (change two63 with 9223372036854775808; lia).
      lia. }
    eexists _, _. split; [done|]. split; [done|]. split; [done|]. by right.
Qed.

End saga_hops.

Section saga_round_trip.
Context (D : Saga.Decoder) (BA BB : Saga.SagaBehavior).
Import Saga.

(** X14: a result comes back to the step it belongs to. Saga A sends a
    transaction of its map to Saga B with Next; B, which does not know
    the transaction, admits the message; B sends a result with
    SendResult; A receives it. Then, with a decoder that reads the tuples
    back: B's call goes to A, A finds the transaction under the step id
    its own Next had minted, takes the step out of its step index and
    invokes HandleTxResult with the transaction id, that step id and the
    result B gave, unchanged; the transaction stays in A's map. *)
Theorem result_round_trip
    nowA ref id step spA pA txA nowB refB spB result nowA' refA' :
  reads_back D →
  txs spA !! id = Some pA →
  heap spA !! pA = Some txA →
  tx_id txA = id →
  len (tx_steps txA) ≤ wrap_int64 (HopLimit (tx_options txA)) →
  1 ≤ step_Lifespan nowA txA →
  txs spB !! id = None →
  capacity_ok spB →
  ∃ message1 mB spB1 message2 mA spA2,
    (Next nowA ref id step spA).1.2
    = [MonitorProcess (step_Saga step); Send (step_Saga step) message1]
    ∧ (Next nowA ref id step spA).2 = Ret (ref, None)
    ∧ into_messageSaga D message1 = Some mB
    ∧ handleSagaRequest D BB nowB refB mB spB
      = (spB1,
         [MonitorProcess (TPid (self spA)); Invoke (TxNew id (step_Value step))],
         Ret (HandleTxNew BB spB1 id (step_Value step)))
    ∧ (SendResult None id result spB1).1.2 = [Call (TPid (self spA)) message2]
    ∧ (SendResult None id result spB1).2 = Ret None
    ∧ into_messageSaga D message2 = Some mA
    ∧ handleSagaRequest D BA nowA' refA' mA (Next nowA ref id step spA).1.1
      = (spA2, [Invoke (TxResult id ref result)], Ret None)
    ∧ steps spA2 !! ref = None
    ∧ txs spA2 !! id = Some pA.
Proof.
  intros (Hsaga & Hstep & Hresult) HtxA HheapA Hid Hhop Hlife HtxB HcapB.
  rewrite (Next_sends nowA ref id step spA pA txA HtxA HheapA Hhop Hlife).
  unfold saga_next. rewrite Hid.
  set (opts := [("HopLimit", Uint (HopLimit (tx_options txA)));
                ("Lifespan", Int64 (step_Lifespan nowA txA));
                ("TwoPhaseCommit", Bool (TwoPhaseCommit (tx_options txA)))]).
  set (command := Tuple [TRef ref; TRef id; step_Value step;
                         Pids (tx_parents txA); Map opts]).
  set (mB := {| Request := "$saga_next"; ms_Pid := self spA;
                Command := command |}).
  set (stepMessage := {| Origin := ref; TransactionID := id;
                         Value := step_Value step; Parents := tx_parents txA;
                         Options := list_to_map opts |}).
  pose proof (admission_stores_tx D BB nowB refB mB stepMessage spB eq_refl
                (Hstep _ _ _ _ _) HtxB HcapB) as Hadmit.
  simpl in Hadmit.
  assert (pA < length (heap spA))%nat as Hlt by by eapply lookup_lt_Some.
  destruct (TwoPhaseCommit (tx_options txA)) eqn:H2pc.
  all: eexists _, mB, _, _, _, _.
  all: split; [reflexivity|]; split; [reflexivity|].
  all: split; [apply Hsaga|].
  all: split; [exact Hadmit|].
  all: unfold SendResult; simpl.
  all: rewrite lookup_insert_eq, list_lookup_middle by done; simpl.
  all: unfold saga_reply; simpl.
  all: split; [reflexivity|]; split; [reflexivity|].
  all: split; [apply Hsaga|].
  all: unfold handleSagaRequest; simpl.
  all: rewrite Hresult; simpl.
  all: rewrite lookup_insert_eq, list_lookup_insert_eq by done; simpl.
  all: rewrite Hid, decide_False by (by intros []).
  all: rewrite H2pc; simpl.
  - rewrite lookup_insert_eq.
    split; [reflexivity|]. simpl. by rewrite lookup_delete_eq.
  - split; [reflexivity|]. simpl. by rewrite lookup_delete_eq.
Qed.

End saga_round_trip.

(** ** A job from its start to its result *)

Section saga_job_round_trip.
Context (D : Saga.Decoder) (B : Saga.SagaBehavior).
Import Saga.

Lemma set_tx_jobs_id tx : set_tx_jobs (tx_jobs tx) tx = tx.
Proof. by destruct tx. Qed.

(** X9: a job from StartJob to its result. The worker StartJob spawned
    under a pid new to the Saga sends its result: HandleJobResult is
    invoked with the job id StartJob returned and the result, the reply
    value is nil. With two-phase commit disabled the Saga is then exactly
    as it was before StartJob: the job and the worker's entry in the
    transaction are gone. With it enabled the job stays in the job map,
    marked done and to be committed, with a timeout of 0 whatever the
    options given to StartJob said, and the worker stays enrolled in the
    transaction. *)
Theorem job_round_trip pid ref id opts value sp w p tx now ref' from result :
  Worker (options sp) = Some w →
  txs sp !! id = Some p →
  heap sp !! p = Some tx →
  jobs sp !! pid = None →
  tx_jobs tx !! pid = None →
  (StartJob (inl pid) ref None id opts value sp).2 = Ret (ref, None)
  ∧ (HandleCall D B now ref' from (messageSagaJobResult pid result)
       (StartJob (inl pid) ref None id opts value sp).1.1).1.2
    = [Invoke (JobResult ref result)]
  ∧ (∃ s, (HandleCall D B now ref' from (messageSagaJobResult pid result)
             (StartJob (inl pid) ref None id opts value sp).1.1).2
          = Ret (Nil, s))
  ∧ if TwoPhaseCommit (tx_options tx) then
      jobs (HandleCall D B now ref' from (messageSagaJobResult pid result)
              (StartJob (inl pid) ref None id opts value sp).1.1).1.1 !! pid
      = Some {| job_ID := ref; job_TXID := id; job_Value := value;
                job_options := {| job_Timeout := 0 |}; job_saga := self sp;
                job_commit := true; job_worker := pid; job_done := true |}
      ∧ ∃ tx',
          heap (HandleCall D B now ref' from (messageSagaJobResult pid result)
                  (StartJob (inl pid) ref None id opts value sp).1.1).1.1 !! p
          = Some tx'
          ∧ tx_jobs tx' !! pid = Some true
    else
      (HandleCall D B now ref' from (messageSagaJobResult pid result)
         (StartJob (inl pid) ref None id opts value sp).1.1).1.1 = sp.
Proof.
  intros Hw Htx Hheap Hjob Htxjob.
  assert (p < length (heap sp))%nat as Hlt by by eapply lookup_lt_Some.
  unfold StartJob. rewrite Hw, Htx, Hheap. simpl.
  split; [done|].
  unfold HandleCall. simpl.
  rewrite lookup_insert_eq. simpl. rewrite Htx.
  rewrite list_lookup_insert_eq by done. simpl.
  destruct (TwoPhaseCommit (tx_options tx)) eqn:H2pc; simpl.
  - split; [done|]. split; [by eexists|].
    rewrite lookup_insert_eq. split; [done|].
    eexists. rewrite list_lookup_insert_eq by done. split; [done|].
    simpl. by rewrite lookup_insert_eq.
  - split; [done|]. split; [by eexists|].
    destruct sp as [self0 options0 heap0 txs0 steps0 jobs0]. simpl in *.
    unfold set_heap, set_jobs. simpl. f_equal.
    + rewrite list_insert_insert_eq.
      unfold set_tx_jobs at 1. simpl.
      rewrite delete_insert_id by done.
      change (<[p := set_tx_jobs (tx_jobs tx) tx]> heap0 = heap0).
      rewrite set_tx_jobs_id. by apply list_insert_id.
    + by rewrite delete_insert_id.
Qed.

End saga_job_round_trip.

(** ** The completion predicate *)

Section saga_done.
Import Saga.

Lemma len_0 `{Countable K} {V} (m : gmap K V) :
  (len m >? 0) = false ↔ m = ∅.
Proof.
  unfold len. rewrite <- map_size_empty_iff.
  destruct (Z.gtb_spec (Z.of_nat (size m)) 0); split; intros; try done; lia.
Qed.

Lemma jobs_done_true sp pids :
  jobs_done sp pids = Ret true
  ↔ ∀ pid, pid ∈ pids → ∃ job, jobs sp !! pid = Some job ∧ job_done job = true.
Proof.
  induction pids as [|pid pids IH]; simpl.
  - split; [|done]. by intros _ ? ?%elem_of_nil.
  - destruct (jobs sp !! pid) as [job|] eqn:Hjob.
    + destruct (job_done job) eqn:Hdone.
      * rewrite IH. split.
        -- intros Hall pid' [->|Hin]%elem_of_cons; eauto.
        -- intros Hall pid' Hin. apply Hall. by right.
      * split; [done|]. intros Hall.
        destruct (Hall pid) as (job' & Hjob' & Hdone'); [by left|].
        congruence.
    + split; [done|]. intros Hall.
      destruct (Hall pid) as (job' & Hjob' & _); [by left|]. congruence.
Qed.

Lemma steps_done_true (m : gmap SagaStepID SagaStep) :
  forallb (λ kv, step_done kv.2) (map_to_list m) = true
  ↔ ∀ id step, m !! id = Some step → step_done step = true.
Proof.
  rewrite forallb_forall. split.
  - intros Hall id step Hin.
    apply (Hall (id, step)). apply list_elem_of_In.
    by apply elem_of_map_to_list.
  - intros Hall [id step] Hin%list_elem_of_In%elem_of_map_to_list. eauto.
Qed.

(** X10: what checkTxDone answers true on, whatever the order Go ranges
    over the maps in. Without two-phase commit: the transaction has no
    step and no job left. With it: every step of the transaction is
    marked done and every worker of its job set has a job in the Saga's
    job map that is marked done. *)
Theorem checkTxDone_true sp tx :
  checkTxDone sp tx = Ret true
  ↔ if TwoPhaseCommit (tx_options tx) then
      (∀ id step, tx_steps tx !! id = Some step → step_done step = true)
      ∧ (∀ pid b, tx_jobs tx !! pid = Some b →
           ∃ job, jobs sp !! pid = Some job ∧ job_done job = true)
    else tx_steps tx = ∅ ∧ tx_jobs tx = ∅.
Proof.
  unfold checkTxDone.
  destruct (TwoPhaseCommit (tx_options tx)); simpl.
  - destruct (forallb _ _) eqn:Hsteps; simpl.
    + pose proof (proj1 (steps_done_true _) Hsteps) as Hsteps'.
      destruct (decide (len (tx_jobs tx) = 0)) as [Hlen|Hlen].
      * split; [|done]. intros _. split; [done|].
        assert (tx_jobs tx = ∅) as ->.
        { apply len_0. destruct (Z.gtb_spec (len (tx_jobs tx)) 0); [lia|done]. }
        intros pid b Hin. by rewrite lookup_empty in Hin.
      * rewrite jobs_done_true. split.
        -- intros Hall. split; [done|]. intros pid b Hin. apply Hall.
           apply list_elem_of_fmap. exists (pid, b). split; [done|].
           by apply elem_of_map_to_list.
        -- intros [_ Hall] pid ([pid' b] & -> & Hin)%list_elem_of_fmap.
           apply elem_of_map_to_list in Hin. eauto.
    + split; [done|]. intros [Hall _].
      apply (proj2 (steps_done_true _)) in Hall. congruence.
  - destruct (len (tx_steps tx) >? 0) eqn:Hs.
    + split; [done|]. intros [Hempty _]. apply len_0 in Hempty. congruence.
    + apply len_0 in Hs.
      destruct (len (tx_jobs tx) >? 0) eqn:Hj.
      * split; [done|]. intros [_ Hempty]. apply len_0 in Hempty. congruence.
      * apply len_0 in Hj. done.
Qed.

End saga_done.

(** ** No nil dereference *)

Section saga_no_panic.
Context (D : Saga.Decoder) (B : Saga.SagaBehavior).
Import Saga.

Ltac no_nil Ht Hs :=
  try done;
  match goal with
  | H1 : txs ?sp !! ?id = Some ?p, H2 : heap ?sp !! ?p = None |- _ =>
      destruct (Ht _ _ H1) as [? ?]; congruence
  | H1 : steps ?sp !! ?st = Some ?p, H2 : heap ?sp !! ?p = None |- _ =>
      destruct (Hs _ _ H1) as (? & ? & ?); congruence
  | H1 : steps ?sp !! ?st = Some ?p, H2 : heap ?sp !! ?p = Some ?tx,
    H3 : tx_steps ?tx !! ?st = None |- _ =>
      destruct (Hs _ _ H1) as (? & ? & [? ?]); congruence
  end.

Lemma no_panic_CancelTransaction id reason sp :
  wf sp → is_Panic (CancelTransaction id reason sp).2 = false.
Proof.
  intros [Ht Hs]. unfold CancelTransaction. repeat case_match; no_nil Ht Hs.
Qed.

Lemma no_panic_Next now ref id step sp :
  wf sp → is_Panic (Next now ref id step sp).2 = false.
Proof.
  intros Hwf. pose proof (no_panic_CancelTransaction id "exceeded lifespan" sp Hwf) as Hc.
  destruct Hwf as [Ht Hs]. unfold Next.
  repeat case_match; simplify_eq; simpl in *; no_nil Ht Hs.
Qed.

Lemma no_panic_StartTransaction id now now' ref name opts value sp :
  is_Panic (StartTransaction id now now' ref name opts value sp).2 = false.
Proof.
  unfold StartTransaction, alloc, Next, CancelTransaction. simpl.
  rewrite lookup_insert_eq, list_lookup_middle by done.
  by repeat case_match.
Qed.

Lemma no_panic_StartJob spawned ref cast id opts value sp :
  wf sp → is_Panic (StartJob spawned ref cast id opts value sp).2 = false.
Proof.
  intros [Ht Hs]. unfold StartJob. repeat case_match; no_nil Ht Hs.
Qed.

Lemma no_panic_SendResult called id result sp :
  wf sp → is_Panic (SendResult called id result sp).2 = false.
Proof.
  intros [Ht Hs]. unfold SendResult. repeat case_match; no_nil Ht Hs.
Qed.

Lemma no_panic_SendInterim called id interim sp :
  wf sp → is_Panic (SendInterim called id interim sp).2 = false.
Proof.
  intros [Ht Hs]. unfold SendInterim. repeat case_match; no_nil Ht Hs.
Qed.

Lemma no_panic_handleSagaRequest now ref m sp :
  wf sp → is_Panic (handleSagaRequest D B now ref m sp).2 = false.
Proof.
  intros [Ht Hs]. unfold handleSagaRequest, alloc.
  repeat case_match; simplify_eq; simpl in *; no_nil Ht Hs.
Qed.

Lemma no_panic_HandleCall now ref from message sp :
  wf sp → is_Panic (HandleCall D B now ref from message sp).2 = false.
Proof.
  intros Hwf.
  pose proof (λ m, no_panic_handleSagaRequest now ref m sp Hwf) as Hreq.
  destruct Hwf as [Ht Hs]. unfold HandleCall.
  repeat case_match; simplify_eq; simpl in *;
    first [ no_nil Ht Hs
          | match goal with
            | H : handleSagaRequest _ _ _ _ ?m _ = _ |- _ =>
                specialize (Hreq m); by rewrite H in Hreq
            end ].
Qed.

Lemma no_panic_HandleInfo now ref message sp :
  wf sp → is_Panic (HandleInfo D B now ref message sp).2 = false.
Proof.
  intros Hwf.
  pose proof (λ m, no_panic_handleSagaRequest now ref m sp Hwf) as Hreq.
  unfold HandleInfo, handleSagaExit, handleSagaDown.
  repeat case_match; simplify_eq; simpl in *; try done;
    match goal with
    | H : handleSagaRequest _ _ _ _ ?m _ = _ |- _ =>
        specialize (Hreq m); by rewrite H in Hreq
    end.
Qed.

(** X15: no nil dereference. On a Saga whose pointers are sound, and so
    on the Saga Init creates and after every sequence of API calls and
    Server callbacks on it, no API call and no Server callback panics:
    every pointer the code dereferences (the transaction a transaction
    id or a step id leads to, the step a result is marked on) is there. *)
Theorem sound_Saga_never_panics ops op sp :
  wf sp → panics D B op (run D B ops sp) = false.
Proof.
  intros Hwf. apply (wf_run D B ops) in Hwf.
  destruct op; simpl.
  - apply no_panic_StartTransaction.
  - by apply no_panic_CancelTransaction.
  - by apply no_panic_Next.
  - by apply no_panic_StartJob.
  - done.
  - by apply no_panic_SendResult.
  - by apply no_panic_SendInterim.
  - by apply no_panic_HandleCall.
  - unfold HandleDirect. by repeat case_match.
  - done.
  - by apply no_panic_HandleInfo.
Qed.

End saga_no_panic.

(** ** What crosses a hop *)

Section saga_hops_more.
Context (D : Saga.Decoder) (B : Saga.SagaBehavior).
Import Saga.

Lemma wrap_int64_range z : - two63 ≤ wrap_int64 z < two63.
Proof.
  unfold wrap_int64.
  pose proof (Z.mod_pos_bound (z + two63) two64) as Hb.
  change two64 with 18446744073709551616 in *.
  change two63 with 9223372036854775808 in *. lia.
Qed.

Lemma not_capacity_ok_gate sp :
  ¬ capacity_ok sp →
  (MaxTransactions (options sp) >? 0)
  && (len (txs sp) + 1 >? wrap_int64 (MaxTransactions (options sp))) = true.
Proof.
  unfold capacity_ok. intros Hno.
  destruct (Z.gtb_spec (MaxTransactions (options sp)) 0);
    destruct (Z.gtb_spec (len (txs sp) + 1)
                (wrap_int64 (MaxTransactions (options sp))));
    simpl; try done; exfalso; apply Hno; intros [? ?]; lia.
Qed.

(** X16: the options a transaction has after a hop. Saga A sends a
    transaction with Next, Saga B admits it; the option values reach B as
    the Go values Next put in the map. Then the transaction B stores has
    the hop limit 65535 whatever A's was (Next sends a uint, the admission
    reads an int64 only), the lifespan that remained at A when it sent,
    A's two-phase-commit flag, A's pid in front of A's parents, and the
    step id of A's Next as its origin. *)
Theorem options_across_a_hop
    nowA ref id step spA pA txA nowB refB spB :
  reads_back D →
  txs spA !! id = Some pA →
  heap spA !! pA = Some txA →
  tx_id txA = id →
  len (tx_steps txA) ≤ wrap_int64 (HopLimit (tx_options txA)) →
  1 ≤ step_Lifespan nowA txA →
  txs spB !! id = None →
  capacity_ok spB →
  ∃ message mB txB,
    (Next nowA ref id step spA).1.2
    = [MonitorProcess (step_Saga step); Send (step_Saga step) message]
    ∧ into_messageSaga D message = Some mB
    ∧ txs (handleSagaRequest D B nowB refB mB spB).1.1 !! id
      = Some (length (heap spB))
    ∧ heap (handleSagaRequest D B nowB refB mB spB).1.1 !! length (heap spB)
      = Some txB
    ∧ HopLimit (tx_options txB) = 65535
    ∧ Lifespan (tx_options txB) = step_Lifespan nowA txA
    ∧ TwoPhaseCommit (tx_options txB) = TwoPhaseCommit (tx_options txA)
    ∧ tx_parents txB = self spA :: tx_parents txA
    ∧ tx_origin txB = ref.
Proof.
  intros (Hsaga & Hstep & _) HtxA HheapA Hid Hhop Hlife HtxB HcapB.
  rewrite (Next_sends nowA ref id step spA pA txA HtxA HheapA Hhop Hlife).
  unfold saga_next. rewrite Hid.
  set (opts := [("HopLimit", Uint (HopLimit (tx_options txA)));
                ("Lifespan", Int64 (step_Lifespan nowA txA));
                ("TwoPhaseCommit", Bool (TwoPhaseCommit (tx_options txA)))]).
  set (command := Tuple [TRef ref; TRef id; step_Value step;
                         Pids (tx_parents txA); Map opts]).
  set (mB := {| Request := "$saga_next"; ms_Pid := self spA;
                Command := command |}).
  set (stepMessage := {| Origin := ref; TransactionID := id;
                         Value := step_Value step; Parents := tx_parents txA;
                         Options := list_to_map opts |}).
  pose proof (admission_stores_tx D B nowB refB mB stepMessage spB eq_refl
                (Hstep _ _ _ _ _) HtxB HcapB) as Hadmit.
  simpl in Hadmit.
  eexists _, mB, _. split; [reflexivity|]. split; [apply Hsaga|].
  rewrite Hadmit. simpl.
  split; [apply lookup_insert_eq|].
  split; [by apply list_lookup_middle|].
  split; [reflexivity|].
  split; [|done].
  change (wrap_uint (step_Lifespan nowA txA) = step_Lifespan nowA txA).
  pose proof (wrap_int64_range
                (wrap_int64 (Lifespan (tx_options txA))
                 - wrap_int64 (nowA - tx_arrival txA))) as Hr.
  fold (step_Lifespan nowA txA) in Hr.
  unfold wrap_uint.
  change two64 with 18446744073709551616.
  change two63 with 9223372036854775808 in Hr.
  apply Z.mod_small. lia.
Qed.

(** X17: the saga_next a Saga sends to itself. StartTransaction, when its
    first Next goes through, monitors the Saga itself and sends it the
    saga_next of the new transaction. When the Saga receives it, the
    transaction is in its map already, so it counts at the capacity gate:
    if the gate lets it through, HandleTxNew is invoked with the
    transaction id and the value given to StartTransaction and the Saga
    is unchanged; if not (a Saga with MaxTransactions = n starting the
    n-th transaction it holds), the Saga sends itself a saga_cancel
    "exceed_tx_limit" and HandleTxNew is never invoked, while the
    transaction stays in the map. *)
Theorem own_saga_next id now now' ref name opts value sp nowI refI :
  reads_back D →
  0 ≤ wrap_int64 (if decide (HopLimit opts = 0) then 65535 else HopLimit opts) →
  1 ≤ wrap_int64
        (wrap_int64 (if decide (Lifespan opts = 0) then 60 else Lifespan opts)
         - wrap_int64 (now' - now)) →
  ∃ message m,
    (StartTransaction id now now' ref name opts value sp).1.2
    = [MonitorProcess (TPid (self sp)); Send (TPid (self sp)) message]
    ∧ into_messageSaga D message = Some m
    ∧ is_Some (txs (StartTransaction id now now' ref name opts value sp).1.1
               !! id)
    ∧ (capacity_ok (StartTransaction id now now' ref name opts value sp).1.1 →
       handleSagaRequest D B nowI refI m
         (StartTransaction id now now' ref name opts value sp).1.1
       = ((StartTransaction id now now' ref name opts value sp).1.1,
          [MonitorProcess (TPid (self sp)); Invoke (TxNew id value)],
          Ret (HandleTxNew B
                 (StartTransaction id now now' ref name opts value sp).1.1
                 id value)))
    ∧ (¬ capacity_ok (StartTransaction id now now' ref name opts value sp).1.1 →
       handleSagaRequest D B nowI refI m
         (StartTransaction id now now' ref name opts value sp).1.1
       = ((StartTransaction id now now' ref name opts value sp).1.1,
          [Send (TPid (self sp))
             (Tuple [Atom "$saga_cancel"; TPid (self sp);
                     Tuple [TRef ref; TRef id; Str "exceed_tx_limit"]])],
          Ret None)).
Proof.
  intros (Hsaga & Hstep & _) Hhop Hlife.
  unfold StartTransaction, alloc. simpl.
  match goal with
  | |- context [Next now' ref id ?step ?sp2] =>
      match goal with
      | |- context [alloc] => fail 1
      | _ =>
          rewrite (Next_sends now' ref id step sp2 (length (heap sp))
                     {| tx_id := id;
                        tx_options :=
                          {| HopLimit := if decide (HopLimit opts = 0)
                                         then defaultHopLimit else HopLimit opts;
                             Lifespan := if decide (Lifespan opts = 0)
                                         then defaultLifespan else Lifespan opts;
                             TwoPhaseCommit := TwoPhaseCommit opts |};
                        tx_origin := zeroRef; tx_monitor := zeroRef;
                        tx_steps := ∅; tx_jobs := ∅; tx_arrival := now;
                        tx_parents := [] |})
      end
  end.
  - simpl. unfold saga_next. simpl.
    eexists _, _. split; [reflexivity|]. split; [apply Hsaga|].
    split; [rewrite lookup_insert_eq; by eexists|].
    unfold handleSagaRequest. simpl. rewrite Hstep. simpl.
    rewrite lookup_insert_eq.
    rewrite list_lookup_insert_eq by (rewrite length_app; simpl; lia).
    unfold capacity_ok. simpl.
    split.
    + intros Hok.
      pose proof (capacity_ok_gate
                    (set_txs (<[id := length (heap sp)]> (txs sp)) sp)) as Hg.
      unfold capacity_ok in Hg. simpl in Hg. by rewrite (Hg Hok).
    + intros Hno.
      pose proof (not_capacity_ok_gate
                    (set_txs (<[id := length (heap sp)]> (txs sp)) sp)) as Hg.
      unfold capacity_ok in Hg. simpl in Hg. by rewrite (Hg Hno).
  - simpl. apply lookup_insert_eq.
  - simpl. by apply list_lookup_middle.
  - simpl. unfold len. rewrite map_size_empty. exact Hhop.
  - exact Hlife.
Qed.

End saga_hops_more.

(** ** What stops a Saga *)

Section saga_stops.
Context (D : Saga.Decoder) (B : Saga.SagaBehavior) (sb : Server.ServerBehavior).
Import Saga.

(** X18: a saga message whose command cannot be read stops the Saga. A
    tuple that reads as a saga message with the request "$saga_next",
    "$saga_result" or "$saga_interim" and a command that does not decode
    makes the Saga's goroutine put "Unsupported request" on the stop
    channel, whether the tuple came as a plain message or as a call; the
    Saga's state is untouched, no callback is invoked and a caller gets
    no reply. On that stop the loop calls Terminate and returns. *)
Theorem undecodable_command_stops_the_Saga l m now ref from sp gsp :
  into_messageSaga D (Tuple l) = Some m →
  (Request m = "$saga_next" ∧ into_messageSagaStep D (Command m) = None)
  ∨ ((Request m = "$saga_result" ∨ Request m = "$saga_interim")
     ∧ into_messageSagaResult D (Command m) = None) →
  SagaServer.info_task D B now ref (Tuple l) sp
  = (sp, [], [Server.PushStop "Unsupported request"])
  ∧ SagaServer.call_task D B now ref from (Tuple l) sp
    = (sp, [], [Server.PushStop "Unsupported request"])
  ∧ Server.ProcessLoop_step sb gsp (Server.Stop "Unsupported request")
    = ([Server.Terminate "Unsupported request"],
       Server.Return "Unsupported request").
Proof.
  intros Hm Hbad.
  assert (handleSagaRequest D B now ref m sp
          = (sp, [], Ret (Some ErrUnsupportedRequest))) as Hreq.
  { unfold handleSagaRequest.
    destruct Hbad as [[Hr Hd]|[[Hr|Hr] Hd]]; rewrite Hr; simpl;
      by rewrite Hd. }
  unfold SagaServer.info_task, SagaServer.call_task, HandleInfo, HandleCall.
  by rewrite Hm, Hreq.
Qed.

(** X19: a request the Saga does not handle. A tuple that reads as a saga
    message with a request other than "$saga_next", "$saga_result" and
    "$saga_interim" (a "$saga_cancel", for one) is handed to
    HandleSagaInfo when it comes as a plain message, and the Saga goes on
    or stops as that callback says; when it comes as a call, the Saga
    stops with the reason "unsupported" without invoking any callback or
    replying. The Saga's state is untouched either way. *)
Theorem unhandled_request_stops_the_Saga_on_a_call l m now ref from sp :
  into_messageSaga D (Tuple l) = Some m →
  Request m ≠ "$saga_next" →
  Request m ≠ "$saga_result" →
  Request m ≠ "$saga_interim" →
  SagaServer.call_task D B now ref from (Tuple l) sp
  = (sp, [], [Server.PushStop "unsupported"])
  ∧ SagaServer.info_task D B now ref (Tuple l) sp
    = (sp, [Invoke (SagaInfo (Tuple l))],
       Server.after_status (HandleSagaInfo B sp (Tuple l))).
Proof.
  intros Hm H1 H2 H3.
  pose proof (handleSagaRequest_other D B now ref m sp H1 H2 H3) as Hreq.
  unfold SagaServer.info_task, SagaServer.call_task, HandleInfo, HandleCall.
  by rewrite Hm, Hreq.
Qed.

(** X20: a result that names another transaction stops the Saga. When the
    step id of a saga_result is in the step index but the transaction it
    leads to has another id than the result names, the Saga's goroutine
    puts "transaction id mismatch in saga result" on the stop channel,
    whether the result came as a call (as SendResult sends it) or as a
    plain message; the step is taken out of the step index all the same,
    the transaction is untouched, HandleTxResult is not invoked and a
    caller gets no reply. *)
Theorem mismatched_result_stops_the_Saga l m result p tx now ref from sp :
  into_messageSaga D (Tuple l) = Some m →
  Request m = "$saga_result" →
  into_messageSagaResult D (Command m) = Some result →
  steps sp !! res_Origin result = Some p →
  heap sp !! p = Some tx →
  tx_id tx ≠ res_TransactionID result →
  SagaServer.call_task D B now ref from (Tuple l) sp
  = (set_steps (delete (res_Origin result) (steps sp)) sp, [],
     [Server.PushStop "transaction id mismatch in saga result"])
  ∧ SagaServer.info_task D B now ref (Tuple l) sp
    = (set_steps (delete (res_Origin result) (steps sp)) sp, [],
       [Server.PushStop "transaction id mismatch in saga result"]).
Proof.
  intros Hm Hr Hd Hstep Hheap Hne.
  assert (handleSagaRequest D B now ref m sp
          = (set_steps (delete (res_Origin result) (steps sp)) sp, [],
             Ret (Some (Errorf "transaction id mismatch in saga result"))))
    as Hreq.
  { unfold handleSagaRequest. rewrite Hr. simpl.
    rewrite Hd, Hstep. simpl. rewrite Hheap. by rewrite decide_True. }
  unfold SagaServer.info_task, SagaServer.call_task, HandleInfo, HandleCall.
  by rewrite Hm, Hreq.
Qed.

End saga_stops.

(** ** More of the Server loop *)

Section server_count.
Context (behavior : Server.ServerBehavior).
Import Server.

Lemma ProcessLoop_step_count gsp ev gsp' acts :
  ProcessLoop_step behavior gsp ev = (acts, Continue gsp') →
  reductions gsp'
  = (if counted ev then (reductions gsp + 1) mod two64 else reductions gsp)
  ∧ length acts = (if is_Direct ev then 2 else if counted ev then 1 else 0)%nat.
Proof.
  unfold ProcessLoop_step, dispatch.
  destruct ev as [ex|reason|msg| |message]; simpl; try done.
  - destruct (negb _); [done|]. simpl. intros [= <- <-]. done.
  - repeat case_match; intros; simplify_eq; done.
  - destruct (HandleDirect behavior message) as [reply [e|]];
      intros [= <- <-]; done.
Qed.

(** X21: what the loop counts. While the loop goes on, its reductions
    counter has gone up, modulo 2^64, by the number of mailbox messages and
    trapped graceful exits it received; direct requests are not counted.
    Each counted message started exactly one goroutine or stored exactly
    one reply of a synchronous call, and each direct request was answered
    once, so the loop did one action per counted message and two per
    direct request. *)
Theorem reductions_count gsp evs acts gsp' :
  0 ≤ reductions gsp < two64 →
  ProcessLoop behavior gsp evs = (acts, Continue gsp') →
  reductions gsp'
  = (reductions gsp + Z.of_nat (length (List.filter counted evs))) mod two64
  ∧ length acts
    = (length (List.filter counted evs)
       + 2 * length (List.filter is_Direct evs))%nat.
Proof.
  revert gsp acts. induction evs as [|ev evs IH]; intros gsp acts Hr; simpl.
  - intros [= <- <-]. simpl. rewrite Z.add_0_r.
    split; [|done]. symmetry. apply Z.mod_small. done.
  - destruct (ProcessLoop_step behavior gsp ev) as [acts1 [reason|gsp1|]] eqn:Hs;
      [done| |done].
    destruct (ProcessLoop behavior gsp1 evs) as [acts2 r] eqn:Hl.
    intros [= <- ->].
    destruct (ProcessLoop_step_count _ _ _ _ Hs) as [Hred Hlen].
    assert (0 ≤ reductions gsp1 < two64) as Hr1.
    { rewrite Hred. destruct (counted ev); [|done].
      apply Z.mod_pos_bound. by change two64 with 18446744073709551616. }
    destruct (IH gsp1 acts2 Hr1 Hl) as [IHred IHlen].
    rewrite IHred, Hred, length_app, Hlen, IHlen.
    destruct ev; simpl; split; try done; try lia.
    all: rewrite Zplus_mod_idemp_l; f_equal; lia.
Qed.

(** The from of a "$gen_call" is read exactly from the two shapes. *)
Lemma parse_from_shapes m from :
  parse_from m = Some from ↔ ∃ tag payload, m = call_shape from tag payload.
Proof.
  unfold call_shape. split.
  - unfold parse_from. intros Hp.
    destruct m as [|tag [|f [|payload [|? ?]]]]; try done.
    exists tag, payload. simpl in Hp.
    destruct f as [| | | | |ft| | | | | | | | | | | | | | |]; try done.
    destruct ft as [|a [|b [|? ?]]]; try done. simpl in Hp.
    destruct a; try done.
    destruct b as [| | |r| |?|v| | | | | | | | | | | | | |]; try done.
    + by simplify_eq.
    + destruct v as [|x [|y [|? ?]]]; try done. simpl in Hp.
      destruct x; try done. destruct y; try done.
      case_decide; [|done]. by simplify_eq.
  - intros (tag & payload & ->). by destruct from as [pid r []].
Qed.

(** X22: the calls the loop serves. A tuple tagged "$gen_call" reaches
    HandleCall exactly when it has three elements of which the second is
    {Pid, Ref} or {Pid, [alias, Ref]} (a proper list of the atom "alias"
    and the reference): then HandleCall is invoked once, on that from and
    the third element, and its status decides on the reply (to the pid, or
    to the alias) or the stop. Every other tuple tagged "$gen_call" is
    dropped: no callback is invoked, nothing is sent, nothing stops. *)
Theorem gen_call_served m :
  (∃ from tag payload,
     m = call_shape from tag payload
     ∧ run_task behavior (GenCall m)
       = CallHandleCall from payload
         :: SagaServer.call_reply from (HandleCall behavior from payload).1
              (HandleCall behavior from payload).2)
  ∨ ((∀ from tag payload, m ≠ call_shape from tag payload)
     ∧ run_task behavior (GenCall m) = []).
Proof.
  destruct (parse_from m) as [from|] eqn:Hp.
  - left. destruct (proj1 (parse_from_shapes m from) Hp) as (tag & payload & Hm).
    exists from, tag, payload. split; [done|].
    apply run_task_GenCall; [done|]. by rewrite Hm.
  - right. split.
    + intros from tag payload Hm.
      assert (parse_from m = Some from) as Hs
        by (apply parse_from_shapes; eauto).
      congruence.
    + unfold run_task. by rewrite Hp.
Qed.

End server_count.

(** ** The earlier revision *)

Section saga_legacy.
Context (D : SagaLegacy.Decoder).
Import SagaLegacy.

(** A request leaves the Saga as it was, or stores the transaction of a
    "$saga_next" that passed the four gates. *)
Lemma legacy_step now m state :
  (handleSagaRequest D now m state).1.1 = state
  ∨ ∃ tx,
      txs state !! tx_ID tx = None
      ∧ Saga.len (txs state) + 1 ≤ wrap_int64 (MaxTransactions (Options state))
      ∧ within_hop_limit tx
      ∧ (handleSagaRequest D now m state).1.1
        = set_txs (<[tx_ID tx := tx]> (txs state)) state.
Proof.
  unfold handleSagaRequest, within_hop_limit.
  repeat case_match; simpl; try (by left).
  right. eexists. split; [done|].
  repeat match goal with
         | H : _ && _ = false |- _ => apply andb_false_iff in H
         | H : (_ >? _) = false |- _ => apply Z.gtb_ltb in H as ?; clear H
         end.
  split; [|split; [|done]].
  - destruct (Z.gtb_spec (Saga.len (txs state) + 1)
                (wrap_int64 (MaxTransactions (Options state)))); [done|lia].
  - match goal with
    | H : (?a >? 0) = false ∨ (?b >? ?c) = false |- _ =>
        destruct (Z.gtb_spec a 0); destruct (Z.gtb_spec b c);
        destruct H; try done; lia
    end.
Qed.

Lemma legacy_exec_stays op state id tx :
  txs state !! id = Some tx → txs (exec D op state) !! id = Some tx.
Proof.
  intros Hin. destruct op as [now m|message]; simpl.
  - destruct (legacy_step now m state) as [->|(tx' & Hnew & _ & _ & ->)];
      [done|].
    simpl. rewrite lookup_insert_ne; [done|]. congruence.
  - unfold HandleDirect. by case_match.
Qed.

(** X23: the earlier revision never removes or replaces a transaction:
    whatever requests and direct messages a Saga of that revision
    receives, a transaction of its map stays there under its name, as it
    was stored. *)
Theorem legacy_transactions_stay ops state id tx :
  txs state !! id = Some tx → txs (run D ops state) !! id = Some tx.
Proof.
  revert state. induction ops as [|op ops IH]; intros state Hin; [done|].
  simpl. apply IH. by apply legacy_exec_stays.
Qed.

Lemma legacy_capacity (ms : list (Z * Saga.messageSaga)) state :
  Options (run D ((λ nm, OpRequest nm.1 nm.2) <$> ms) state) = Options state
  ∧ Saga.len (txs (run D ((λ nm, OpRequest nm.1 nm.2) <$> ms) state))
    ≤ Z.max (Saga.len (txs state))
        (wrap_int64 (MaxTransactions (Options state)))
  ∧ (wrap_int64 (MaxTransactions (Options state)) ≤ Saga.len (txs state) →
     txs (run D ((λ nm, OpRequest nm.1 nm.2) <$> ms) state) = txs state).
Proof.
  revert state. induction ms as [|[now m] ms IH]; intros state; simpl.
  - split; [done|]. split; [lia|done].
  - destruct (legacy_step now m state) as [->|(tx & Hnew & Hcap & _ & ->)];
      [apply IH|].
    destruct (IH (set_txs (<[tx_ID tx := tx]> (txs state)) state))
      as (Hopt & Hlen & Hfrozen).
    simpl in *.
    assert (Saga.len (<[tx_ID tx := tx]> (txs state))
            = Saga.len (txs state) + 1) as Hsize.
    { unfold Saga.len. rewrite map_size_insert_None by done. lia. }
    rewrite Hsize in *.
    split; [done|]. split; [|intros Hfull; lia].
    eapply Z.le_trans; [exact Hlen|lia].
Qed.

(** X24: the capacity gate of the earlier revision has no test for
    "unlimited". Over any sequence of requests the number of transactions
    a Saga of that revision holds never exceeds the larger of what it
    held at first and MaxTransactions read as an int; a Saga that holds
    that many or more admits no transaction at all; and so a Saga with
    the default MaxTransactions of 0, which the options document as
    unlimited, never admits any: its map stays as it is. *)
Theorem legacy_capacity_bound (ms : list (Z * Saga.messageSaga)) state :
  Saga.len (txs (run D ((λ nm, OpRequest nm.1 nm.2) <$> ms) state))
  ≤ Z.max (Saga.len (txs state))
      (wrap_int64 (MaxTransactions (Options state)))
  ∧ (wrap_int64 (MaxTransactions (Options state)) ≤ Saga.len (txs state) →
     txs (run D ((λ nm, OpRequest nm.1 nm.2) <$> ms) state) = txs state)
  ∧ (MaxTransactions (Options state) = 0 →
     txs (run D ((λ nm, OpRequest nm.1 nm.2) <$> ms) state) = txs state).
Proof.
  destruct (legacy_capacity ms state) as (_ & Hlen & Hfrozen).
  split; [done|]. split; [done|].
  intros Hzero. apply Hfrozen. rewrite Hzero.
  unfold Saga.len. change (wrap_int64 0) with 0. lia.
Qed.

Lemma legacy_exec_admitted op state id tx :
  txs (exec D op state) !! id = Some tx →
  txs state !! id = Some tx ∨ (tx_ID tx = id ∧ within_hop_limit tx).
Proof.
  destruct op as [now m|message]; simpl.
  - destruct (legacy_step now m state) as [->|(tx' & Hnew & _ & Hhop & ->)];
      [by left|].
    simpl. intros [[<- <-]|[_ Hin]]%lookup_insert_Some; [by right|by left].
  - unfold HandleDirect. case_match; by left.
Qed.

(** X25: the hop-limit gate of the earlier revision. Whatever requests
    and direct messages a Saga of that revision receives, every
    transaction it holds afterwards that it did not hold before is stored
    under its own name and is within its hop limit: its hop limit is 0,
    or the number of its parents plus one does not exceed it. *)
Theorem legacy_admitted_within_hop_limit ops state id tx :
  txs (run D ops state) !! id = Some tx →
  txs state !! id = Some tx ∨ (tx_ID tx = id ∧ within_hop_limit tx).
Proof.
  revert state. induction ops as [|op ops IH]; intros state Hin; [by left|].
  simpl in Hin. destruct (IH _ Hin) as [Hin'|?]; [|by right].
  by eapply legacy_exec_admitted.
Qed.

End saga_legacy.

(** ** More round trips *)

Section saga_more_round_trips.
Context (D : Saga.Decoder) (BA BB : Saga.SagaBehavior).
Import Saga.

(** However a saga_result is handled, its step id is not in the step
    index afterwards. *)
Lemma steps_after_result now ref m result sp :
  Request m = "$saga_result" →
  into_messageSagaResult D (Command m) = Some result →
  steps (handleSagaRequest D BA now ref m sp).1.1 !! res_Origin result = None.
Proof.
  intros Hr Hd. unfold handleSagaRequest. rewrite Hr. simpl. rewrite Hd.
  destruct (steps sp !! res_Origin result) as [p|] eqn:Hstep; simpl; [|done].
  repeat case_match; simpl; by rewrite lookup_delete_eq.
Qed.

(** X26: a step takes one result. Once a saga_result for a step id was
    handled, whatever came of it (the callback, a mismatch of the
    transaction id, an unknown step), every later saga_result with the
    same step id is ignored: the Saga's state stays as the first left it,
    no callback is invoked and the status is nil. *)
Theorem result_taken_once now ref now' ref' m m' result result' sp :
  Request m = "$saga_result" →
  Request m' = "$saga_result" →
  into_messageSagaResult D (Command m) = Some result →
  into_messageSagaResult D (Command m') = Some result' →
  res_Origin result' = res_Origin result →
  handleSagaRequest D BA now' ref' m' (handleSagaRequest D BA now ref m sp).1.1
  = ((handleSagaRequest D BA now ref m sp).1.1, [], Ret None).
Proof.
  intros Hr Hr' Hd Hd' Ho.
  pose proof (steps_after_result now ref m result sp Hr Hd) as Hnone.
  destruct (handleSagaRequest D BA now ref m sp) as [[sp1 eff] r].
  simpl in *. unfold handleSagaRequest.
  rewrite Hr'. simpl. by rewrite Hd', Ho, Hnone.
Qed.

(** X27: an interim result reaches the step and leaves it in place. Saga
    A sends a transaction of its map to Saga B with Next, B admits it and
    sends an interim result with SendInterim; A receives it. With a
    decoder that reads the tuples back, B's call goes to A and B is
    unchanged by the sending; A invokes HandleTxInterim with the
    transaction id, the step id of its Next and the interim value, and
    A's state is unchanged, so the step is still in the step index for
    the result to come. *)
Theorem interim_round_trip
    nowA ref id step spA pA txA nowB refB spB interim nowA' refA' :
  reads_back D →
  txs spA !! id = Some pA →
  heap spA !! pA = Some txA →
  tx_id txA = id →
  len (tx_steps txA) ≤ wrap_int64 (HopLimit (tx_options txA)) →
  1 ≤ step_Lifespan nowA txA →
  txs spB !! id = None →
  capacity_ok spB →
  ∃ message1 mB message2 mA,
    (Next nowA ref id step spA).1.2
    = [MonitorProcess (step_Saga step); Send (step_Saga step) message1]
    ∧ into_messageSaga D message1 = Some mB
    ∧ SendInterim None id interim (handleSagaRequest D BB nowB refB mB spB).1.1
      = ((handleSagaRequest D BB nowB refB mB spB).1.1,
         [Call (TPid (self spA)) message2], Ret None)
    ∧ into_messageSaga D message2 = Some mA
    ∧ handleSagaRequest D BA nowA' refA' mA (Next nowA ref id step spA).1.1
      = ((Next nowA ref id step spA).1.1,
         [Invoke (TxInterim id ref interim)], Ret None)
    ∧ steps (Next nowA ref id step spA).1.1 !! ref = Some pA.
Proof.
  intros (Hsaga & Hstep & Hresult) HtxA HheapA Hid Hhop Hlife HtxB HcapB.
  rewrite (Next_sends nowA ref id step spA pA txA HtxA HheapA Hhop Hlife).
  unfold saga_next. rewrite Hid.
  set (opts := [("HopLimit", Uint (HopLimit (tx_options txA)));
                ("Lifespan", Int64 (step_Lifespan nowA txA));
                ("TwoPhaseCommit", Bool (TwoPhaseCommit (tx_options txA)))]).
  set (command := Tuple [TRef ref; TRef id; step_Value step;
                         Pids (tx_parents txA); Map opts]).
  set (mB := {| Request := "$saga_next"; ms_Pid := self spA;
                Command := command |}).
  set (stepMessage := {| Origin := ref; TransactionID := id;
                         Value := step_Value step; Parents := tx_parents txA;
                         Options := list_to_map opts |}).
  pose proof (admission_stores_tx D BB nowB refB mB stepMessage spB eq_refl
                (Hstep _ _ _ _ _) HtxB HcapB) as Hadmit.
  simpl in Hadmit.
  assert (pA < length (heap spA))%nat as Hlt by by eapply lookup_lt_Some.
  eexists _, mB, _, _.
  split; [reflexivity|]. split; [apply Hsaga|].
  rewrite Hadmit. simpl.
  split.
  { unfold SendInterim. simpl.
    rewrite lookup_insert_eq, list_lookup_middle by done. simpl.
    unfold saga_reply. simpl. reflexivity. }
  split; [apply Hsaga|].
  split; [|by rewrite lookup_insert_eq].
  unfold handleSagaRequest. simpl. rewrite Hresult. simpl.
  rewrite lookup_insert_eq, list_lookup_insert_eq by done. simpl.
  by rewrite Hid.
Qed.

End saga_more_round_trips.

Section saga_job_exit.
Context (D : Saga.Decoder) (B : Saga.SagaBehavior).
Import Saga.

(** The job of the worker after StartJob and the worker's result. *)
Lemma job_settled pid ref id opts value sp w p tx now ref' from result :
  Worker (options sp) = Some w →
  txs sp !! id = Some p →
  heap sp !! p = Some tx →
  jobs (HandleCall D B now ref' from (messageSagaJobResult pid result)
          (StartJob (inl pid) ref None id opts value sp).1.1).1.1 !! pid
  = if TwoPhaseCommit (tx_options tx) then
      Some {| job_ID := ref; job_TXID := id; job_Value := value;
              job_options := {| job_Timeout := 0 |}; job_saga := self sp;
              job_commit := true; job_worker := pid; job_done := true |}
    else None.
Proof.
  intros Hw Htx Hheap.
  assert (p < length (heap sp))%nat as Hlt by by eapply lookup_lt_Some.
  unfold StartJob. rewrite Hw, Htx, Hheap. simpl.
  unfold HandleCall. simpl.
  rewrite lookup_insert_eq. simpl. rewrite Htx.
  rewrite list_lookup_insert_eq by done. simpl.
  destruct (TwoPhaseCommit (tx_options tx)) eqn:H2pc; simpl.
  - by rewrite lookup_insert_eq.
  - by rewrite lookup_delete_eq.
Qed.

(** X28: the exit of a worker that delivered its result. After StartJob
    and the worker's result, the worker exits with reason "normal" and
    the Saga, which traps exits, gets the exit message. Without two-phase
    commit the job is gone and the exit is ignored: no callback, nil
    status. With two-phase commit the job is still registered, so the
    Saga invokes HandleJobFailed with the job's id and the reason
    "no result", although the result was delivered. The Saga's state is
    unchanged either way. *)
Theorem worker_exit_after_result
    pid ref id opts value sp w p tx now ref' from result nowE refE :
  Worker (options sp) = Some w →
  txs sp !! id = Some p →
  heap sp !! p = Some tx →
  HandleInfo D B nowE refE (MessageExit pid "normal")
    (HandleCall D B now ref' from (messageSagaJobResult pid result)
       (StartJob (inl pid) ref None id opts value sp).1.1).1.1
  = ((HandleCall D B now ref' from (messageSagaJobResult pid result)
        (StartJob (inl pid) ref None id opts value sp).1.1).1.1,
     (if TwoPhaseCommit (tx_options tx)
      then [Invoke (JobFailed ref "no result")] else []),
     Ret (if TwoPhaseCommit (tx_options tx)
          then HandleJobFailed B
                 (HandleCall D B now ref' from
                    (messageSagaJobResult pid result)
                    (StartJob (inl pid) ref None id opts value sp).1.1).1.1
                 ref "no result"
          else None)).
Proof.
  intros Hw Htx Hheap.
  pose proof (job_settled pid ref id opts value sp w p tx now ref' from result
                Hw Htx Hheap) as Hjob.
  unfold HandleInfo, handleSagaExit. rewrite Hjob.
  by destruct (TwoPhaseCommit (tx_options tx)).
Qed.

End saga_job_exit.

(** ** The properties at work on the concrete Sagas *)

Lemma exit_of_worker_witness :
  Saga.jobs sagaBjob !! pidW = Some jobW
  ∧ Saga.HandleInfo decode quiet 200 refM (MessageExit pidW "panic") sagaBjob
    = (sagaBjob, [Saga.Invoke (Saga.JobFailed refJ "panic")], Saga.Ret None).
Proof.
  assert (Saga.jobs sagaBjob !! pidW = Some jobW) as Hjob by (vm_compute; reflexivity).
  split; [exact Hjob|].
  exact (exit_of_worker_invokes_HandleJobFailed
           decode quiet 200 refM pidW "panic" sagaBjob jobW Hjob
           ltac:(discriminate)).
Defined.

Lemma context_done_witness :
  Server.ProcessLoop_step quietServer
    {| Server.process := MkProcess pidB true; Server.reductions := 1;
       Server.currentFunction := "Server:loop" |} Server.ContextDone
  = ([Server.Terminate "kill"], Server.Return "kill")
  ∧ Server.ProcessLoop quietServer
      (Server.ProcessLoop_start (MkProcess pidB true))
      (some_events ++ Server.ContextDone :: [Server.Stop "late"])
    = ([Server.Go (Server.Info (Atom "hello"));
        Server.CallHandleDirect (sagaSetMaxTransactions 3);
        Server.DirectReply (Atom "ok") None] ++ [Server.Terminate "kill"],
       Server.Return "kill")
  ∧ GenServer.Loop
      ([GenServer.MailBox (TPid pidA) (Atom "hello"); GenServer.Direct]
       ++ GenServer.ContextDone :: [GenServer.Stop "late"])
    = ([], GenServer.Returned "kill").
Proof.
  apply (context_done_terminates_then_kill quietServer
           (Server.ProcessLoop_start (MkProcess pidB true)) some_events
           [Server.Stop "late"] _ _
           [GenServer.MailBox (TPid pidA) (Atom "hello"); GenServer.Direct]
           [GenServer.Stop "late"]).
  - vm_compute. reflexivity.
  - reflexivity.
Defined.

(** C8, as stated, fails on the older GenServer loop: after a message and
    a direct request its context is cancelled; it returns "kill" and has
    called Terminate not once. The same loop ended by a stop or by a
    graceful exit does call Terminate, with the reason it returns. *)
Lemma GenServer_killed_without_Terminate :
  GenServer.Loop
    [GenServer.MailBox (TPid pidA) (Atom "hello"); GenServer.Direct;
     GenServer.ContextDone]
  = ([], GenServer.Returned "kill")
  ∧ GenServer.Loop
      [GenServer.MailBox (TPid pidA) (Atom "hello"); GenServer.Stop "normal"]
    = (["normal"], GenServer.Returned "normal")
  ∧ GenServer.Loop
      [GenServer.MailBox (TPid pidA) (Atom "hello");
       GenServer.GracefulExit "shutdown"]
    = (["shutdown"], GenServer.Returned "shutdown").
Proof. repeat split; vm_compute; reflexivity. Qed.

Lemma GenServer_Terminate_witness :
  (GenServer.Loop
     [GenServer.MailBox (TPid pidA) (Atom "hello"); GenServer.Direct;
      GenServer.ContextDone; GenServer.Stop "late"]).2
  = GenServer.Returned "kill"
  ∧ ∃ pre ev rest,
      [GenServer.MailBox (TPid pidA) (Atom "hello"); GenServer.Direct;
       GenServer.ContextDone; GenServer.Stop "late"] = pre ++ ev :: rest
      ∧ (GenServer.Loop pre).2 = GenServer.Running
      ∧ ((ev = GenServer.ContextDone ∧ "kill" = "kill"
          ∧ (GenServer.Loop
               [GenServer.MailBox (TPid pidA) (Atom "hello"); GenServer.Direct;
                GenServer.ContextDone; GenServer.Stop "late"]).1 = [])
         ∨ ((ev = GenServer.Stop "kill" ∨ ev = GenServer.GracefulExit "kill")
            ∧ (GenServer.Loop
                 [GenServer.MailBox (TPid pidA) (Atom "hello");
                  GenServer.Direct; GenServer.ContextDone;
                  GenServer.Stop "late"]).1 = ["kill"])).
Proof.
  split; [reflexivity|].
  apply (GenServer_Terminate_unless_killed
           [GenServer.MailBox (TPid pidA) (Atom "hello"); GenServer.Direct;
            GenServer.ContextDone; GenServer.Stop "late"] "kill").
  reflexivity.
Defined.

Lemma no_parent_saga_witness :
  Saga.SendResult None refT (Str "done") sagaA
  = (sagaA, [], Saga.Ret (Some (Errorf "no parent saga")))
  ∧ Saga.SendInterim None refT (Str "done") sagaA
    = (sagaA, [], Saga.Ret (Some (Errorf "no parent saga")))
  ∧ Saga.SendResult None refS (Str "done") sagaA
    = (sagaA, [], Saga.Ret (Some (Errorf "unknown transaction")))
  ∧ Saga.SendInterim None refS (Str "done") sagaA
    = (sagaA, [], Saga.Ret (Some (Errorf "unknown transaction"))).
Proof.
  apply (no_parent_saga None refT refS (Str "done") sagaA 0%nat txA);
    vm_compute; reflexivity.
Defined.

(** C6, as stated, fails at a remaining lifespan of exactly 1 second: the
    transaction Saga B admitted has lifespan 60 and arrival 0, so at time
    59 one second remains; [Next] does not cancel: it monitors the target,
    sends saga_next and records the step. *)
Lemma Next_with_one_second_left_goes_on :
  Saga.txs sagaB !! refT = Some 0%nat
  ∧ Saga.heap sagaB !! 0%nat = Some txB
  ∧ Saga.step_Lifespan 59 txB = 1
  ∧ (Saga.Next 59 refS' refT stepC sagaB).1.2
    = [Saga.MonitorProcess (TPid pidB);
       Saga.Send (TPid pidB) (Saga.saga_next sagaB refS' txB stepC 1)]
  ∧ (Saga.Next 59 refS' refT stepC sagaB).2 = Saga.Ret (refS', None)
  ∧ Saga.steps (Saga.Next 59 refS' refT stepC sagaB).1.1 !! refS' = Some 0%nat.
Proof. repeat split; vm_compute; reflexivity. Qed.

Lemma Next_checks_remaining_lifespan_witness :
  Saga.step_Lifespan 60 txB = 0
  ∧ Saga.Next 60 refS' refT stepC sagaB
    = (sagaB,
       [Saga.Send (TPid pidB) (Saga.cancel_post sagaB txB "exceeded lifespan")],
       Saga.Ret (Saga.zeroRef,
                 Some (Errorf "exceeded lifespan. transaction canceled"))).
Proof.
  split; [vm_compute; reflexivity|].
  apply (Next_checks_remaining_lifespan 60 refS' refT stepC sagaB 0%nat txB);
    vm_compute; try reflexivity.
  discriminate.
Defined.



(** C1, as stated, fails on Saga D: with hop limit 2 on the chain A, B,
    C, D, the saga_next D receives from C carries the parents [B; A], so
    the hop is 3 and over the limit. D sends no saga_cancel: it monitors
    C, stores the transaction with the parents [C; B; A] and hop limit 2,
    and invokes HandleTxNew. *)
Lemma admission_has_no_hop_gate :
  Z.of_nat (length [pidB; pidA]) + 1 > 2
  ∧ admission_on_D.1.2
    = [Saga.MonitorProcess (TPid pidC); Saga.Invoke (Saga.TxNew refT (Str "x"))]
  ∧ admission_on_D.2 = Saga.Ret None
  ∧ Saga.txs admission_on_D.1.1 !! refT = Some 0%nat
  ∧ Saga.tx_parents <$> Saga.heap admission_on_D.1.1 !! 0%nat
    = Some [pidC; pidB; pidA]
  ∧ Saga.HopLimit ∘ Saga.tx_options <$> Saga.heap admission_on_D.1.1 !! 0%nat
    = Some 2.
Proof.
  split; [simpl; lia|].
  repeat split; vm_compute; reflexivity.
Qed.

(** C2, as stated, fails on Saga B, which holds [refT] with the step
    [refS'] to C: B receives the saga_cancel [CancelTransaction] posts;
    the transaction and its step stay where they are and the only effect
    is the call of HandleSagaInfo with the message: HandleTxCancel is not
    invoked and no cancel is sent to C. *)
Lemma saga_cancel_is_not_handled :
  Saga.txs sagaBC !! refT = Some 0%nat
  ∧ Saga.steps sagaBC !! refS' = Some 0%nat
  ∧ (Saga.CancelTransaction refT "stop" sagaBC).1.2
    = [Saga.Send (TPid pidB)
         (Tuple [Atom "$saga_cancel"; TPid pidB;
                 Tuple [TxID refT; TRef refS; Str "stop"]])]
  ∧ Saga.HandleInfo decode quiet 20 refM
      (Tuple [Atom "$saga_cancel"; TPid pidB;
              Tuple [TxID refT; TRef refS; Str "stop"]]) sagaBC
    = (sagaBC,
       [Saga.Invoke
          (Saga.SagaInfo
             (Tuple [Atom "$saga_cancel"; TPid pidB;
                     Tuple [TxID refT; TRef refS; Str "stop"]]))],
       Saga.Ret None).
Proof. repeat split; vm_compute; reflexivity. Qed.

Lemma cancel_is_posted_witness :
  Saga.CancelTransaction refT "stop" sagaBC
  = (sagaBC,
     [Saga.Send (TPid pidB)
        (Tuple [Atom "$saga_cancel"; TPid pidB;
                Tuple [TxID refT; TRef refS; Str "stop"]])],
     Saga.Ret ())
  ∧ (Saga.HandleInfo decode quiet 20 refM
       (Tuple [Atom "$saga_cancel"; TPid pidB;
               Tuple [TxID refT; TRef refS; Str "stop"]]) sagaBC).1.1 = sagaBC
  ∧ filter (λ e, outward e = true)
      (Saga.HandleInfo decode quiet 20 refM
         (Tuple [Atom "$saga_cancel"; TPid pidB;
                 Tuple [TxID refT; TRef refS; Str "stop"]]) sagaBC).1.2 = [].
Proof.
  assert (Saga.heap sagaBC !! 0%nat
          = Some (Saga.set_tx_steps {[ refS' := stepC ]} txB)) as Hheap
    by (vm_compute; reflexivity).
  exact (cancel_is_posted_and_changes_nothing decode quiet 20 refM refT "stop"
           sagaBC 0%nat _
           {| Saga.Request := "$saga_cancel"; Saga.ms_Pid := pidB;
              Saga.Command := Tuple [TxID refT; TRef refS; Str "stop"] |}
           ltac:(vm_compute; reflexivity) Hheap
           ltac:(vm_compute; reflexivity) ltac:(reflexivity)).
Defined.

Lemma wf_sagaBC : wf sagaBC.
Proof.
  unfold sagaBC, sagaB. do 2 apply wf_run.
  split; intros ?? Hin; vm_compute in Hin; discriminate.
Qed.

Lemma saga_result_witness :
  Saga.steps sagaBC !! refS' = Some 0%nat
  ∧ ∃ sp' tx',
      Saga.handleSagaRequest decode quiet 30 refM result_from_C sagaBC
      = (sp', [Saga.Invoke (Saga.TxResult refT refS' (Str "y-ok"))],
         Saga.Ret None)
      ∧ Saga.heap sp' !! 0%nat = Some tx'
      ∧ Saga.tx_steps tx' !! refS' = None
      ∧ Saga.steps sp' !! refS' = None
      ∧ Saga.txs sp' !! refT = Some 0%nat.
Proof.
  assert (Saga.steps sagaBC !! refS' = Some 0%nat) as Hstep
    by (vm_compute; reflexivity).
  split; [exact Hstep|].
  pose proof (saga_result_settles_the_step decode quiet 30 refM result_from_C
                {| Saga.res_TransactionID := refT; Saga.res_Origin := refS';
                   Saga.Result := Str "y-ok" |}
                sagaBC wf_sagaBC eq_refl eq_refl) as H.
  simpl Saga.res_Origin in H. rewrite Hstep in H.
  destruct H as (tx & Htx & H).
  assert (Saga.heap sagaBC !! 0%nat
          = Some (Saga.set_tx_steps {[ refS' := stepC ]} txB)) as Hheap
    by (vm_compute; reflexivity).
  rewrite Hheap in Htx. injection Htx as <-.
  rewrite decide_True in H by reflexivity.
  destruct H as (sp' & tx' & Hout & Hheap' & Hdel & _ & Hsteps & Htxs).
  exists sp', tx'. split; [exact Hout|]. split; [exact Hheap'|].
  split; [exact Hdel|]. split.
  - rewrite Hsteps. apply lookup_delete_eq.
  - rewrite Htxs. vm_compute. reflexivity.
Defined.

(** C3, as stated, fails on Saga B: it admitted [refT] from A and sent it
    on to C under step [refS']; no cancel was received or sent, and the
    result of C is still awaited, so the completion predicate is false.
    A SendResult whose call succeeds removes the transaction all the
    same. *)
Lemma removed_with_a_step_pending :
  sagaBC
  = Saga.run decode quiet
      [Saga.OpHandleInfo 100 refM (next_message pidA refS [] 2);
       Saga.OpNext 10 refS' refT stepC] (saga_of pidB 0)
  ∧ Saga.txs sagaBC !! refT = Some 0%nat
  ∧ Saga.checkTxDone sagaBC <$> Saga.heap sagaBC !! 0%nat
    = Some (Saga.Ret false)
  ∧ (Saga.SendResult None refT (Str "x-ok") sagaBC).2 = Saga.Ret None
  ∧ Saga.txs (Saga.SendResult None refT (Str "x-ok") sagaBC).1.1 !! refT = None.
Proof. repeat split; vm_compute; reflexivity. Qed.

Lemma removed_only_by_SendResult_witness :
  Saga.txs
    (Saga.exec decode quiet (Saga.OpSendResult None refT (Str "x-ok")) sagaBC).1
    !! refT = None
  ∧ ∃ result p tx parent parents,
      Saga.OpSendResult None refT (Str "x-ok") = Saga.OpSendResult None refT result
      ∧ Saga.txs sagaBC !! refT = Some p ∧ Saga.heap sagaBC !! p = Some tx
      ∧ Saga.tx_parents tx = parent :: parents
      ∧ Saga.TwoPhaseCommit (Saga.tx_options tx) = false
      ∧ (Saga.exec decode quiet (Saga.OpSendResult None refT (Str "x-ok"))
           sagaBC).2
        = [Saga.Call (TPid parent)
             (Saga.saga_reply "$saga_result" sagaBC tx result)].
Proof.
  assert (Saga.txs
            (Saga.exec decode quiet (Saga.OpSendResult None refT (Str "x-ok"))
               sagaBC).1 !! refT = None) as Hout by (vm_compute; reflexivity).
  split; [exact Hout|].
  apply (removed_only_by_SendResult decode quiet
           (Saga.OpSendResult None refT (Str "x-ok")) sagaBC refT);
    [|exact Hout].
  exists 0%nat. vm_compute. reflexivity.
Defined.

Lemma saga_traps_graceful_exit_witness :
  TrapExit (MkProcess pidB false) = false
  ∧ (Saga.Init (Some initSaga_untrap) (MkProcess pidB false) []).1.1
    = SetTrapExit true (MkProcess pidB false)
  ∧ (Saga.Init (Some initSaga_untrap) (MkProcess pidB false) []).2 = None
  ∧ Server.ProcessInit
      (Some (λ p a, ((Saga.Init (Some initSaga_untrap) p a).1.1,
                     (Saga.Init (Some initSaga_untrap) p a).2)))
      (MkProcess pidB false) []
    = (Some (SetTrapExit true (MkProcess pidB false)), None)
  ∧ TrapExit (Saga.Init (Some initSaga_untrap) (MkProcess pidB false) []).1.1
    = true
  ∧ (∃ gsp'',
       Server.ProcessLoop_step quietServer
         {| Server.process := MkProcess pidB true; Server.reductions := 1;
            Server.currentFunction := "Server:loop" |}
         (Server.GracefulExit {| ex_From := pidW; ex_Reason := "panic" |})
       = ([Server.Go (Server.Info (MessageExit pidW "panic"))],
          Server.Continue gsp''))
  ∧ Server.run_task quietServer (Server.Info (MessageExit pidW "panic"))
    = Server.CallHandleInfo (MessageExit pidW "panic")
      :: Server.after_status
           (Server.HandleInfo quietServer (MessageExit pidW "panic")).
Proof.
  split; [reflexivity|].
  apply (saga_traps_graceful_exit initSaga_untrap quietServer
           (MkProcess pidB false) []
           {| Saga.self := pidB;
              Saga.options := {| Saga.MaxTransactions := 0;
                                 Saga.Worker := None |};
              Saga.heap := []; Saga.txs := ∅; Saga.steps := ∅;
              Saga.jobs := ∅ |}
           (MkProcess pidB false)
           {| Saga.MaxTransactions := 0; Saga.Worker := None |}
           some_events
           [Server.Go (Server.Info (Atom "hello"));
            Server.CallHandleDirect (sagaSetMaxTransactions 3);
            Server.DirectReply (Atom "ok") None]
           {| Server.process := MkProcess pidB true; Server.reductions := 1;
              Server.currentFunction := "Server:loop" |}
           {| ex_From := pidW; ex_Reason := "panic" |});
    vm_compute; reflexivity.
Defined.

Lemma step_index_sound_witness :
  wf (Saga.run decode quiet
        [Saga.OpHandleInfo 100 refM (next_message pidA refS [] 2);
         Saga.OpNext 10 refS' refT stepC;
         Saga.OpHandleInfo 30 refM
           (Tuple [Atom "$saga_result"; TPid pidC;
                   Tuple [TRef refT; TRef refS'; Str "y-ok"]])]
        (saga_of pidB 0)).
Proof.
  apply (step_index_sound_on_every_run decode quiet (initSaga 0)
           (MkProcess pidB false) [] (MkProcess pidB true)).
  - intros sp0 p0 a Hwf. exact Hwf.
  - vm_compute. reflexivity.
Defined.

Lemma capacity_gate_witness :
  Saga.handleSagaRequest decode quiet 100 refM
    {| Saga.Request := "$saga_next"; Saga.ms_Pid := pidC;
       Saga.Command :=
         Tuple [TRef refS'; TRef refM; Str "z"; Pids []; Map []] |}
    (Saga.set_options
       {| Saga.MaxTransactions := 1; Saga.Worker := None |} sagaB)
  = (Saga.set_options {| Saga.MaxTransactions := 1; Saga.Worker := None |} sagaB,
     [Saga.Send (TPid pidC)
        (Tuple [Atom "$saga_cancel"; TPid pidB;
                Tuple [TRef refS'; TRef refM; Str "exceed_tx_limit"]])],
     Saga.Ret None)
  ∧ ∀ sp0, Saga.MaxTransactions (Saga.options sp0) = 0 → capacity_ok sp0.
Proof.
  apply (capacity_gate decode quiet 100 refM
           {| Saga.Request := "$saga_next"; Saga.ms_Pid := pidC;
              Saga.Command :=
                Tuple [TRef refS'; TRef refM; Str "z"; Pids []; Map []] |}
           {| Saga.Origin := refS'; Saga.TransactionID := refM;
              Saga.Value := Str "z"; Saga.Parents := [];
              Saga.Options := list_to_map [] |}
           (Saga.set_options
              {| Saga.MaxTransactions := 1; Saga.Worker := None |} sagaB));
    vm_compute; reflexivity.
Defined.

Lemma admitted_parents_witness :
  ∃ p tx,
    Saga.txs (Saga.handleSagaRequest decode quiet 100 refM next_from_C
                (saga_of pidD 0)).1.1 !! Saga.TransactionID step_from_C
    = Some p
    ∧ Saga.heap (Saga.handleSagaRequest decode quiet 100 refM next_from_C
                   (saga_of pidD 0)).1.1 !! p = Some tx
    ∧ Saga.tx_parents tx = Saga.ms_Pid next_from_C :: Saga.Parents step_from_C
    ∧ length (Saga.tx_parents tx) = S (length (Saga.Parents step_from_C))
    ∧ Saga.tx_options tx = Saga.txOptions_of (Saga.Options step_from_C)
    ∧ Saga.txOptions_of ∅
      = {| Saga.HopLimit := 65535; Saga.Lifespan := 60;
           Saga.TwoPhaseCommit := false |}.
Proof.
  apply (admitted_parents_grow_by_one decode quiet 100 refM next_from_C
           step_from_C (saga_of pidD 0)); try (vm_compute; reflexivity).
  unfold capacity_ok. vm_compute. intros [H _]. discriminate H.
Defined.

Lemma hop_limit_witness :
  (∃ sp' tx,
     Saga.handleSagaRequest decode quiet 100 refM next_from_C (saga_of pidD 0)
     = (sp', [Saga.MonitorProcess (TPid pidC);
              Saga.Invoke (Saga.TxNew refT (Str "x"))],
        Saga.Ret None)
     ∧ Saga.txs sp' !! refT = Some 0%nat
     ∧ Saga.heap sp' !! 0%nat = Some tx
     ∧ Saga.tx_parents tx = [pidC; pidB; pidA]
     ∧ Saga.tx_options tx = txOptions 2 60)
  ∧ Saga.Next 10 refS' refT stepC sagaB_full
    = (sagaB_full, [], Saga.Ret (Saga.zeroRef, Some (Errorf "exceeded hop limit"))).
Proof.
  destruct (hop_limit_is_checked_by_Next_not_at_admission decode quiet 100 refM
              next_from_C step_from_C (saga_of pidD 0))
    as (Hadmit & _ & Hnext).
  - reflexivity.
  - reflexivity.
  - vm_compute. reflexivity.
  - unfold capacity_ok. vm_compute. intros [H _]. discriminate H.
  - split; [exact Hadmit|].
    apply (Hnext 10 refS' refT stepC sagaB_full 0%nat
             (Saga.set_tx_steps {[ refS' := stepC ]} txB0)).
    + vm_compute. reflexivity.
    + vm_compute. reflexivity.
    + vm_compute. reflexivity.
Defined.

(** ** More properties at work on the concrete Sagas *)

Lemma job_removed_witness :
  Saga.jobs
    (Saga.exec decode quiet
       (Saga.OpHandleCall 200 refM fromW (messageSagaJobResult pidW (Str "r")))
       sagaBjob).1 !! pidW = None
  ∧ ∃ now ref from result job,
      Saga.OpHandleCall 200 refM fromW (messageSagaJobResult pidW (Str "r"))
      = Saga.OpHandleCall now ref from (messageSagaJobResult pidW result)
      ∧ Saga.jobs sagaBjob !! pidW = Some job
      ∧ (Saga.txs sagaBjob !! Saga.job_TXID job = None
         ∨ ∃ p tx, Saga.txs sagaBjob !! Saga.job_TXID job = Some p
                   ∧ Saga.heap sagaBjob !! p = Some tx
                   ∧ Saga.TwoPhaseCommit (Saga.tx_options tx) = false).
Proof.
  assert (Saga.jobs
            (Saga.exec decode quiet
               (Saga.OpHandleCall 200 refM fromW
                  (messageSagaJobResult pidW (Str "r"))) sagaBjob).1 !! pidW
          = None) as Hout by (vm_compute; reflexivity).
  split; [exact Hout|].
  apply (job_removed_only_by_its_result decode quiet
           (Saga.OpHandleCall 200 refM fromW
              (messageSagaJobResult pidW (Str "r"))) sagaBjob pidW);
    [|exact Hout].
  exists jobW. vm_compute. reflexivity.
Defined.

Lemma StartJob_error_witness :
  (Saga.StartJob (inl pidW) refJ (Some (Errorf "noproc")) refT
     {| Saga.job_Timeout := 5 |} (Str "work") sagaB).1.1 = sagaB
  ∧ Saga.zeroRef = Saga.zeroRef
  ∧ (∀ pid w, @inl Pid error pidW = inl pid →
              Saga.Worker (Saga.options sagaB) = Some w →
              is_Some (Saga.txs sagaB !! refT) →
              ∃ job,
                (Saga.StartJob (inl pidW) refJ (Some (Errorf "noproc")) refT
                   {| Saga.job_Timeout := 5 |} (Str "work") sagaB).1.2
                = [Saga.Spawn w; Saga.Link pid; Saga.CastJobStart pid job;
                   Saga.Kill pid]).
Proof.
  apply (StartJob_error_changes_nothing (inl pidW) refJ (Some (Errorf "noproc"))
           refT {| Saga.job_Timeout := 5 |} (Str "work") sagaB Saga.zeroRef
           (Errorf "noproc")).
  vm_compute. reflexivity.
Defined.

Lemma wf_saga_of pid max : wf (saga_of pid max).
Proof. split; intros ?? Hin; vm_compute in Hin; discriminate. Qed.

Lemma transactions_keyed_witness :
  Saga.txs sagaBC !! refT = Some 0%nat
  ∧ Saga.heap sagaBC !! 0%nat
    = Some (Saga.set_tx_steps {[ refS' := stepC ]} txB)
  ∧ Saga.tx_id (Saga.set_tx_steps {[ refS' := stepC ]} txB) = refT.
Proof.
  assert (Saga.txs sagaBC !! refT = Some 0%nat) as Htx
    by (vm_compute; reflexivity).
  assert (Saga.heap sagaBC !! 0%nat
          = Some (Saga.set_tx_steps {[ refS' := stepC ]} txB)) as Hheap
    by (vm_compute; reflexivity).
  split; [exact Htx|]. split; [exact Hheap|].
  apply (transactions_keyed_by_their_id decode quiet
           [Saga.OpHandleInfo 100 refM (next_message pidA refS [] 2);
            Saga.OpNext 10 refS' refT stepC]
           (saga_of pidB 0) refT 0%nat
           (Saga.set_tx_steps {[ refS' := stepC ]} txB)).
  - apply wf_saga_of.
  - intros id0 p0 tx0 Hin. vm_compute in Hin. discriminate.
  - exact Htx.
  - exact Hheap.
Defined.

Lemma admitted_transaction_witness :
  ∃ tx e eff,
    Saga.heap (Saga.handleSagaRequest decode quiet 1700000000 refM next_from_C
                 (saga_of pidD 0)).1.1 !! length (Saga.heap (saga_of pidD 0))
    = Some tx
    ∧ Saga.tx_arrival tx = 0
    ∧ Saga.Next 1700000001 refS' (Saga.TransactionID step_from_C) stepC
        (Saga.handleSagaRequest decode quiet 1700000000 refM next_from_C
           (saga_of pidD 0)).1.1
      = ((Saga.handleSagaRequest decode quiet 1700000000 refM next_from_C
            (saga_of pidD 0)).1.1, eff, Saga.Ret (Saga.zeroRef, Some e))
    ∧ (eff = []
       ∨ eff = [Saga.Send (TPid (Saga.self (saga_of pidD 0)))
                  (Saga.cancel_post (saga_of pidD 0) tx "exceeded lifespan")]).
Proof.
  apply (admitted_transaction_cannot_be_forwarded decode quiet 1700000000 refM
           next_from_C step_from_C (saga_of pidD 0) 1700000001 refS' stepC);
    try (vm_compute; reflexivity).
  - unfold capacity_ok. vm_compute. intros [H _]. discriminate H.
  - vm_compute. discriminate.
Defined.

Lemma result_round_trip_witness :
  ∃ message1 mB spB1 message2 mA spA2,
    (Saga.Next 10 refS' refT stepToC sagaB).1.2
    = [Saga.MonitorProcess (TPid pidC); Saga.Send (TPid pidC) message1]
    ∧ (Saga.Next 10 refS' refT stepToC sagaB).2 = Saga.Ret (refS', None)
    ∧ Saga.into_messageSaga decode message1 = Some mB
    ∧ Saga.handleSagaRequest decode quiet 11 refM mB (saga_of pidC 0)
      = (spB1,
         [Saga.MonitorProcess (TPid pidB);
          Saga.Invoke (Saga.TxNew refT (Str "y"))],
         Saga.Ret None)
    ∧ (Saga.SendResult None refT (Str "y-ok") spB1).1.2
      = [Saga.Call (TPid pidB) message2]
    ∧ (Saga.SendResult None refT (Str "y-ok") spB1).2 = Saga.Ret None
    ∧ Saga.into_messageSaga decode message2 = Some mA
    ∧ Saga.handleSagaRequest decode quiet 12 refJ mA
        (Saga.Next 10 refS' refT stepToC sagaB).1.1
      = (spA2, [Saga.Invoke (Saga.TxResult refT refS' (Str "y-ok"))],
         Saga.Ret None)
    ∧ Saga.steps spA2 !! refS' = None
    ∧ Saga.txs spA2 !! refT = Some 0%nat.
Proof.
  apply (result_round_trip decode quiet quiet 10 refS' refT stepToC sagaB
           0%nat txB 11 refM (saga_of pidC 0) (Str "y-ok") 12 refJ).
  - apply reads_back_decode.
  - vm_compute. reflexivity.
  - vm_compute. reflexivity.
  - reflexivity.
  - vm_compute. discriminate.
  - vm_compute. discriminate.
  - vm_compute. reflexivity.
  - unfold capacity_ok. vm_compute. intros [H _]. discriminate H.
Defined.

Lemma job_round_trip_witness :
  (Saga.StartJob (inl pidW) refJ None refT {| Saga.job_Timeout := 5 |}
     (Str "work") sagaB).2 = Saga.Ret (refJ, None)
  ∧ (Saga.HandleCall decode quiet 200 refM fromW
       (messageSagaJobResult pidW (Str "r"))
       (Saga.StartJob (inl pidW) refJ None refT {| Saga.job_Timeout := 5 |}
          (Str "work") sagaB).1.1).1.2
    = [Saga.Invoke (Saga.JobResult refJ (Str "r"))]
  ∧ (∃ s, (Saga.HandleCall decode quiet 200 refM fromW
             (messageSagaJobResult pidW (Str "r"))
             (Saga.StartJob (inl pidW) refJ None refT
                {| Saga.job_Timeout := 5 |} (Str "work") sagaB).1.1).2
          = Saga.Ret (Nil, s))
  ∧ (Saga.HandleCall decode quiet 200 refM fromW
       (messageSagaJobResult pidW (Str "r"))
       (Saga.StartJob (inl pidW) refJ None refT {| Saga.job_Timeout := 5 |}
          (Str "work") sagaB).1.1).1.1 = sagaB.
Proof.
  exact (job_round_trip decode quiet pidW refJ refT {| Saga.job_Timeout := 5 |}
           (Str "work") sagaB (Saga.worker "worker") 0%nat txB 200 refM fromW
           (Str "r")
           ltac:(vm_compute; reflexivity) ltac:(vm_compute; reflexivity)
           ltac:(vm_compute; reflexivity) ltac:(vm_compute; reflexivity)
           ltac:(vm_compute; reflexivity)).
Defined.

Lemma never_panics_witness :
  panics decode quiet
    (Saga.OpHandleCall 30 refM fromW
       (Tuple [Atom "$saga_result"; TPid pidC;
               Tuple [TRef refT; TRef refS'; Str "y-ok"]]))
    (Saga.run decode quiet
       [Saga.OpHandleInfo 100 refM (next_message pidA refS [] 2);
        Saga.OpNext 10 refS' refT stepC] (saga_of pidB 0))
  = false.
Proof.
  apply (sound_Saga_never_panics decode quiet
           [Saga.OpHandleInfo 100 refM (next_message pidA refS [] 2);
            Saga.OpNext 10 refS' refT stepC]
           (Saga.OpHandleCall 30 refM fromW
              (Tuple [Atom "$saga_result"; TPid pidC;
                      Tuple [TRef refT; TRef refS'; Str "y-ok"]]))
           (saga_of pidB 0)).
  apply wf_saga_of.
Defined.

Lemma options_across_a_hop_witness :
  ∃ message mB tx,
    (Saga.Next 10 refS' refT stepToC sagaB).1.2
    = [Saga.MonitorProcess (TPid pidC); Saga.Send (TPid pidC) message]
    ∧ Saga.into_messageSaga decode message = Some mB
    ∧ Saga.txs (Saga.handleSagaRequest decode quiet 11 refM mB
                  (saga_of pidC 0)).1.1 !! refT
      = Some (length (Saga.heap (saga_of pidC 0)))
    ∧ Saga.heap (Saga.handleSagaRequest decode quiet 11 refM mB
                   (saga_of pidC 0)).1.1
      !! length (Saga.heap (saga_of pidC 0)) = Some tx
    ∧ Saga.HopLimit (Saga.tx_options tx) = 65535
    ∧ Saga.Lifespan (Saga.tx_options tx) = Saga.step_Lifespan 10 txB
    ∧ Saga.TwoPhaseCommit (Saga.tx_options tx)
      = Saga.TwoPhaseCommit (Saga.tx_options txB)
    ∧ Saga.tx_parents tx = Saga.self sagaB :: Saga.tx_parents txB
    ∧ Saga.tx_origin tx = refS'.
Proof.
  apply (options_across_a_hop decode quiet 10 refS' refT stepToC sagaB
           0%nat txB 11 refM (saga_of pidC 0)).
  - apply reads_back_decode.
  - vm_compute. reflexivity.
  - vm_compute. reflexivity.
  - reflexivity.
  - vm_compute. discriminate.
  - vm_compute. discriminate.
  - vm_compute. reflexivity.
  - unfold capacity_ok. vm_compute. intros [H _]. discriminate H.
Defined.

Lemma own_saga_next_witness :
  ∃ message m,
    (Saga.StartTransaction refT 100 100 refS "t" (txOptions 2 60) (Str "x")
       (Saga.set_options {| Saga.MaxTransactions := 1; Saga.Worker := None |}
          (saga_of pidA 0))).1.2
    = [Saga.MonitorProcess (TPid pidA); Saga.Send (TPid pidA) message]
    ∧ Saga.into_messageSaga decode message = Some m
    ∧ Saga.handleSagaRequest decode quiet 101 refM m
        (Saga.StartTransaction refT 100 100 refS "t" (txOptions 2 60) (Str "x")
           (Saga.set_options
              {| Saga.MaxTransactions := 1; Saga.Worker := None |}
              (saga_of pidA 0))).1.1
      = ((Saga.StartTransaction refT 100 100 refS "t" (txOptions 2 60)
            (Str "x")
            (Saga.set_options
               {| Saga.MaxTransactions := 1; Saga.Worker := None |}
               (saga_of pidA 0))).1.1,
         [Saga.Send (TPid pidA)
            (Tuple [Atom "$saga_cancel"; TPid pidA;
                    Tuple [TRef refS; TRef refT; Str "exceed_tx_limit"]])],
         Saga.Ret None).
Proof.
  destruct (own_saga_next decode quiet refT 100 100 refS "t" (txOptions 2 60)
              (Str "x")
              (Saga.set_options
                 {| Saga.MaxTransactions := 1; Saga.Worker := None |}
                 (saga_of pidA 0)) 101 refM)
    as (message & m & Heff & Hm & _ & _ & Hrefused).
  - apply reads_back_decode.
  - vm_compute. discriminate.
  - vm_compute. discriminate.
  - exists message, m. split; [exact Heff|]. split; [exact Hm|].
    apply Hrefused. unfold capacity_ok. intros Hok. apply Hok.
    split; vm_compute; reflexivity.
Defined.

Lemma undecodable_command_witness :
  SagaServer.info_task decode quiet 100 refM
    (Tuple [Atom "$saga_next"; TPid pidA; Atom "garbage"]) sagaB
  = (sagaB, [], [Server.PushStop "Unsupported request"])
  ∧ SagaServer.call_task decode quiet 100 refM fromW
      (Tuple [Atom "$saga_next"; TPid pidA; Atom "garbage"]) sagaB
    = (sagaB, [], [Server.PushStop "Unsupported request"])
  ∧ Server.ProcessLoop_step quietServer
      (Server.ProcessLoop_start (MkProcess pidB true))
      (Server.Stop "Unsupported request")
    = ([Server.Terminate "Unsupported request"],
       Server.Return "Unsupported request").
Proof.
  apply (undecodable_command_stops_the_Saga decode quiet quietServer
           [Atom "$saga_next"; TPid pidA; Atom "garbage"]
           {| Saga.Request := "$saga_next"; Saga.ms_Pid := pidA;
              Saga.Command := Atom "garbage" |}
           100 refM fromW sagaB
           (Server.ProcessLoop_start (MkProcess pidB true))).
  - reflexivity.
  - left. split; reflexivity.
Defined.

Lemma unhandled_request_witness :
  SagaServer.call_task decode quiet 20 refM fromW
    (Tuple [Atom "$saga_cancel"; TPid pidB;
            Tuple [TxID refT; TRef refS; Str "stop"]]) sagaBC
  = (sagaBC, [], [Server.PushStop "unsupported"])
  ∧ SagaServer.info_task decode quiet 20 refM
      (Tuple [Atom "$saga_cancel"; TPid pidB;
              Tuple [TxID refT; TRef refS; Str "stop"]]) sagaBC
    = (sagaBC,
       [Saga.Invoke
          (Saga.SagaInfo
             (Tuple [Atom "$saga_cancel"; TPid pidB;
                     Tuple [TxID refT; TRef refS; Str "stop"]]))],
       []).
Proof.
  apply (unhandled_request_stops_the_Saga_on_a_call decode quiet
           [Atom "$saga_cancel"; TPid pidB;
            Tuple [TxID refT; TRef refS; Str "stop"]]
           {| Saga.Request := "$saga_cancel"; Saga.ms_Pid := pidB;
              Saga.Command := Tuple [TxID refT; TRef refS; Str "stop"] |}
           20 refM fromW sagaBC);
    [reflexivity|discriminate|discriminate|discriminate].
Defined.

Lemma mismatched_result_witness :
  SagaServer.call_task decode quiet 30 refM fromW
    (Tuple [Atom "$saga_result"; TPid pidC;
            Tuple [TRef refM; TRef refS'; Str "y-ok"]]) sagaBC
  = (Saga.set_steps (delete refS' (Saga.steps sagaBC)) sagaBC, [],
     [Server.PushStop "transaction id mismatch in saga result"])
  ∧ SagaServer.info_task decode quiet 30 refM
      (Tuple [Atom "$saga_result"; TPid pidC;
              Tuple [TRef refM; TRef refS'; Str "y-ok"]]) sagaBC
    = (Saga.set_steps (delete refS' (Saga.steps sagaBC)) sagaBC, [],
       [Server.PushStop "transaction id mismatch in saga result"]).
Proof.
  apply (mismatched_result_stops_the_Saga decode quiet
           [Atom "$saga_result"; TPid pidC;
            Tuple [TRef refM; TRef refS'; Str "y-ok"]]
           {| Saga.Request := "$saga_result"; Saga.ms_Pid := pidC;
              Saga.Command := Tuple [TRef refM; TRef refS'; Str "y-ok"] |}
           {| Saga.res_TransactionID := refM; Saga.res_Origin := refS';
              Saga.Result := Str "y-ok" |}
           0%nat (Saga.set_tx_steps {[ refS' := stepC ]} txB)
           30 refM fromW sagaBC); try (vm_compute; reflexivity).
  discriminate.
Defined.

Lemma reductions_count_witness :
  Server.ProcessLoop quietServer
    (Server.ProcessLoop_start (MkProcess pidB true))
    (some_events
     ++ [Server.GracefulExit {| ex_From := pidW; ex_Reason := "panic" |}])
  = ([Server.Go (Server.Info (Atom "hello"));
      Server.CallHandleDirect (sagaSetMaxTransactions 3);
      Server.DirectReply (Atom "ok") None;
      Server.Go (Server.Info (MessageExit pidW "panic"))],
     Server.Continue
       {| Server.process := MkProcess pidB true; Server.reductions := 2;
          Server.currentFunction := "Server:loop" |})
  ∧ 2 = (0 + Z.of_nat 2) mod two64
  ∧ 4%nat = (2 + 2 * 1)%nat.
Proof.
  assert (Server.ProcessLoop quietServer
            (Server.ProcessLoop_start (MkProcess pidB true))
            (some_events
             ++ [Server.GracefulExit {| ex_From := pidW; ex_Reason := "panic" |}])
          = ([Server.Go (Server.Info (Atom "hello"));
              Server.CallHandleDirect (sagaSetMaxTransactions 3);
              Server.DirectReply (Atom "ok") None;
              Server.Go (Server.Info (MessageExit pidW "panic"))],
             Server.Continue
               {| Server.process := MkProcess pidB true; Server.reductions := 2;
                  Server.currentFunction := "Server:loop" |})) as Hloop
    by (vm_compute; reflexivity).
  split; [exact Hloop|].
  apply (reductions_count quietServer
           (Server.ProcessLoop_start (MkProcess pidB true))
           (some_events
            ++ [Server.GracefulExit {| ex_From := pidW; ex_Reason := "panic" |}])
           _ _ ltac:(vm_compute; split; [discriminate|reflexivity]) Hloop).
Defined.

Lemma legacy_transactions_stay_witness :
  SagaLegacy.txs
    (SagaLegacy.run decodeLegacy
       [SagaLegacy.OpRequest 110 (legacy_next "t1" [pidC])] (sagaL 5))
    !! "t1" = Some (txL "t1" [pidC])
  ∧ SagaLegacy.txs
      (SagaLegacy.run decodeLegacy
         [SagaLegacy.OpRequest 120 (legacy_next "t1" []);
          SagaLegacy.OpDirect (sagaSetMaxTransactions 0);
          SagaLegacy.OpRequest 130 (legacy_next "t2" [])]
         (SagaLegacy.run decodeLegacy
            [SagaLegacy.OpRequest 110 (legacy_next "t1" [pidC])] (sagaL 5)))
    !! "t1" = Some (txL "t1" [pidC]).
Proof.
  assert (SagaLegacy.txs
            (SagaLegacy.run decodeLegacy
               [SagaLegacy.OpRequest 110 (legacy_next "t1" [pidC])] (sagaL 5))
            !! "t1" = Some (txL "t1" [pidC])) as Hin
    by (vm_compute; reflexivity).
  split; [exact Hin|].
  exact (legacy_transactions_stay decodeLegacy
           [SagaLegacy.OpRequest 120 (legacy_next "t1" []);
            SagaLegacy.OpDirect (sagaSetMaxTransactions 0);
            SagaLegacy.OpRequest 130 (legacy_next "t2" [])]
           _ "t1" (txL "t1" [pidC]) Hin).
Defined.

Lemma legacy_hop_limit_witness :
  SagaLegacy.txs
    (SagaLegacy.run decodeLegacy
       [SagaLegacy.OpRequest 110 (legacy_next "t1" [pidC]);
        SagaLegacy.OpRequest 111 (legacy_next "t2" [pidC; pidD])] (sagaL 5))
    !! "t1" = Some (txL "t1" [pidC])
  ∧ SagaLegacy.txs
      (SagaLegacy.run decodeLegacy
         [SagaLegacy.OpRequest 110 (legacy_next "t1" [pidC]);
          SagaLegacy.OpRequest 111 (legacy_next "t2" [pidC; pidD])] (sagaL 5))
    !! "t2" = None
  ∧ (SagaLegacy.txs (sagaL 5) !! "t1" = Some (txL "t1" [pidC])
     ∨ (SagaLegacy.tx_ID (txL "t1" [pidC]) = "t1"
        ∧ within_hop_limit (txL "t1" [pidC]))).
Proof.
  assert (SagaLegacy.txs
            (SagaLegacy.run decodeLegacy
               [SagaLegacy.OpRequest 110 (legacy_next "t1" [pidC]);
                SagaLegacy.OpRequest 111 (legacy_next "t2" [pidC; pidD])]
               (sagaL 5)) !! "t1" = Some (txL "t1" [pidC])) as Hin
    by (vm_compute; reflexivity).
  split; [exact Hin|]. split; [vm_compute; reflexivity|].
  exact (legacy_admitted_within_hop_limit decodeLegacy _ _ _ _ Hin).
Defined.

Lemma result_taken_once_witness :
  Saga.handleSagaRequest decode quiet 31 refM result_from_C
    (Saga.handleSagaRequest decode quiet 30 refM result_from_C sagaBC).1.1
  = ((Saga.handleSagaRequest decode quiet 30 refM result_from_C sagaBC).1.1,
     [], Saga.Ret None).
Proof.
  apply (result_taken_once decode quiet 30 refM 31 refM result_from_C
           result_from_C
           {| Saga.res_TransactionID := refT; Saga.res_Origin := refS';
              Saga.Result := Str "y-ok" |}
           {| Saga.res_TransactionID := refT; Saga.res_Origin := refS';
              Saga.Result := Str "y-ok" |} sagaBC); reflexivity.
Defined.

Lemma interim_round_trip_witness :
  ∃ message1 mB message2 mA,
    (Saga.Next 10 refS' refT stepToC sagaB).1.2
    = [Saga.MonitorProcess (TPid pidC); Saga.Send (TPid pidC) message1]
    ∧ Saga.into_messageSaga decode message1 = Some mB
    ∧ Saga.SendInterim None refT (Str "half")
        (Saga.handleSagaRequest decode quiet 11 refM mB (saga_of pidC 0)).1.1
      = ((Saga.handleSagaRequest decode quiet 11 refM mB (saga_of pidC 0)).1.1,
         [Saga.Call (TPid pidB) message2], Saga.Ret None)
    ∧ Saga.into_messageSaga decode message2 = Some mA
    ∧ Saga.handleSagaRequest decode quiet 12 refJ mA
        (Saga.Next 10 refS' refT stepToC sagaB).1.1
      = ((Saga.Next 10 refS' refT stepToC sagaB).1.1,
         [Saga.Invoke (Saga.TxInterim refT refS' (Str "half"))],
         Saga.Ret None)
    ∧ Saga.steps (Saga.Next 10 refS' refT stepToC sagaB).1.1 !! refS'
      = Some 0%nat.
Proof.
  apply (interim_round_trip decode quiet quiet 10 refS' refT stepToC sagaB
           0%nat txB 11 refM (saga_of pidC 0) (Str "half") 12 refJ).
  - apply reads_back_decode.
  - vm_compute. reflexivity.
  - vm_compute. reflexivity.
  - reflexivity.
  - vm_compute. discriminate.
  - vm_compute. discriminate.
  - vm_compute. reflexivity.
  - unfold capacity_ok. vm_compute. intros [H _]. discriminate H.
Defined.

Lemma worker_exit_after_result_witness :
  Saga.HandleInfo decode quiet 300 refM (MessageExit pidW "normal")
    (Saga.HandleCall decode quiet 200 refM fromW
       (messageSagaJobResult pidW (Str "r"))
       (Saga.StartJob (inl pidW) refJ None refT {| Saga.job_Timeout := 5 |}
          (Str "work") sagaA2pc).1.1).1.1
  = ((Saga.HandleCall decode quiet 200 refM fromW
        (messageSagaJobResult pidW (Str "r"))
        (Saga.StartJob (inl pidW) refJ None refT {| Saga.job_Timeout := 5 |}
           (Str "work") sagaA2pc).1.1).1.1,
     [Saga.Invoke (Saga.JobFailed refJ "no result")], Saga.Ret None).
Proof.
  exact (worker_exit_after_result decode quiet pidW refJ refT
           {| Saga.job_Timeout := 5 |} (Str "work") sagaA2pc
           (Saga.worker "worker") 0%nat txA2pc 200 refM fromW (Str "r") 300 refM
           ltac:(vm_compute; reflexivity) ltac:(vm_compute; reflexivity)
           ltac:(vm_compute; reflexivity)).
Defined.
